(** * A shallow embedding of the MyUiExperiment component framework

    The development follows the TypeScript sources: [Component.ts] (the base
    class with its text and property bindings) and the [Repeater] component
    (the list reconciler driven by an observable array).  JavaScript objects
    live in explicit stores, exceptions are explicit results, and loops that
    the source does not bound carry a fuel argument. *)

From Stdlib Require Import Ascii String.
From stdpp Require Import gmap strings list fin_maps pretty.

Local Open Scope string_scope.

(** ** Exceptions and the state-and-exception monad *)

(** Values that the modelled code throws: [Error msg] for [throw new Error(msg)],
    [TypeError] for a property access on [null] or [undefined], and
    [NotFoundError] for the DOM exception of [insertBefore] and [removeChild]. *)
Inductive Exn :=
| Error (msg : string)
| TypeError
| NotFoundError.

(** Mutations done before a [throw] stay visible afterwards, so every result
    carries the state it ends in. [Timeout] is the model running out of fuel. *)
Inductive Res (S A : Type) :=
| Ok (a : A) (s : S)
| Throw (e : Exn) (s : S)
| Timeout (s : S).
Arguments Ok {S A} a s.
Arguments Throw {S A} e s.
Arguments Timeout {S A} s.

Definition M (S A : Type) : Type := S -> Res S A.

Definition ret {S A} (a : A) : M S A := fun s => Ok a s.
Definition bind {S A B} (m : M S A) (k : A -> M S B) : M S B :=
  fun s => match m s with
           | Ok a s' => k a s'
           | Throw e s' => Throw e s'
           | Timeout s' => Timeout s'
           end.
Definition throw {S A} (e : Exn) : M S A := fun s => Throw e s.
Definition timeout {S A} : M S A := fun s => Timeout s.
Definition get {S} : M S S := fun s => Ok s s.
Definition gets {S A} (f : S -> A) : M S A := fun s => Ok (f s) s.
Definition put {S} (s : S) : M S unit := fun _ => Ok tt s.
Definition modify {S} (f : S -> S) : M S unit := fun s => Ok tt (f s).

Notation "'let*' x ':=' c 'in' k" := (bind c (fun x => k))
  (at level 10, x pattern, c at level 100, k at level 200).
Notation "c ';;' k" := (bind c (fun _ => k))
  (at level 100, k at level 200, right associativity).

(** The state a result ends in, whatever the result. *)
Definition finalState {S A} (r : Res S A) : S :=
  match r with Ok _ s | Throw _ s | Timeout s => s end.

(** ** JavaScript string operations used by the sources *)
Module Js.

(** [s.indexOf(p) == 0] *)
Definition startsWith (p s : string) : bool := String.prefix p s.

(** [s.substr(start, len)]: a negative [len] yields the empty string, which
    is what truncated subtraction on [nat] gives the callers. *)
Definition substr (start len : nat) (s : string) : string :=
  String.substring start len s.

(** [s.substr(start)] *)
Definition substrFrom (start : nat) (s : string) : string :=
  String.substring start (String.length s - start) s.

(** The characters of [[a-zA-Z._0-9]]. *)
Definition isPathChar (c : ascii) : bool :=
  let n := nat_of_ascii c in
  (((97 <=? n) && (n <=? 122)) || ((65 <=? n) && (n <=? 90))
   || ((48 <=? n) && (n <=? 57)) || (n =? 46) || (n =? 95))%nat.

(** The longest prefix of path characters (the greedy [+]). *)
Fixpoint takePath (s : string) : string :=
  match s with
  | String c s' => if isPathChar c then String c (takePath s') else ""
  | EmptyString => ""
  end.

(** An attempt to match [/{{[a-zA-Z._0-9]+}}/] at the start of [s].  The
    closing braces are not path characters, so the greedy run is the only
    candidate. *)
Definition matchAt (s : string) : option string :=
  if String.prefix "{{" s then
    let run := takePath (substrFrom 2 s) in
    if (0 <? String.length run)%nat
       && String.prefix "}}" (substrFrom (2 + String.length run) s)
    then Some ("{{" ++ run ++ "}}")
    else None
  else None.

(** [s.match(Component.bindingRegex)] with the [g] flag: all matches, left to
    right and not overlapping; [skip] counts the characters still covered by
    the previous match.  JavaScript returns [null] rather than an empty
    array; the callers below distinguish the empty list. *)
Fixpoint matchAllFrom (skip : nat) (s : string) : list string :=
  match s with
  | EmptyString => []
  | String _ s' =>
      match skip with
      | S k => matchAllFrom k s'
      | O => match matchAt s with
             | Some m => m :: matchAllFrom (String.length m - 1) s'
             | None => matchAllFrom 0 s'
             end
      end
  end.
Definition matchBindings (s : string) : list string := matchAllFrom 0 s.

(** [GetSubstitution] for a string pattern (no capture groups): the
    replacement text understands [$$], [$&], [$`] and [$']. *)
Fixpoint getSubstitution (matched before after repl : string) : string :=
  match repl with
  | String "$" (String "$" r) => "$" ++ getSubstitution matched before after r
  | String "$" (String "&" r) => matched ++ getSubstitution matched before after r
  | String "$" (String "`" r) => before ++ getSubstitution matched before after r
  | String "$" (String "'" r) => after ++ getSubstitution matched before after r
  | String c r => String c (getSubstitution matched before after r)
  | EmptyString => ""
  end.

(** [s.replace(pat, repl)] with a string pattern: the first occurrence only. *)
Definition replace (pat repl s : string) : string :=
  match String.index 0 pat s with
  | None => s
  | Some p =>
      let before := String.substring 0 p s in
      let after := substrFrom (p + String.length pat) s in
      before ++ getSubstitution pat before after repl ++ after
  end.

(** The members that every plain object inherits from [Object.prototype]. *)
Definition objectPrototype : list string :=
  ["constructor"; "toString"; "toLocaleString"; "valueOf"; "hasOwnProperty";
   "isPrototypeOf"; "propertyIsEnumerable"; "__proto__"; "__defineGetter__";
   "__defineSetter__"; "__lookupGetter__"; "__lookupSetter__"].

Definition inherited (name : string) : bool :=
  bool_decide (name ∈ objectPrototype).

(** [typeof o[name] === 'undefined'] for a plain object [o] with the own
    members [own], none of them [undefined]: an own member is found, and so
    is an inherited one (a function, or the prototype itself for
    [__proto__]). *)
Definition undefinedIn {A} (own : gmap string A) (name : string) : bool :=
  match own !! name with
  | Some _ => false
  | None => negb (inherited name)
  end.

(** A string made of the characters of [[a-zA-Z._0-9]] only. *)
Fixpoint isPath (s : string) : bool :=
  match s with
  | EmptyString => true
  | String c s' => isPathChar c && isPath s'
  end.

(** [m.substr(2, m.length - 4)]: the path that the match [m] names. *)
Definition pathOf (m : string) : string := substr 2 (String.length m - 4) m.

End Js.

(** ** The DOM store *)

(** DOM nodes are objects with identity: a node is a key of the store, and its
    links and properties are the entries under that key.  Only what the
    sources read or write is kept: parent and child links, [nodeType],
    attributes, and the [nodeValue] of text nodes.  The hierarchy check of
    [insertBefore] (a node may not be inserted under its own descendant) is
    not modelled: the code under study inserts freshly created nodes and
    component roots only. *)
Module Dom.

Record t := mk {
  parentNode : gmap nat nat;
  childNodes : gmap nat (list nat);
  nodeType : gmap nat nat;
  attributes : gmap nat (list (string * string));
  nodeValue : gmap nat string;
  nextNode : nat  (* the next unused node identity *)
}.

Definition ELEMENT_NODE : nat := 1.
Definition TEXT_NODE : nat := 3.
Definition DOCUMENT_FRAGMENT_NODE : nat := 11.

Definition empty : t := mk ∅ ∅ ∅ ∅ ∅ 0.

Definition kids (d : t) (n : nat) : list nat := default [] (childNodes d !! n).
Definition typeOf (d : t) (n : nat) : nat := default 0 (nodeType d !! n).
Definition attrsOf (d : t) (n : nat) : list (string * string) :=
  default [] (attributes d !! n).
Definition valueOf (d : t) (n : nat) : string := default "" (nodeValue d !! n).

Definition isText (d : t) (n : nat) : bool := Nat.eqb (typeOf d n) TEXT_NODE.
Definition isElement (d : t) (n : nat) : bool := Nat.eqb (typeOf d n) ELEMENT_NODE.

Definition withParentNode (f : gmap nat nat -> gmap nat nat) (d : t) : t :=
  mk (f (parentNode d)) (childNodes d) (nodeType d) (attributes d)
     (nodeValue d) (nextNode d).
Definition withChildNodes
    (f : gmap nat (list nat) -> gmap nat (list nat)) (d : t) : t :=
  mk (parentNode d) (f (childNodes d)) (nodeType d) (attributes d)
     (nodeValue d) (nextNode d).
Definition withAttributes
    (f : gmap nat (list (string * string)) -> gmap nat (list (string * string)))
    (d : t) : t :=
  mk (parentNode d) (childNodes d) (nodeType d) (f (attributes d))
     (nodeValue d) (nextNode d).
Definition withNodeValue (f : gmap nat string -> gmap nat string) (d : t) : t :=
  mk (parentNode d) (childNodes d) (nodeType d) (attributes d)
     (f (nodeValue d)) (nextNode d).

(** [node.nodeValue = v] *)
Definition setValue (n : nat) (v : string) (d : t) : t :=
  withNodeValue (<[n := v]>) d.

(** [getAttribute], [hasAttribute] and [setAttribute]. *)
Fixpoint assoc (k : string) (l : list (string * string)) : option string :=
  match l with
  | [] => None
  | (k', v) :: l' => if String.eqb k k' then Some v else assoc k l'
  end.
Fixpoint assocSet (k v : string) (l : list (string * string))
  : list (string * string) :=
  match l with
  | [] => [(k, v)]
  | (k', v') :: l' =>
      if String.eqb k k' then (k, v) :: l' else (k', v') :: assocSet k v l'
  end.
Definition getAttribute (d : t) (n : nat) (k : string) : option string :=
  assoc k (attrsOf d n).
Definition hasAttribute (d : t) (n : nat) (k : string) : bool :=
  bool_decide (is_Some (getAttribute d n k)).
Definition setAttribute (n : nat) (k v : string) (d : t) : t :=
  withAttributes (<[n := assocSet k v (attrsOf d n)]>) d.

(** The element of [l] that follows [n]. *)
Fixpoint after (n : nat) (l : list nat) : option nat :=
  match l with
  | [] => None
  | x :: l' => if decide (x = n) then head l' else after n l'
  end.

(** [n.nextSibling] ([None] is [null]). *)
Definition nextSibling (d : t) (n : nat) : option nat :=
  match parentNode d !! n with
  | Some p => after n (kids d p)
  | None => None
  end.

Definition without (n : nat) (l : list nat) : list nat :=
  filter (fun x => x ≠ n) l.

(** [new] placed before [r] in [l]. *)
Fixpoint placeBefore (new : list nat) (r : nat) (l : list nat) : list nat :=
  match l with
  | [] => new
  | x :: l' => if decide (x = r) then (new ++ x :: l')%list
               else x :: placeBefore new r l'
  end.
Definition place (new : list nat) (ref : option nat) (l : list nat) : list nat :=
  match ref with
  | Some r => placeBefore new r l
  | None => (l ++ new)%list
  end.

(** Unlink [n] from its parent, if it has one. *)
Definition detach (n : nat) (d : t) : t :=
  match parentNode d !! n with
  | Some p =>
      withParentNode (delete n) (withChildNodes (<[p := without n (kids d p)]>) d)
  | None => d
  end.

Definition detachAll (ns : list nat) (d : t) : t := foldl (fun d n => detach n d) d ns.

Definition adopt (p : nat) (ns : list nat) (d : t) : t :=
  withParentNode (fun m => foldl (fun m n => <[n := p]> m) m ns) d.

(** [parent.insertBefore(node, ref)].  A reference node that is not a child
    of [parent] raises [NotFoundError]; a reference equal to the node itself
    is replaced by the node's next sibling; a document fragment is emptied
    into the parent. *)
Definition insertBefore (p node : nat) (ref : option nat) (d : t) : Exn + t :=
  let refOk := match ref with
               | Some r => bool_decide (parentNode d !! r = Some p)
               | None => true
               end in
  if refOk then
    let ref' := if decide (ref = Some node) then nextSibling d node else ref in
    let moved := if Nat.eqb (typeOf d node) DOCUMENT_FRAGMENT_NODE
                 then kids d node else [node] in
    let d1 := detachAll moved d in
    inr (adopt p moved (withChildNodes (<[p := place moved ref' (kids d1 p)]>) d1))
  else inl NotFoundError.

Definition appendChild (p node : nat) (d : t) : Exn + t :=
  insertBefore p node None d.

(** [parent.removeChild(child)] *)
Definition removeChild (p child : nat) (d : t) : Exn + t :=
  if bool_decide (parentNode d !! child = Some p) then inr (detach child d)
  else inl NotFoundError.

(** A fresh node of the given type, attributes and text value, not linked
    anywhere. *)
Definition create (ty : nat) (attrs : list (string * string)) (v : string) (d : t)
  : nat * t :=
  let n := nextNode d in
  (n, mk (parentNode d) (<[n := []]> (childNodes d)) (<[n := ty]> (nodeType d))
         (<[n := attrs]> (attributes d)) (<[n := v]> (nodeValue d)) (S n)).

(** [root.querySelector("#" + id)]: the first descendant element, in document
    order, whose [id] attribute is [id]; the root itself is not a candidate.
    [todo] is the stack of nodes still to visit; a tree of [k] nodes is
    exhausted in [k] steps. *)
Fixpoint findById (steps : nat) (d : t) (id : string) (todo : list nat)
  : option nat :=
  match steps with
  | O => None
  | S steps' =>
      match todo with
      | [] => None
      | n :: rest =>
          if isElement d n && bool_decide (getAttribute d n "id" = Some id)
          then Some n
          else findById steps' d id (kids d n ++ rest)%list
      end
  end.
Definition querySelectorId (d : t) (root : nat) (id : string) : option nat :=
  findById (nextNode d) d id (kids d root).

(** The ancestors of [n], nearest first; [steps] bounds the walk. *)
Fixpoint ancestors (steps : nat) (d : t) (n : nat) : list nat :=
  match steps with
  | O => []
  | S steps' =>
      match parentNode d !! n with
      | Some p => p :: ancestors steps' d p
      | None => []
      end
  end.

(** [a.contains(n)]: [n] is [a] or a descendant of [a]. *)
Definition contains (d : t) (a n : nat) : bool :=
  bool_decide (a = n \/ a ∈ ancestors (nextNode d) d n).

End Dom.

(** ** Component.ts *)
Module Component.

(** The two kinds of [updateCallback].  An arrow function keeps a reference
    to the variables of the call that created it: [pathVar] and
    [propertyNameVar] name the cell of the captured [var], shared by all the
    callbacks created in the same call. *)
Inductive Callback :=
| TextCallback (this : nat) (pathVar : nat)
    (* (args) => { this.triggerBindingUpdate(path); } *)
| PropertyCallback (this : nat) (propertyNameVar : nat).
    (* (args) => { this[propertyName].value = args.newValue; } *)

(** [Observable<T>]: its value, shown as a string, and the subscribers of
    [onValueChanged] in subscription order. *)
Record Observable := mkObservable {
  value : string;
  onValueChanged : list Callback
}.

Record TextBindingInfo := mkTextBinding {
  elementBindingId : nat;
  textNodeIndex : nat;
  bindingPath : string;
  bindingText : string;
  updateCallback : Callback
}.

Record PropertyBindingInfo := mkPropertyBinding {
  propertyBindingPath : string;
  bindingProperty : string;
  propertyUpdateCallback : Callback
}.

(** A [Component] object.  [fields] holds the observable properties reached as
    [this[path]]; a path with no entry reads as [undefined]. *)
Record t := mk {
  elementId : string;
  fields : gmap string Observable;
  _isShowing : bool;
  parentComponent : option nat;
  rootHtmlElement : option nat;
  propertyBindings : gmap string (list PropertyBindingInfo);
  textBindings : gmap string (list TextBindingInfo)
}.

(** What [DOMParser] yields for a template's [innerHTML]. *)
#[warnings="-register-all"]
Inductive Markup :=
| MText (s : string)
| MComment
| MElement (attrs : list (string * string)) (children : list Markup).

(** A [<script id="template_...">] element of the document. *)
Record Template := mkTemplate {
  templateAttributes : list (string * string);
  innerHTML : list Markup
}.

Record World := mkWorld {
  dom : Dom.t;
  body : nat;                         (* document.body *)
  templates : gmap string Template;   (* document.getElementById *)
  bindingIdCounter : nat;             (* Component.bindingIdCounter *)
  objects : gmap nat t;               (* the component objects *)
  nextObject : nat;
  vars : gmap nat string;             (* captured variables *)
  nextVar : nat
}.

Definition withDom (f : Dom.t -> Dom.t) (w : World) : World :=
  mkWorld (f (dom w)) (body w) (templates w) (bindingIdCounter w) (objects w)
          (nextObject w) (vars w) (nextVar w).
Definition withCounter (f : nat -> nat) (w : World) : World :=
  mkWorld (dom w) (body w) (templates w) (f (bindingIdCounter w)) (objects w)
          (nextObject w) (vars w) (nextVar w).
Definition withObjects (f : gmap nat t -> gmap nat t) (w : World) : World :=
  mkWorld (dom w) (body w) (templates w) (bindingIdCounter w) (f (objects w))
          (nextObject w) (vars w) (nextVar w).
Definition withVars (f : gmap nat string -> gmap nat string) (w : World) : World :=
  mkWorld (dom w) (body w) (templates w) (bindingIdCounter w) (objects w)
          (nextObject w) (f (vars w)) (nextVar w).

Definition withFields (f : gmap string Observable -> gmap string Observable)
    (c : t) : t :=
  mk (elementId c) (f (fields c)) (_isShowing c) (parentComponent c)
     (rootHtmlElement c) (propertyBindings c) (textBindings c).
Definition withIsShowing (b : bool) (c : t) : t :=
  mk (elementId c) (fields c) b (parentComponent c)
     (rootHtmlElement c) (propertyBindings c) (textBindings c).
Definition withParentComponent (p : option nat) (c : t) : t :=
  mk (elementId c) (fields c) (_isShowing c) p
     (rootHtmlElement c) (propertyBindings c) (textBindings c).
Definition withRootHtmlElement (r : option nat) (c : t) : t :=
  mk (elementId c) (fields c) (_isShowing c) (parentComponent c)
     r (propertyBindings c) (textBindings c).
Definition withPropertyBindings
    (f : gmap string (list PropertyBindingInfo)
         -> gmap string (list PropertyBindingInfo)) (c : t) : t :=
  mk (elementId c) (fields c) (_isShowing c) (parentComponent c)
     (rootHtmlElement c) (f (propertyBindings c)) (textBindings c).
Definition withTextBindings
    (f : gmap string (list TextBindingInfo) -> gmap string (list TextBindingInfo))
    (c : t) : t :=
  mk (elementId c) (fields c) (_isShowing c) (parentComponent c)
     (rootHtmlElement c) (propertyBindings c) (f (textBindings c)).

(** *** Access to the stores *)

(** A dereference of an object reference; a dangling one cannot occur in
    JavaScript and is a [TypeError] here. *)
Definition object (this : nat) : M World t :=
  fun w => match objects w !! this with
           | Some c => Ok c w
           | None => Throw TypeError w
           end.
Definition update (this : nat) (f : t -> t) : M World unit :=
  modify (withObjects (fun m => match m !! this with
                                | Some c => <[this := f c]> m
                                | None => m
                                end)).
(** [x.prop] where [x] may be [null] or [undefined]. *)
Definition deref {A} (x : option A) : M World A :=
  match x with
  | Some a => ret a
  | None => throw TypeError
  end.
(** A DOM call that may raise a DOM exception. *)
Definition domCall (f : Dom.t -> Exn + Dom.t) : M World unit :=
  fun w => match f (dom w) with
           | inr d => Ok tt (withDom (fun _ => d) w)
           | inl e => Throw e w
           end.
Definition newVar : M World nat :=
  fun w => Ok (nextVar w)
              (mkWorld (dom w) (body w) (templates w) (bindingIdCounter w)
                       (objects w) (nextObject w) (vars w) (S (nextVar w))).
Definition setVar (x : nat) (v : string) : M World unit :=
  modify (withVars (<[x := v]>)).
Definition readVar (w : World) (x : nat) : option string := vars w !! x.

(** [o.onValueChanged.subscribe(cb)] on the observable [this[path]]. *)
Definition subscribe (this : nat) (path : string) (cb : Callback) : M World unit :=
  let* c := object this in
  let* o := deref (fields c !! path) in
  update this (withFields
    (<[path := mkObservable (value o) (onValueChanged o ++ [cb])%list]>)).

(** *** resolveBindingText *)

Fixpoint resolveMatches (this : nat) (matches : list string) (text : string)
  : M World string :=
  match matches with
  | [] => ret text
  | m :: rest =>
      let path := Js.substr 2 (String.length m - 4) m in
      let* c := object this in
      let* o := deref (fields c !! path) in
      resolveMatches this rest (Js.replace m (value o) text)
  end.

Definition resolveBindingText (this : nat) (text : string) : M World string :=
  match Js.matchBindings text with
  | [] => throw TypeError   (* matches is null *)
  | matches => resolveMatches this matches text
  end.

(** *** show, hide, destroy *)

Definition show (this : nat) (replaceElement : option nat) : M World unit :=
  let* c := object this in
  if _isShowing c then ret tt
  else
    let* appendParent :=
      match parentComponent c with
      | Some p => let* pc := object p in ret (rootHtmlElement pc)
      | None => let* b := gets body in ret (Some b)
      end in
    (match replaceElement with
     | Some r =>
         let* parent := gets (fun w => Dom.parentNode (dom w) !! r) in
         let* parent := deref parent in
         let* root := deref (rootHtmlElement c) in
         domCall (Dom.insertBefore parent root (Some r));;
         update this (withRootHtmlElement (Some root));;
         let* parent := gets (fun w => Dom.parentNode (dom w) !! r) in
         let* parent := deref parent in
         domCall (Dom.removeChild parent r)
     | None =>
         let* parent := deref appendParent in
         let* root := deref (rootHtmlElement c) in
         domCall (Dom.appendChild parent root);;
         update this (withRootHtmlElement (Some root))
     end);;
    update this (withIsShowing true).

(** [node.parentElement]: the parent when it is an element. *)
Definition parentElement (d : Dom.t) (n : nat) : option nat :=
  match Dom.parentNode d !! n with
  | Some p => if Dom.isElement d p then Some p else None
  | None => None
  end.

Definition hide (this : nat) : M World unit :=
  let* c := object this in
  if negb (_isShowing c) then ret tt
  else
    let* root := deref (rootHtmlElement c) in
    let* parent := gets (fun w => parentElement (dom w) root) in
    let* parent := deref parent in
    domCall (Dom.removeChild parent root);;
    update this (withRootHtmlElement (Some root));;
    update this (withIsShowing false).

Definition destroy (this : nat) : M World unit :=
  hide this;;
  update this (withRootHtmlElement None);;
  update this (withParentComponent None).

(** *** triggerBindingUpdate *)

(** The inner [for] of [triggerBindingUpdate] over the child nodes of the
    binding element; the body does not change the child list, so the loop
    runs over the list as found. *)
Fixpoint patchTextNodes (this : nat) (binding : TextBindingInfo)
    (children : list nat) (textNodeIndex : nat) : M World unit :=
  match children with
  | [] => ret tt
  | child :: rest =>
      let* isText := gets (fun w => Dom.isText (dom w) child) in
      if isText then
        (if Nat.eqb textNodeIndex (Component.textNodeIndex binding) then
           let* v := resolveBindingText this (bindingText binding) in
           modify (withDom (Dom.setValue child v))
         else ret tt);;
        patchTextNodes this binding rest (S textNodeIndex)
      else patchTextNodes this binding rest textNodeIndex
  end.

(** The outer [for].  Both loops are written with [var i], which is one
    variable of the function: when the inner loop ends, [i] is the number of
    child nodes of the binding element, and the outer [i++] continues from
    there. *)
Fixpoint triggerLoop (fuel : nat) (this : nat) (bindings : list TextBindingInfo)
    (i : nat) : M World unit :=
  match fuel with
  | O => timeout
  | S fuel' =>
      if (i <? length bindings)%nat then
        let* binding := deref (bindings !! i) in
        let* c := object this in
        let* root := deref (rootHtmlElement c) in
        let* found := gets (fun w =>
          Dom.querySelectorId (dom w) root
            ("BindingElement" ++ pretty (elementBindingId binding))) in
        let* bindingElement := deref found in
        let* children := gets (fun w => Dom.kids (dom w) bindingElement) in
        patchTextNodes this binding children 0;;
        triggerLoop fuel' this bindings (S (length children))
      else ret tt
  end.

Definition triggerBindingUpdate (fuel : nat) (this : nat) (path : string)
  : M World unit :=
  let* c := object this in
  let* bindings := deref (textBindings c !! path) in
  triggerLoop fuel this bindings 0.

(** Modelled from the spec: the [Observable] class is not part of the
    sources.  Assigning [this[path].value = v] replaces the value and then
    notifies the subscribers of [onValueChanged] in subscription order, each
    run to completion: a text callback resolves the path held by its
    captured variable, a property callback assigns the new value to the
    property it names. *)
Fixpoint setValue (fuel : nat) (this : nat) (path v : string) : M World unit :=
  match fuel with
  | O => timeout
  | S fuel' =>
      let* c := object this in
      let* o := deref (fields c !! path) in
      update this (withFields (<[path := mkObservable v (onValueChanged o)]>));;
      (fix notify (callbacks : list Callback) : M World unit :=
         match callbacks with
         | [] => ret tt
         | TextCallback target pathVar :: rest =>
             let* p := gets (fun w => readVar w pathVar) in
             let* p := deref p in
             triggerBindingUpdate fuel' target p;;
             notify rest
         | PropertyCallback target propertyNameVar :: rest =>
             let* p := gets (fun w => readVar w propertyNameVar) in
             let* p := deref p in
             setValue fuel' target p v;;
             notify rest
         end) (onValueChanged o)
  end.

(** *** The constructor and binding discovery *)

(** The nodes that parsing a template creates. *)
Fixpoint buildNode (m : Markup) (d : Dom.t) : nat * Dom.t :=
  match m with
  | MText s => Dom.create Dom.TEXT_NODE [] s d
  | MComment => Dom.create 8 [] "" d
  | MElement attrs children =>
      let '(n, d1) := Dom.create Dom.ELEMENT_NODE attrs "" d in
      let '(ks, d2) :=
        (fix buildAll (ms : list Markup) (d : Dom.t) : list nat * Dom.t :=
           match ms with
           | [] => ([], d)
           | m :: ms' =>
               let '(k, d') := buildNode m d in
               let '(ks, d'') := buildAll ms' d' in
               (k :: ks, d'')
           end) children d1 in
      (n, Dom.adopt n ks (Dom.withChildNodes (<[n := ks]>) d2))
  end.

(** [new DOMParser().parseFromString(innerHTML, "text/html").body] *)
Definition parseBody (ms : list Markup) : M World nat :=
  fun w => let '(n, d) := buildNode (MElement [] ms) (dom w) in
           Ok n (withDom (fun _ => d) w).

Definition createElement : M World nat :=
  fun w => let '(n, d) := Dom.create Dom.ELEMENT_NODE [] "" (dom w) in
           Ok n (withDom (fun _ => d) w).

Definition newObject (c : t) : M World nat :=
  fun w => Ok (nextObject w)
              (mkWorld (dom w) (body w) (templates w) (bindingIdCounter w)
                       (<[nextObject w := c]> (objects w)) (S (nextObject w))
                       (vars w) (nextVar w)).

(** The loop [for (i = 0; i < body.childNodes.length; i++)
    root.appendChild(body.childNodes.item(i))] over the live child list of
    the parsed body: every [appendChild] takes the node out of that list. *)
Fixpoint moveChildren (budget : nat) (source target : nat) (i : nat)
  : M World unit :=
  match budget with
  | O => timeout
  | S budget' =>
      let* children := gets (fun w => Dom.kids (dom w) source) in
      if (i <? length children)%nat then
        let* child := deref (children !! i) in
        domCall (Dom.appendChild target child);;
        moveChildren budget' source target (S i)
      else ret tt
  end.

(** The loop over [template.attributes] that processes property bindings. *)
Fixpoint processPropertyBindings (this : nat) (propertyNameVar : nat)
    (attrs : list (string * string)) : M World unit :=
  match attrs with
  | [] => ret tt
  | (attributeName, attributeValue) :: rest =>
      (if Js.startsWith "data-property-" attributeName then
         let bindingPath :=
           Js.substr 2 (String.length attributeValue - 4) attributeValue in
         let propertyName := Js.substrFrom 14 attributeName in
         setVar propertyNameVar propertyName;;
         let* c := object this in
         (if Js.undefinedIn (textBindings c) bindingPath
          then update this (withTextBindings (<[bindingPath := []]>))
          else ret tt);;
         let bindingInfo :=
           mkPropertyBinding bindingPath propertyName
                             (PropertyCallback this propertyNameVar) in
         let* parent := deref (parentComponent c) in
         subscribe parent bindingPath (propertyUpdateCallback bindingInfo);;
         let* c := object this in
         let* bs := deref (propertyBindings c !! bindingPath) in
         update this (withPropertyBindings (<[bindingPath := (bs ++ [bindingInfo])%list]>))
       else ret tt);;
      processPropertyBindings this propertyNameVar rest
  end.

(** The loop over the matches of one text node. *)
Fixpoint registerMatches (this : nat) (bindingId i : nat) (nodeValue : string)
    (pathVar : nat) (matches : list string) : M World unit :=
  match matches with
  | [] => ret tt
  | m :: rest =>
      let path := Js.substr 2 (String.length m - 4) m in
      setVar pathVar path;;
      let* c := object this in
      (if Js.undefinedIn (textBindings c) path
       then update this (withTextBindings (<[path := []]>))
       else ret tt);;
      let bindingInfo :=
        mkTextBinding bindingId i path nodeValue (TextCallback this pathVar) in
      subscribe this path (updateCallback bindingInfo);;
      let* c := object this in
      (* an inherited member has no [push] *)
      let* bs := deref (textBindings c !! path) in
      update this (withTextBindings (<[path := (bs ++ [bindingInfo])%list]>));;
      registerMatches this bindingId i nodeValue pathVar rest
  end.

(** The loop over the text nodes of [rootElement]; [bindingId] is [None] for
    the initial [-1]. *)
Fixpoint scanTextNodes (this rootElement pathVar : nat) (textNodes : list nat)
    (i : nat) (bindingId : option nat) : M World unit :=
  match textNodes with
  | [] => ret tt
  | node :: rest =>
      let* nodeValue := gets (fun w => Dom.valueOf (dom w) node) in
      match Js.matchBindings nodeValue with
      | [] => scanTextNodes this rootElement pathVar rest (S i) bindingId
      | matches =>
          let* bid :=
            match bindingId with
            | Some b => ret b
            | None =>
                let* b := gets bindingIdCounter in
                modify (withCounter S);;
                modify (withDom (Dom.setAttribute rootElement "id"
                                   ("BindingElement" ++ pretty b)));;
                ret b
            end in
          registerMatches this bid i nodeValue pathVar matches;;
          let* resolved := resolveBindingText this nodeValue in
          modify (withDom (Dom.setValue node resolved));;
          scanTextNodes this rootElement pathVar rest (S i) (Some bid)
      end
  end.

Section Discovery.

(** The classes registered on [window] are user code: [construct id parent]
    stands for creating an object from [window[id].prototype] and applying
    its constructor with [parent] as argument; it returns the instance. *)
Variable construct : string -> nat -> M World nat.

Definition processSubComponent (this element : nat) : M World unit :=
  let* componentId :=
    gets (fun w => Dom.getAttribute (dom w) element "data-component") in
  let* componentId := deref componentId in
  let* componentInstance := construct componentId this in
  show componentInstance (Some element).

Fixpoint processElements (fuel : nat) (this rootElement : nat) : M World unit :=
  match fuel with
  | O => timeout
  | S fuel' =>
      let* children := gets (fun w => Dom.kids (dom w) rootElement) in
      let* textNodes :=
        gets (fun w => List.filter (Dom.isText (dom w)) children) in
      let* pathVar := newVar in
      scanTextNodes this rootElement pathVar textNodes 0 None;;
      let* isSub :=
        gets (fun w => Dom.hasAttribute (dom w) rootElement "data-component") in
      if isSub then processSubComponent this rootElement
      else
        (fix childLoop (budget : nat) (i : nat) : M World unit :=
           match budget with
           | O => timeout
           | S budget' =>
               let* children := gets (fun w => Dom.kids (dom w) rootElement) in
               if (i <? length children)%nat then
                 let* child := deref (children !! i) in
                 let* isElement := gets (fun w => Dom.isElement (dom w) child) in
                 (if isElement then processElements fuel' this child
                  else ret tt);;
                 childLoop budget' (S i)
               else ret tt
           end) fuel' 0
  end.

Definition constructor (fuel : nat) (id : string) (parent : option nat)
  : M World nat :=
  let* this :=
    newObject (mk id {["title" := mkObservable "" []]} false parent None ∅ ∅) in
  let* template := gets (fun w => templates w !! ("template_" ++ id)) in
  match template with
  | None => throw (Error "Tried to instantiate non-existing template")
  | Some template =>
      let* root := createElement in
      update this (withRootHtmlElement (Some root));;
      let* propertyNameVar := newVar in
      processPropertyBindings this propertyNameVar (templateAttributes template);;
      let* parsedBody := parseBody (innerHTML template) in
      let* n := gets (fun w => length (Dom.kids (dom w) parsedBody)) in
      moveChildren (S n) parsedBody root 0;;
      processElements fuel this root;;
      ret this
  end.

End Discovery.

End Component.

(** A registry of component classes of the form
    [class X extends Component { constructor(parent) { super(id, parent); } }],
    given by the [id] each class passes to [super]; an unregistered name is
    [undefined] on [window].  [depth] bounds the nesting of subcomponents. *)
Fixpoint constructRegistered (registry : gmap string string) (depth : nat)
    (componentId : string) (parent : nat) : M Component.World nat :=
  match depth with
  | O => timeout
  | S depth' =>
      match registry !! componentId with
      | None => throw TypeError
      | Some id =>
          Component.constructor (constructRegistered registry depth') depth'
                                id (Some parent)
      end
  end.

(** ** The Repeater *)
Module Repeater.

(** Array elements, shown as strings. *)
Definition Item : Type := string.

(** One root-level node of [template.content]: its node type and the
    placeholder paths that binding discovery finds under it.  The Repeater
    reads the root-level links of a clone only; what lies below a root is
    visited by the data binder alone. *)
Record TemplateNode := mkTemplateNode {
  templateNodeType : nat;
  placeholders : list string
}.

(** Modelled from the spec: [NodeDataBindingInformation], the binding record
    of the data binder (the class is not part of the sources): the node the
    record patches, the data context it is resolved against, its path, and
    the subscription handle that identifies it. *)
Record NodeDataBindingInformation := mkBinding {
  bindingNode : nat;
  bindingContext : nat;
  bindingPath : string;
  bindingHandle : nat
}.

(** The value of [dataContext], by what the Repeater reads of it: whether it
    is an instance of [ObservableArray], its [size] and [get], and its
    [itemAdded] and [itemRemoved] events.  [ObservableArray items] is an
    [ObservableArray] that holds [items].  [Collection items] is a value of
    another class with a [size] and a [get] that give [items], as a [Map]
    with the keys [0 .. n-1] has, and without [itemAdded].  [OtherValue] is
    any other value but [null] and [undefined]: its [size] and its
    [itemAdded] are [undefined].  [Nullish] is [null] or [undefined]. *)
Inductive DataValue :=
| ObservableArray (items : list Item)
| Collection (items : list Item)
| OtherValue
| Nullish.

(** [value instanceof ObservableArray] *)
Definition isObservableArray (value : DataValue) : bool :=
  match value with
  | ObservableArray _ => true
  | Collection _ | OtherValue | Nullish => false
  end.

(** [ObservableArrayEventArgs] *)
Record ObservableArrayEventArgs := mkArgs {
  item : Item;
  position : nat
}.

Record t := mk {
  self : nat;
  templateElement : option (list TemplateNode);
  hostAttributes : list (string * string);
  parentComponent : option (gset string);
  dataContext : DataValue;
  template : option (list TemplateNode);
  itemNodes : list (list nat);
  itemNodeBindings : list (list NodeDataBindingInformation);
  itemEventCallbacks : list (string * string);
  dom : Dom.t;
  contexts : gmap nat Item;
  nextContext : nat;
  nodeContext : gmap nat nat;
  nodePlaceholders : gmap nat (list string);
  listeners : list (nat * string * nat);
  subscriptions : list NodeDataBindingInformation;
  nextHandle : nat;
  dataContextHandlers : nat;
  arrayHandlers : nat
}.

(** [self] is [this], the host element; [templateElement] is what
    [this.querySelector("template")] finds; [parentComponent] lists the
    members the enclosing component defines; [dataContext] is
    [this.dataContext.value]; [contexts] holds the [Observable] objects made
    for the items and [nodeContext] what [applyMyDataContext] set;
    [listeners] are (node, event, data context) triples; [subscriptions] are
    the records live in the data binder; the two handler counts are the
    subscribers of [dataContext.onValueChanged] and of the array events. *)
Definition withTemplate (f : option (list TemplateNode) -> option (list TemplateNode)) (r : t) : t :=
  mk (self r) (templateElement r) (hostAttributes r) (parentComponent r)
    (dataContext r) (f (template r)) (itemNodes r) (itemNodeBindings r)
    (itemEventCallbacks r) (dom r) (contexts r) (nextContext r)
    (nodeContext r) (nodePlaceholders r) (listeners r) (subscriptions r)
    (nextHandle r) (dataContextHandlers r) (arrayHandlers r).
Definition withItemNodes (f : list (list nat) -> list (list nat)) (r : t) : t :=
  mk (self r) (templateElement r) (hostAttributes r) (parentComponent r)
    (dataContext r) (template r) (f (itemNodes r)) (itemNodeBindings r)
    (itemEventCallbacks r) (dom r) (contexts r) (nextContext r)
    (nodeContext r) (nodePlaceholders r) (listeners r) (subscriptions r)
    (nextHandle r) (dataContextHandlers r) (arrayHandlers r).
Definition withItemNodeBindings (f : list (list NodeDataBindingInformation) -> list (list NodeDataBindingInformation)) (r : t) : t :=
  mk (self r) (templateElement r) (hostAttributes r) (parentComponent r)
    (dataContext r) (template r) (itemNodes r) (f (itemNodeBindings r))
    (itemEventCallbacks r) (dom r) (contexts r) (nextContext r)
    (nodeContext r) (nodePlaceholders r) (listeners r) (subscriptions r)
    (nextHandle r) (dataContextHandlers r) (arrayHandlers r).
Definition withItemEventCallbacks (f : list (string * string) -> list (string * string)) (r : t) : t :=
  mk (self r) (templateElement r) (hostAttributes r) (parentComponent r)
    (dataContext r) (template r) (itemNodes r) (itemNodeBindings r)
    (f (itemEventCallbacks r)) (dom r) (contexts r) (nextContext r)
    (nodeContext r) (nodePlaceholders r) (listeners r) (subscriptions r)
    (nextHandle r) (dataContextHandlers r) (arrayHandlers r).
Definition withDom (f : Dom.t -> Dom.t) (r : t) : t :=
  mk (self r) (templateElement r) (hostAttributes r) (parentComponent r)
    (dataContext r) (template r) (itemNodes r) (itemNodeBindings r)
    (itemEventCallbacks r) (f (dom r)) (contexts r) (nextContext r)
    (nodeContext r) (nodePlaceholders r) (listeners r) (subscriptions r)
    (nextHandle r) (dataContextHandlers r) (arrayHandlers r).
Definition withContexts (f : gmap nat Item -> gmap nat Item) (r : t) : t :=
  mk (self r) (templateElement r) (hostAttributes r) (parentComponent r)
    (dataContext r) (template r) (itemNodes r) (itemNodeBindings r)
    (itemEventCallbacks r) (dom r) (f (contexts r)) (nextContext r)
    (nodeContext r) (nodePlaceholders r) (listeners r) (subscriptions r)
    (nextHandle r) (dataContextHandlers r) (arrayHandlers r).
Definition withNextContext (f : nat -> nat) (r : t) : t :=
  mk (self r) (templateElement r) (hostAttributes r) (parentComponent r)
    (dataContext r) (template r) (itemNodes r) (itemNodeBindings r)
    (itemEventCallbacks r) (dom r) (contexts r) (f (nextContext r))
    (nodeContext r) (nodePlaceholders r) (listeners r) (subscriptions r)
    (nextHandle r) (dataContextHandlers r) (arrayHandlers r).
Definition withNodeContext (f : gmap nat nat -> gmap nat nat) (r : t) : t :=
  mk (self r) (templateElement r) (hostAttributes r) (parentComponent r)
    (dataContext r) (template r) (itemNodes r) (itemNodeBindings r)
    (itemEventCallbacks r) (dom r) (contexts r) (nextContext r)
    (f (nodeContext r)) (nodePlaceholders r) (listeners r) (subscriptions r)
    (nextHandle r) (dataContextHandlers r) (arrayHandlers r).
Definition withNodePlaceholders (f : gmap nat (list string) -> gmap nat (list string)) (r : t) : t :=
  mk (self r) (templateElement r) (hostAttributes r) (parentComponent r)
    (dataContext r) (template r) (itemNodes r) (itemNodeBindings r)
    (itemEventCallbacks r) (dom r) (contexts r) (nextContext r)
    (nodeContext r) (f (nodePlaceholders r)) (listeners r) (subscriptions r)
    (nextHandle r) (dataContextHandlers r) (arrayHandlers r).
Definition withListeners (f : list (nat * string * nat) -> list (nat * string * nat)) (r : t) : t :=
  mk (self r) (templateElement r) (hostAttributes r) (parentComponent r)
    (dataContext r) (template r) (itemNodes r) (itemNodeBindings r)
    (itemEventCallbacks r) (dom r) (contexts r) (nextContext r)
    (nodeContext r) (nodePlaceholders r) (f (listeners r)) (subscriptions r)
    (nextHandle r) (dataContextHandlers r) (arrayHandlers r).
Definition withSubscriptions (f : list NodeDataBindingInformation -> list NodeDataBindingInformation) (r : t) : t :=
  mk (self r) (templateElement r) (hostAttributes r) (parentComponent r)
    (dataContext r) (template r) (itemNodes r) (itemNodeBindings r)
    (itemEventCallbacks r) (dom r) (contexts r) (nextContext r)
    (nodeContext r) (nodePlaceholders r) (listeners r) (f (subscriptions r))
    (nextHandle r) (dataContextHandlers r) (arrayHandlers r).
Definition withNextHandle (f : nat -> nat) (r : t) : t :=
  mk (self r) (templateElement r) (hostAttributes r) (parentComponent r)
    (dataContext r) (template r) (itemNodes r) (itemNodeBindings r)
    (itemEventCallbacks r) (dom r) (contexts r) (nextContext r)
    (nodeContext r) (nodePlaceholders r) (listeners r) (subscriptions r)
    (f (nextHandle r)) (dataContextHandlers r) (arrayHandlers r).
Definition withDataContextHandlers (f : nat -> nat) (r : t) : t :=
  mk (self r) (templateElement r) (hostAttributes r) (parentComponent r)
    (dataContext r) (template r) (itemNodes r) (itemNodeBindings r)
    (itemEventCallbacks r) (dom r) (contexts r) (nextContext r)
    (nodeContext r) (nodePlaceholders r) (listeners r) (subscriptions r)
    (nextHandle r) (f (dataContextHandlers r)) (arrayHandlers r).
Definition withArrayHandlers (f : nat -> nat) (r : t) : t :=
  mk (self r) (templateElement r) (hostAttributes r) (parentComponent r)
    (dataContext r) (template r) (itemNodes r) (itemNodeBindings r)
    (itemEventCallbacks r) (dom r) (contexts r) (nextContext r)
    (nodeContext r) (nodePlaceholders r) (listeners r) (subscriptions r)
    (nextHandle r) (dataContextHandlers r) (f (arrayHandlers r)).

Definition deref {A} (x : option A) : M t A :=
  match x with
  | Some a => ret a
  | None => throw TypeError
  end.
Definition domCall (f : Dom.t -> Exn + Dom.t) : M t unit :=
  fun r => match f (dom r) with
           | inr d => Ok tt (withDom (fun _ => d) r)
           | inl e => Throw e r
           end.

(** *** Array operations of JavaScript *)

(** [a.splice(start, 0, x)]: a start past the end is clamped to the length. *)
Definition spliceInsert {A} (start : nat) (x : A) (a : list A) : list A :=
  (take start a ++ x :: drop start a)%list.
(** [a.splice(start, 1)] *)
Definition spliceRemove {A} (start : nat) (a : list A) : list A :=
  (take start a ++ drop (S start) a)%list.

(** *** The data binder *)

(** [new Observable<any>(item)] *)
Definition newObservable (x : Item) : M t nat :=
  fun r => Ok (nextContext r)
    (withNextContext S (withContexts (<[nextContext r := x]>) r)).

Fixpoint recordsFor (node context : nat) (paths : list string) (handle : nat)
  : list NodeDataBindingInformation :=
  match paths with
  | [] => []
  | p :: ps => mkBinding node context p handle :: recordsFor node context ps (S handle)
  end.

(** Modelled from the spec: [dataBinder.processBindings(node, scope)], which
    is not part of the sources.  It registers one binding record per
    placeholder found under [node], each resolved against [scope] and
    subscribed under a handle of its own, and returns the records. *)
Definition processBindings (node context : nat)
  : M t (list NodeDataBindingInformation) :=
  fun r =>
    let paths := default [] (nodePlaceholders r !! node) in
    let records := recordsFor node context paths (nextHandle r) in
    Ok records
       (withNextHandle (fun h => h + length records)
          (withSubscriptions (fun l => l ++ records)%list r)).

(** The text that a record renders: the value of its data context.  The
    rendering is kept as the [nodeValue] of the record's node. *)
Definition patch (r : t) (d : Dom.t) (b : NodeDataBindingInformation) : Dom.t :=
  Dom.setValue (bindingNode b) (default "" (contexts r !! bindingContext b)) d.

(** Modelled from the spec: [dataBinder.resolveBindings(records)] rewrites
    the text of the given records from the current data. *)
Definition resolveBindings (records : list NodeDataBindingInformation) : M t unit :=
  fun r => Ok tt (withDom (fun d => foldl (patch r) d records) r).

(** Modelled from the spec: [dataBinder.resolveAllBindings()] resolves every
    live record. *)
Definition resolveAllBindings : M t unit :=
  fun r => resolveBindings (subscriptions r) r.

(** Modelled from the spec: [dataBinder.releaseBindings(records)]
    unsubscribes each of the given records. *)
Definition releaseBindings (records : list NodeDataBindingInformation) : M t unit :=
  modify (withSubscriptions
    (filter (fun b => bindingHandle b ∉ map bindingHandle records))).

(** Modelled from the spec: a change notification for [path] on the data
    context [context], whose value becomes [v]: the live records subscribed
    to that path of that context are resolved again. *)
Definition valueChanged (context : nat) (path : string) (v : Item) (r : t) : t :=
  let r' := withContexts (<[context := v]>) r in
  withDom (fun d =>
    foldl (patch r') d
      (filter (fun b => bindingContext b = context ∧ bindingPath b = path)
              (subscriptions r'))) r'.

(** *** Cloning the template *)

(** The nodes of one clone, created detached. *)
Fixpoint createNodes (ts : list TemplateNode) (r : t) : list nat * t :=
  match ts with
  | [] => ([], r)
  | tn :: ts' =>
      let '(n, d) := Dom.create (templateNodeType tn) [] "" (dom r) in
      let r1 := withNodePlaceholders (<[n := placeholders tn]>)
                  (withDom (fun _ => d) r) in
      let '(ns, r2) := createNodes ts' r1 in
      (n :: ns, r2)
  end.

(** [document.importNode(this.template.content, true)]: a document fragment
    with a fresh copy of each root-level node of the template. *)
Definition importNode : M t nat :=
  let* ts := gets template in
  let* ts := deref ts in
  fun r =>
    let '(f, d) := Dom.create Dom.DOCUMENT_FRAGMENT_NODE [] "" (dom r) in
    let '(ns, r1) := createNodes ts (withDom (fun _ => d) r) in
    Ok f (withDom (fun d => Dom.adopt f ns (Dom.withChildNodes (<[f := ns]>) d)) r1).

(** Modelled from the spec: [applyMyDataContext] of the base class sets the
    data context of a clone root. *)
Definition applyMyDataContext (node context : nat) : M t unit :=
  modify (withNodeContext (<[node := context]>)).

(** [setParentComponent] of the base class hands the enclosing component to
    the clone root; the Repeater never reads it back. *)
Definition setParentComponent (node : nat) : M t unit := ret tt.

(** [applyRepeaterEvents]: one listener per declared item event. *)
Definition applyRepeaterEvents (node context : nat) : M t unit :=
  fun r => Ok tt (withListeners
    (fun l => (l ++ map (fun '(eventName, _) => (node, eventName, context))
                       (itemEventCallbacks r))%list) r).

(** The loop over [clone.childNodes] that fills [cloneNodes]. *)
Fixpoint prepareNodes (nodes : list nat) (context : nat) : M t (list nat) :=
  match nodes with
  | [] => ret []
  | n :: rest =>
      applyMyDataContext n context;;
      setParentComponent n;;
      applyRepeaterEvents n context;;
      let* ns := prepareNodes rest context in
      ret (n :: ns)
  end.

(** The loops that collect the bindings of every clone node. *)
Fixpoint collectBindings (cloneNodes : list nat) (context : nat)
  : M t (list NodeDataBindingInformation) :=
  match cloneNodes with
  | [] => ret []
  | n :: rest =>
      let* nodeBindings := processBindings n context in
      let* more := collectBindings rest context in
      ret (nodeBindings ++ more)%list
  end.

(** *** itemAdded and itemRemoved *)

(** [itemAdded] *)
Definition itemAdded (arg : ObservableArrayEventArgs) : M t unit :=
  let* itemDataContext := newObservable (item arg) in
  let* clone := importNode in
  let* children := gets (fun r => Dom.kids (dom r) clone) in
  let* cloneNodes := prepareNodes children itemDataContext in
  (* Capture the reference node before we shift the reference array *)
  let* nodes := gets itemNodes in
  let* this := gets self in
  let* refNode :=
    if Nat.eqb (length nodes) 0 then
      gets (fun r => Dom.nextSibling (dom r) this)
    else if (position arg <? length nodes)%nat then
      let* entry := deref (nodes !! position arg) in
      ret (entry !! 0)
    else
      let* refNodes := deref (nodes !! (length nodes - 1)) in
      let* last := deref (refNodes !! (length refNodes - 1)) in
      gets (fun r => Dom.nextSibling (dom r) last) in
  modify (withItemNodes (spliceInsert (position arg) cloneNodes));;
  (* Append to the DOM in the proper place *)
  let* parent := gets (fun r => Dom.parentNode (dom r) !! this) in
  let* parent := deref parent in
  domCall (Dom.insertBefore parent clone refNode);;
  (* Process text bindings *)
  let* itemBindings := collectBindings cloneNodes itemDataContext in
  modify (withItemNodeBindings (spliceInsert (position arg) itemBindings));;
  resolveBindings itemBindings.

(** The loop of [itemRemoved] and [dataContextUpdated] that takes nodes out
    of the document. *)
Fixpoint removeNodes (nodes : list nat) : M t unit :=
  match nodes with
  | [] => ret tt
  | n :: rest =>
      let* parent := gets (fun r => Dom.parentNode (dom r) !! n) in
      let* parent := deref parent in
      domCall (Dom.removeChild parent n);;
      removeNodes rest
  end.

(** [itemRemoved] *)
Definition itemRemoved (arg : ObservableArrayEventArgs) : M t unit :=
  (* Release all the associated data bindings *)
  let* bindings := gets itemNodeBindings in
  (match bindings !! position arg with
   | Some itemBindings => releaseBindings itemBindings
   | None => throw TypeError    (* the binder reads the records of undefined *)
   end);;
  modify (withItemNodeBindings (spliceRemove (position arg)));;
  (* Remove nodes from the DOM *)
  let* nodes := gets itemNodes in
  let* nodesToBeRemoved := deref (nodes !! position arg) in
  removeNodes nodesToBeRemoved;;
  modify (withItemNodes (spliceRemove (position arg))).

(** *** populateAllItems, dataContextUpdated, attachedCallback *)

Fixpoint populateLoop (items : list Item) (refNode : option nat) : M t unit :=
  match items with
  | [] => ret tt
  | x :: rest =>
      let* itemDataContext := newObservable x in
      let* clone := importNode in
      let* children := gets (fun r => Dom.kids (dom r) clone) in
      let* cloneNodes := prepareNodes children itemDataContext in
      modify (withItemNodes (fun l => l ++ [cloneNodes])%list);;
      let* this := gets self in
      let* parent := gets (fun r => Dom.parentNode (dom r) !! this) in
      let* parent := deref parent in
      domCall (Dom.insertBefore parent clone refNode);;
      let* last := deref (cloneNodes !! (length cloneNodes - 1)) in
      let* refNode := gets (fun r => Dom.nextSibling (dom r) last) in
      let* itemBindings := collectBindings cloneNodes itemDataContext in
      modify (withItemNodeBindings (fun l => l ++ [itemBindings])%list);;
      populateLoop rest refNode
  end.

(** [populateAllItems] *)
Definition populateAllItems : M t unit :=
  let* array := gets dataContext in
  let* this := gets self in
  let* refNode := gets (fun r => Dom.nextSibling (dom r) this) in
  (match array with
   | ObservableArray items | Collection items => populateLoop items refNode
   | OtherValue => ret tt    (* array.size is undefined: the loop does not run *)
   | Nullish => throw TypeError   (* array.size *)
   end);;
  resolveAllBindings.

(** [dataContextUpdated]: the rendered nodes leave the document, the lists
    are emptied, all items are rendered again, and the handlers of the array
    events are subscribed (once more on every call). *)
Definition dataContextUpdated : M t unit :=
  let* nodes := gets itemNodes in
  removeNodes (concat nodes);;
  modify (withItemNodes (fun _ => []));;
  modify (withItemNodeBindings (fun _ => []));;
  populateAllItems;;
  let* array := gets dataContext in
  match array with
  | ObservableArray _ => modify (withArrayHandlers S)
  | Collection _ | OtherValue => throw TypeError   (* undefined.subscribe *)
  | Nullish => throw TypeError   (* not reached: [populateAllItems] threw *)
  end.

(** The loop of [attachedCallback] over the host attributes. *)
Fixpoint bindItemEvents (attrs : list (string * string)) : M t unit :=
  match attrs with
  | [] => ret tt
  | (attributeName, attributeValue) :: rest =>
      (if Js.startsWith "data-event-item-" attributeName then
         let eventName := Js.replace "data-event-item-" "" attributeName in
         let* parent := gets parentComponent in
         match parent with
         | Some members =>
             if bool_decide (attributeValue ∈ members) then
               modify (withItemEventCallbacks
                         (Dom.assocSet eventName attributeValue))
             else ret tt   (* console.error(...) *)
         | None => throw TypeError   (* this.parentComponent.tagName *)
         end
       else ret tt);;
      bindItemEvents rest
  end.

(** [attachedCallback].  The call [super.attachedCallback()] belongs to the
    base class of the Repeater, which is not part of the sources; the state
    in which this definition starts is the one that call leaves. *)
Definition attachedCallback : M t unit :=
  let* found := gets templateElement in
  modify (withTemplate (fun _ => found));;
  match found with
  | None =>
      throw (Error ("Template undefined for repeater component."
                    ++ " A repeater element should always contain a template element."))
  | Some _ =>
      let* value := gets dataContext in
      match value with
      | Collection _ | OtherValue | Nullish =>
          throw (Error ("Invalid data context for repeater component."
                        ++ " A repeater element should have an observable array set as the data context."))
      | ObservableArray _ =>
          let* attrs := gets hostAttributes in
          bindItemEvents attrs;;
          modify (withDataContextHandlers S);;
          dataContextUpdated
      end
  end.

End Repeater.

(** ** Documents used as concrete inputs *)

(** No component class is registered on [window]. *)
Definition noClasses : string -> nat -> M Component.World nat :=
  fun _ _ => throw TypeError.

(** A document with an empty body and the given template scripts. *)
Definition document (ts : list (string * Component.Template)) : Component.World :=
  let '(b, d) := Dom.create Dom.ELEMENT_NODE [] "" Dom.empty in
  Component.mkWorld d b (list_to_map ts) 0 ∅ 0 ∅ 0.

(** [<script id="template_T" data-root-tag="div"><div><p>{{title}}</p></div></script>] *)
Definition oneBinding : Component.World :=
  document
    [("template_T",
      Component.mkTemplate [("id", "template_T"); ("data-root-tag", "div")]
        [Component.MElement []
           [Component.MElement [] [Component.MText "{{title}}"]]])].

(** The component built from [oneBinding], after its [<p>] (node 4, the owner
    of the only binding) was taken out of its parent (node 3). *)
Definition staleWorld : Component.World :=
  finalState
    ((Component.constructor noClasses 5 "T" None;;
      Component.domCall (Dom.removeChild 3 4)) oneBinding).

(** The value of the observable [this[path]] replaced by [v], with no
    subscriber run yet. *)
Definition assign (this : nat) (path v : string) : M Component.World unit :=
  let* c := Component.object this in
  let* o := Component.deref (Component.fields c !! path) in
  Component.update this
    (Component.withFields
       (<[path := Component.mkObservable v (Component.onValueChanged o)]>)).

(** [<div><p>{{title}}</p><span>{{title}}</span></div>]: two elements bound to
    the same path. *)
Definition twoBindings : Component.World :=
  document
    [("template_T",
      Component.mkTemplate [("id", "template_T"); ("data-root-tag", "div")]
        [Component.MElement []
           [Component.MElement [] [Component.MText "{{title}}"];
            Component.MElement [] [Component.MText "{{title}}"]]])].

(** The component built from [oneBinding], and the same component after
    [show()]. *)
Definition builtWorld : Component.World :=
  finalState (Component.constructor noClasses 5 "T" None oneBinding).
Definition shownWorld : Component.World :=
  finalState (Component.show 0 None builtWorld).

(** A component with two observables [a] and [b] whose root (node 1) holds
    [<p>{{a}} and {{b}}</p>] (nodes 2 and 3), before binding discovery. *)
Definition twoTokens : Component.World :=
  let '(b, d) := Dom.create Dom.ELEMENT_NODE [] "" Dom.empty in
  let '(root, d) :=
    Component.buildNode
      (Component.MElement []
         [Component.MElement [] [Component.MText "{{a}} and {{b}}"]]) d in
  Component.mkWorld d b ∅ 0
    {[0 := Component.mk "C"
             {["a" := Component.mkObservable "1" []; "b" := Component.mkObservable "2" []]}
             false None (Some root) ∅ ∅]}
    1 ∅ 0.

(** A parent template and a child template whose script element declares the
    property binding [data-property-caption="{{title}}"]. *)
Definition propertyBinding : Component.World :=
  document
    [("template_Parent",
      Component.mkTemplate [("id", "template_Parent"); ("data-root-tag", "div")]
        [Component.MElement [] []]);
     ("template_Child",
      Component.mkTemplate
        [("id", "template_Child"); ("data-root-tag", "div");
         ("data-property-caption", "{{title}}")]
        [Component.MElement [] []])].

(** [<div data-component="Sub">{{title}}<p>{{title}}</p></div>] in the template
    of [T], and a registered class [Sub] with a template of its own. *)
Definition subComponent : Component.World :=
  document
    [("template_T",
      Component.mkTemplate [("id", "template_T"); ("data-root-tag", "div")]
        [Component.MElement [("data-component", "Sub")]
           [Component.MText "{{title}}";
            Component.MElement [] [Component.MText "{{title}}"]]]);
     ("template_Sub",
      Component.mkTemplate [("id", "template_Sub"); ("data-root-tag", "div")]
        [Component.MElement [] [Component.MText "sub"]])].

(** The same markup parsed under the root (node 1) of a component (object 0)
    with the observable [title], before binding discovery: node 3 is the
    element with [data-component]. *)
Definition subComponentParsed : Component.World :=
  finalState
    ((let* this :=
        Component.newObject
          (Component.mk "T" {["title" := Component.mkObservable "" []]}
                        false None None ∅ ∅) in
      let* root := Component.createElement in
      Component.update this (Component.withRootHtmlElement (Some root));;
      let* parsed :=
        Component.parseBody
          [Component.MElement [("data-component", "Sub")]
             [Component.MText "{{title}}";
              Component.MElement [] [Component.MText "{{title}}"]]] in
      Component.moveChildren 2 parsed root 0) (document [])).

Definition subRegistry : gmap string string := {["Sub" := "Sub"]}.

(** A parent element (node 0) with three children, of which the second
    (node 2) is the Repeater's host element. *)
Definition hostDocument : Dom.t :=
  let '(p, d) := Dom.create Dom.ELEMENT_NODE [] "" Dom.empty in
  let '(a, d) := Dom.create Dom.ELEMENT_NODE [] "" d in
  let '(host, d) := Dom.create Dom.ELEMENT_NODE [] "" d in
  let '(b, d) := Dom.create Dom.ELEMENT_NODE [] "" d in
  Dom.adopt p [a; host; b] (Dom.withChildNodes (<[p := [a; host; b]]>) d).

(** A Repeater that has just been created: its template has two root-level
    nodes, the first with the placeholder [name]; it declares the item event
    [click], and its data context is an observable array of [items]. *)
Definition freshRepeater (parent : option (gset string))
    (tpl : option (list Repeater.TemplateNode)) (items : list Repeater.Item)
  : Repeater.t :=
  Repeater.mk 2 tpl [("data-event-item-click", "onClick")] parent
    (Repeater.ObservableArray items)
    None [] [] [] hostDocument ∅ 0 ∅ ∅ [] [] 0 0 0.

Definition twoNodes : option (list Repeater.TemplateNode) :=
  Some [Repeater.mkTemplateNode 1 ["name"]; Repeater.mkTemplateNode 3 []].

(** The Repeater after [attachedCallback], bound to an empty array, and after
    one and two items were added. *)
Definition emptyRepeater : Repeater.t :=
  finalState
    (Repeater.attachedCallback (freshRepeater (Some {["onClick"]}) twoNodes [])).
Definition oneItemRepeater : Repeater.t :=
  finalState (Repeater.itemAdded (Repeater.mkArgs "x" 0) emptyRepeater).
Definition twoItemRepeater : Repeater.t :=
  finalState (Repeater.itemAdded (Repeater.mkArgs "y" 0) oneItemRepeater).


(** ** Notions used in the statements *)

(** How a run ended, apart from its state. *)
Inductive Outcome :=
| Returned
| Threw (e : Exn)
| TimedOut.

Definition ended {S} (o : Outcome) (s : S) : Res S unit :=
  match o with
  | Returned => Ok tt s
  | Threw e => Throw e s
  | TimedOut => Timeout s
  end.

(** The world [w] with the text of its nodes replaced by [V]. *)
Definition setVals (V : gmap nat string) (w : Component.World) : Component.World :=
  Component.withDom (Dom.withNodeValue (fun _ => V)) w.

(** A sequence of assignments to [nodeValue], applied in order. *)
Definition applyWrites (W : list (nat * string)) (V : gmap nat string)
  : gmap nat string :=
  foldl (fun V '(n, v) => <[n := v]> V) V W.

(** *** The backing array and its events *)







(** *** The state of a populated Repeater *)

(** The template was found and is not empty, and every entry of [itemNodes]
    has one node per root-level node of the template. *)
Definition templated (r : Repeater.t) : Prop :=
  exists tpl, Repeater.template r = Some tpl /\ tpl <> []
    /\ Forall (fun entry => length entry = length tpl) (Repeater.itemNodes r).

(** The host element is a child of [parent], and the nodes of the entries
    follow it among the children of [parent], entry after entry. *)
Definition laidOut (parent : nat) (r : Repeater.t) : Prop :=
  let d := Repeater.dom r in
  Dom.parentNode d !! Repeater.self r = Some parent
  /\ parent < Dom.nextNode d
  /\ NoDup (Dom.kids d parent)
  /\ Forall (fun n => Dom.parentNode d !! n = Some parent /\ n < Dom.nextNode d)
            (Dom.kids d parent)
  /\ exists before after,
       Dom.kids d parent
       = (before ++ Repeater.self r :: concat (Repeater.itemNodes r) ++ after)%list.

(** Index alignment: the entries at index [i] of [itemNodes] and of
    [itemNodeBindings] belong to the data context [cs !! i], which wraps the
    array element at index [i]. *)
Definition alignedWith (cs : list nat) (array : list Repeater.Item)
    (r : Repeater.t) : Prop :=
  Forall2 (fun c x => Repeater.contexts r !! c = Some x) cs array
  /\ Forall (fun c => c < Repeater.nextContext r) cs
  /\ Forall2 (fun c entry =>
                forall n, n ∈ entry -> Repeater.nodeContext r !! n = Some c)
             cs (Repeater.itemNodes r)
  /\ Forall2 (fun c bs => forall b, b ∈ bs -> Repeater.bindingContext b = c)
             cs (Repeater.itemNodeBindings r)
  /\ Forall2 (fun entry bs => forall b, b ∈ bs -> Repeater.bindingNode b ∈ entry)
             (Repeater.itemNodes r) (Repeater.itemNodeBindings r).

Definition aligned (array : list Repeater.Item) (r : Repeater.t) : Prop :=
  exists cs, alignedWith cs array r.

(** The records of the entries are live in the data binder under distinct
    handles, and a live record that patches a node of an entry is a record of
    the entries. *)
Definition bound (r : Repeater.t) : Prop :=
  NoDup (Repeater.bindingHandle <$> Repeater.subscriptions r)
  /\ Forall (fun b => Repeater.bindingHandle b < Repeater.nextHandle r
                      /\ Repeater.bindingNode b < Dom.nextNode (Repeater.dom r))
            (Repeater.subscriptions r)
  /\ (forall b, b ∈ concat (Repeater.itemNodeBindings r) ->
                b ∈ Repeater.subscriptions r)
  /\ (forall b, b ∈ Repeater.subscriptions r ->
                Repeater.bindingNode b ∈ concat (Repeater.itemNodes r) ->
                b ∈ concat (Repeater.itemNodeBindings r)).

Definition populated (array : list Repeater.Item) (r : Repeater.t) : Prop :=
  templated r /\ (exists parent, laidOut parent r) /\ aligned array r /\ bound r.

(** The reference node that [itemAdded] computes, read off the state in which
    the handler starts. *)
Definition refNodeOf (r : Repeater.t) (arg : Repeater.ObservableArrayEventArgs)
  : option nat :=
  let nodes := Repeater.itemNodes r in
  if Nat.eqb (length nodes) 0 then
    Dom.nextSibling (Repeater.dom r) (Repeater.self r)
  else if (Repeater.position arg <? length nodes)%nat then
    match nodes !! Repeater.position arg with
    | Some entry => head entry
    | None => None
    end
  else
    match last nodes with
    | Some entry =>
        match last entry with
        | Some n => Dom.nextSibling (Repeater.dom r) n
        | None => None
        end
    | None => None
    end.

(** An action keeps [P] when every run of it that returns from a world with
    [P] ends in a world with [P]. *)
Definition preserves {A} (P : Component.World -> Prop) (m : M Component.World A)
  : Prop :=
  forall w a w', P w -> m w = Ok a w' -> P w'.

(** An action of the Repeater that, when it throws, throws a [TypeError] or a
    DOM exception, never an [Error] of the code's own. *)
Definition onlyRuntimeErrors {A} (m : M Repeater.t A) : Prop :=
  forall r e r', m r = Throw e r' -> e = TypeError \/ e = NotFoundError.

(** ** Notions used in the further properties *)

(** *** Lists *)

(** The elements at the even positions (0, 2, ...) and at the odd positions of
    a list. *)
Fixpoint evens {A} (l : list A) : list A :=
  match l with
  | [] => []
  | x :: l' => x :: match l' with [] => [] | _ :: l'' => evens l'' end
  end.
Definition odds {A} (l : list A) : list A :=
  match l with [] => [] | _ :: l' => evens l' end.

(** *** Runs *)

(** An action keeps [P] when every run of it from a state with [P] ends in a
    state with [P], whether it returns, throws or runs out of fuel. *)
Definition keeps {St A} (P : St -> Prop) (m : M St A) : Prop :=
  forall s, P s -> P (finalState (m s)).

(** *** Binding discovery *)

(** The text of [n] holds a placeholder. *)
Definition hasBinding (d : Dom.t) (n : nat) : bool :=
  match Js.matchBindings (Dom.valueOf d n) with
  | [] => false
  | _ => true
  end.

(** The placeholders of the given text nodes, in the order in which the scan
    meets them. *)
Definition placeholdersOf (d : Dom.t) (textNodes : list nat) : list string :=
  concat (map (fun n => Js.matchBindings (Dom.valueOf d n)) textNodes).

(** The component [c] after the placeholder [m] of a text node was
    registered: the record is pushed on [textBindings[path]] and its callback
    is subscribed to the observable [o] found at [this[path]]. *)
Definition registered (this pathVar bindingId i : nat) (nodeValue m : string)
    (c : Component.t) (o : Component.Observable) : Component.t :=
  let path := Js.pathOf m in
  Component.withTextBindings
    (<[path := (default [] (Component.textBindings c !! path)
                ++ [Component.mkTextBinding bindingId i path nodeValue
                      (Component.TextCallback this pathVar)])%list]>)
    (Component.withFields
       (<[path := Component.mkObservable (Component.value o)
                    (Component.onValueChanged o
                     ++ [Component.TextCallback this pathVar])%list]>) c).

(** The binding id of the element under scan, and the world in which the
    scan goes on: an element that has no id yet ([None] for [-1]) takes the
    counter's value, the counter is incremented and the element's [id]
    attribute is set. *)
Definition assignId (rootElement : nat) (bindingId : option nat)
    (w : Component.World) : nat * Component.World :=
  match bindingId with
  | Some b => (b, w)
  | None =>
      (Component.bindingIdCounter w,
       Component.withDom
         (Dom.setAttribute rootElement "id"
            ("BindingElement" ++ pretty (Component.bindingIdCounter w)))
         (Component.withCounter S w))
  end.

(** Every [id] of the form [BindingElement<k>] in the document was issued by
    the counter ([k] is below its value) and belongs to one element only. *)
Definition bindingIds (w : Component.World) : Prop :=
  (forall n k : nat,
     Dom.getAttribute (Component.dom w) n "id"
     = Some ("BindingElement" ++ pretty k) ->
     k < Component.bindingIdCounter w)
  /\ (forall n n' k : nat,
        Dom.getAttribute (Component.dom w) n "id"
        = Some ("BindingElement" ++ pretty k) ->
        Dom.getAttribute (Component.dom w) n' "id"
        = Some ("BindingElement" ++ pretty k) ->
        n = n').

(** The markup of a template gives no element an [id] that starts with
    [BindingElement]. *)
Definition cleanAttrs (attrs : list (string * string)) : bool :=
  match Dom.assoc "id" attrs with
  | Some v => negb (String.prefix "BindingElement" v)
  | None => true
  end.
Fixpoint cleanMarkup (m : Component.Markup) : bool :=
  match m with
  | Component.MElement attrs children =>
      cleanAttrs attrs && forallb cleanMarkup children
  | _ => true
  end.
Definition cleanTemplates (w : Component.World) : bool :=
  forallb (fun '(_, t) => forallb cleanMarkup (Component.innerHTML t))
          (map_to_list (Component.templates w)).

(** *** Further documents used as concrete inputs *)

(** A root element (node 1) and a parsed body (node 2) with the three nodes
    3, 4 and 5, before the constructor's loop moves them. *)
Definition parsedThree : Component.World :=
  finalState
    ((let* root := Component.createElement in
      Component.parseBody
        [Component.MElement [] []; Component.MText "x"; Component.MElement [] []])
       (document [])).

(** A template with three root-level nodes. *)
Definition threeRoots : Component.World :=
  document
    [("template_T",
      Component.mkTemplate [("id", "template_T"); ("data-root-tag", "div")]
        [Component.MElement [] []; Component.MText "x"; Component.MElement [] []])].

(** The component built from [oneBinding], and a placeholder element (node 6)
    under the body for it to replace. *)
Definition placeholderWorld : Component.World :=
  finalState
    ((let* r := Component.createElement in
      Component.domCall (Dom.appendChild 0 r)) builtWorld).

(** A component (object 0) with the observables [a] and [b], whose root
    (node 1) holds [<p>{{a}}<br>{{b}}</p>]: the [<p>] is node 2 and its text
    nodes are 3 and 5. *)
Definition twoTextNodes : Component.World :=
  let '(b, d) := Dom.create Dom.ELEMENT_NODE [] "" Dom.empty in
  let '(root, d) :=
    Component.buildNode
      (Component.MElement []
         [Component.MElement []
            [Component.MText "{{a}}"; Component.MElement [] [];
             Component.MText "{{b}}"]]) d in
  Component.mkWorld d b ∅ 0
    {[0 := Component.mk "C"
             {["a" := Component.mkObservable "1" []; "b" := Component.mkObservable "2" []]}
             false None (Some root) ∅ ∅]}
    1 ∅ 0.

(** The same component with [<p>{{nope}}</p>] under its root: the text (node
    3) names a property that the component does not have. *)
Definition unknownPath : Component.World :=
  let '(b, d) := Dom.create Dom.ELEMENT_NODE [] "" Dom.empty in
  let '(root, d) :=
    Component.buildNode
      (Component.MElement []
         [Component.MElement [] [Component.MText "{{nope}}"]]) d in
  Component.mkWorld d b ∅ 0
    {[0 := Component.mk "C"
             {["a" := Component.mkObservable "1" []; "b" := Component.mkObservable "2" []]}
             false None (Some root) ∅ ∅]}
    1 ∅ 0.

(** The same component with [<p>{{toString}}</p>] under its root: the text
    names a member that every object inherits. *)
Definition inheritedName : Component.World :=
  let '(b, d) := Dom.create Dom.ELEMENT_NODE [] "" Dom.empty in
  let '(root, d) :=
    Component.buildNode
      (Component.MElement []
         [Component.MElement [] [Component.MText "{{toString}}"]]) d in
  Component.mkWorld d b ∅ 0
    {[0 := Component.mk "C"
             {["a" := Component.mkObservable "1" []; "b" := Component.mkObservable "2" []]}
             false None (Some root) ∅ ∅]}
    1 ∅ 0.

(** The component built from [twoBindings], with the value of [title]
    replaced by ["new"] and no subscriber run yet. *)
Definition retitledWorld : Component.World :=
  finalState ((Component.constructor noClasses 5 "T" None;;
               assign 0 "title" "new") twoBindings).

(** Every binding id that an element has in [d'] it has in [d]. *)
Definition idsFrom (d d' : Dom.t) : Prop :=
  forall n k : nat,
    Dom.getAttribute d' n "id" = Some ("BindingElement" ++ pretty k) ->
    Dom.getAttribute d n "id" = Some ("BindingElement" ++ pretty k).

(** The binding ids are as [bindingIds] has them, and no template brings an
    id of that form with it. *)
Definition identified (w : Component.World) : Prop :=
  bindingIds w /\ cleanTemplates w = true.

(** The inner function of [buildNode], by its name. *)
Definition buildAll : list Component.Markup -> Dom.t -> list nat * Dom.t :=
  fix buildAll (ms : list Component.Markup) (d : Dom.t) : list nat * Dom.t :=
    match ms with
    | [] => ([], d)
    | m :: ms' =>
        let '(k, d') := Component.buildNode m d in
        let '(ks, d'') := buildAll ms' d' in
        (k :: ks, d'')
    end.



(** The listeners that [applyRepeaterEvents] adds to the nodes [ns] of one
    clone: one per declared item event and node, for the data context [c]. *)
Definition itemListeners (callbacks : list (string * string)) (c : nat)
    (ns : list nat) : list (nat * string * nat) :=
  flat_map (fun n => map (fun '(eventName, _) => (n, eventName, c)) callbacks) ns.

(** The Repeater [r] after [dataContext.value] was set to [v]. *)
Definition rebound (v : Repeater.DataValue) (r : Repeater.t) : Repeater.t :=
  Repeater.mk (Repeater.self r) (Repeater.templateElement r)
    (Repeater.hostAttributes r) (Repeater.parentComponent r) v
    (Repeater.template r) (Repeater.itemNodes r) (Repeater.itemNodeBindings r)
    (Repeater.itemEventCallbacks r) (Repeater.dom r) (Repeater.contexts r)
    (Repeater.nextContext r) (Repeater.nodeContext r)
    (Repeater.nodePlaceholders r) (Repeater.listeners r)
    (Repeater.subscriptions r) (Repeater.nextHandle r)
    (Repeater.dataContextHandlers r) (Repeater.arrayHandlers r).

(** A Repeater that has just been created, about to be attached with the
    array [a; b] as its data context. *)
Definition createdRepeater : Repeater.t :=
  freshRepeater (Some {["onClick"]}) twoNodes ["a"; "b"].

(** * Properties *)

Example matchBindings_two :
  Js.matchBindings "{{a}} and {{b}}" = ["{{a}}"; "{{b}}"].
Proof. reflexivity. Qed.

Example matchBindings_braces :
  Js.matchBindings "{{{a.b_1}}} {{}} {{x y}}" = ["{{a.b_1}}"].
Proof. reflexivity. Qed.

Example replace_first_only :
  Js.replace "{{a}}" "v" "{{a}} {{a}}" = "v {{a}}".
Proof. reflexivity. Qed.

Example replace_dollar :
  Js.replace "{{a}}" "<$&>" "x{{a}}y" = "x<{{a}}>y".
Proof. reflexivity. Qed.

(** ** General facts about the monad *)

Lemma bind_Ok {S A B} (m : M S A) (k : A -> M S B) s b s' :
  bind m k s = Ok b s' -> exists a s1, m s = Ok a s1 /\ k a s1 = Ok b s'.
Proof.
  unfold bind. destruct (m s) as [a s1|e s1|s1]; try discriminate. eauto.
Qed.

Lemma finalState_ended {S} (o : Outcome) (s : S) : finalState (ended o s) = s.
Proof. by destruct o. Qed.

(** ** show and hide *)

Import Component.

Lemma show_when_showing this replaceElement w c :
  objects w !! this = Some c -> _isShowing c = true ->
  show this replaceElement w = Ok tt w.
Proof.
  intros Hc Hs. unfold show, bind, object. rewrite Hc. by rewrite Hs.
Qed.

Lemma hide_when_hidden this w c :
  objects w !! this = Some c -> _isShowing c = false ->
  hide this w = Ok tt w.
Proof.
  intros Hc Hs. unfold hide, bind, object. rewrite Hc. by rewrite Hs.
Qed.

Lemma update_Ok this f w u w' :
  update this f w = Ok u w' ->
  objects w' !! this = f <$> (objects w !! this).
Proof.
  unfold update, modify. intros [= <- <-]. cbn.
  destruct (objects w !! this) as [c|] eqn:E; cbn.
  - by rewrite lookup_insert_eq.
  - done.
Qed.

Lemma update_Ok_some this f w u w' c :
  update this f w = Ok u w' -> objects w !! this = Some c ->
  objects w' !! this = Some (f c).
Proof. intros H E. apply update_Ok in H. by rewrite H, E. Qed.

Lemma domCall_objects f w u w' :
  domCall f w = Ok u w' -> objects w' = objects w.
Proof.
  unfold domCall. destruct (f (dom w)); intros [= <- <-]; done.
Qed.

Lemma object_Ok this w c w' :
  object this w = Ok c w' -> w' = w /\ objects w !! this = Some c.
Proof.
  unfold object. destruct (objects w !! this); [|done]. by intros [= <- <-].
Qed.

Lemma deref_Ok {A} (x : option A) w a w' :
  deref x w = Ok a w' -> w' = w /\ x = Some a.
Proof. destruct x; [|done]. by intros [= <- <-]. Qed.

Lemma gets_Ok {S A} (f : S -> A) s a s' :
  gets f s = Ok a s' -> s' = s /\ a = f s.
Proof. by intros [= <- <-]. Qed.

Lemma ret_Ok {S A} (x : A) (s : S) a s' :
  ret x s = Ok a s' -> s' = s /\ a = x.
Proof. by intros [= <- <-]. Qed.

(** Peel the first action off a successful run. *)
(** Closed statements about concrete runs are settled by evaluation. *)
Ltac evaluate :=
  intros;
  repeat lazymatch goal with |- _ /\ _ => split end;
  vm_compute; reflexivity.

Tactic Notation "peel" hyp(H) "as" ident(H0) :=
  apply bind_Ok in H as (? & ? & H0 & H);
  lazymatch type of H0 with
  | object _ _ = _ => apply object_Ok in H0 as [-> H0]
  | deref _ _ = _ => apply deref_Ok in H0 as [-> H0]
  | gets _ _ = _ => apply gets_Ok in H0 as [-> ->]
  | ret _ _ = _ => apply ret_Ok in H0 as [-> ->]
  | _ => idtac
  end.

Lemma show_sets_showing this replaceElement w w' :
  show this replaceElement w = Ok tt w' ->
  exists c', objects w' !! this = Some c' /\ _isShowing c' = true.
Proof.
  unfold show. intros H. peel H as Hc.
  destruct (_isShowing _) eqn:Es.
  { apply ret_Ok in H as [-> _]. eauto. }
  peel H as Hap.
  assert (x1 = w) as ->.
  { destruct (parentComponent x).
    - peel Hap as Hp. by apply ret_Ok in Hap as [-> _].
    - peel Hap as Hb. by apply ret_Ok in Hap as [-> _]. }
  peel H as Hmid. destruct x1.
  assert (exists c3, objects x2 !! this = Some c3) as [c3 Hc3].
  { destruct replaceElement as [r|].
    - peel Hmid as H1. peel Hmid as H2. peel Hmid as H3. peel Hmid as H4.
      apply domCall_objects in H4.
      peel Hmid as H5. eapply update_Ok_some in H5; [|by rewrite H4].
      peel Hmid as H6. peel Hmid as H7. apply domCall_objects in Hmid.
      rewrite Hmid. eauto.
    - peel Hmid as H1. peel Hmid as H2. peel Hmid as H3.
      apply domCall_objects in H3.
      eapply update_Ok_some in Hmid; [|by rewrite H3]. eauto. }
  eapply update_Ok_some in H; [|done]. eauto.
Qed.

Lemma hide_clears_showing this w w' :
  hide this w = Ok tt w' ->
  exists c', objects w' !! this = Some c' /\ _isShowing c' = false.
Proof.
  unfold hide. intros H. peel H as Hc.
  destruct (_isShowing _) eqn:Es; cbn in H.
  2:{ apply ret_Ok in H as [-> _]. eauto. }
  peel H as H1. peel H as H2. peel H as H3. peel H as H4.
  apply domCall_objects in H4.
  peel H as H5. eapply update_Ok_some in H5; [|by rewrite H4].
  eapply update_Ok_some in H; [|done]. eauto.
Qed.

(** C10: [show] on a component that is showing and [hide] on one that is not
    return at once and leave the whole world (the DOM, [rootHtmlElement] and
    the [_isShowing] flag) as it was; hence a second [show] after a [show],
    and a second [hide] after a [hide], change nothing. *)
Theorem show_hide_idempotent (this : nat) (w : World) (c : Component.t) :
  objects w !! this = Some c ->
  (_isShowing c = true -> forall r, show this r w = Ok tt w) /\
  (_isShowing c = false -> hide this w = Ok tt w) /\
  (forall r w', show this r w = Ok tt w' -> forall r', show this r' w' = Ok tt w') /\
  (forall w', hide this w = Ok tt w' -> hide this w' = Ok tt w').
Proof.
  intros Hc. repeat split.
  - intros Hs r. by eapply show_when_showing.
  - intros Hs. by eapply hide_when_hidden.
  - intros r w' H r'. apply show_sets_showing in H as (c' & Hc' & Hs).
    by eapply show_when_showing.
  - intros w' H. apply hide_clears_showing in H as (c' & Hc' & Hs).
    by eapply hide_when_hidden.
Qed.

Lemma show_hide_idempotent_witness :
  show 0 None shownWorld = Ok tt shownWorld
  /\ hide 0 builtWorld = Ok tt builtWorld.
Proof.
  split.
  - refine (proj1 (show_hide_idempotent 0 shownWorld
                     (default (mk "" ∅ false None None ∅ ∅)
                              (objects shownWorld !! 0)) _) _ None);
      vm_compute; reflexivity.
  - refine (proj1 (proj2 (show_hide_idempotent 0 builtWorld
                     (default (mk "" ∅ false None None ∅ ∅)
                              (objects builtWorld !! 0)) _)) _);
      vm_compute; reflexivity.
Defined.

(** [show] does insert the root under the body when the component is not yet
    showing, so the no-op above is the guard at work. *)
Example show_inserts_root :
  show 0 None builtWorld = Ok tt shownWorld
  /\ Dom.kids (dom builtWorld) 0 = []
  /\ Dom.kids (dom shownWorld) 0 = [1]
  /\ (_isShowing <$> objects shownWorld !! 0) = Some true
  /\ hide 0 shownWorld = Ok tt builtWorld.
Proof. evaluate. Qed.

(** ** Resolution of text bindings *)

(** Reads of the structure of the document do not depend on the text of its
    nodes. *)
Lemma findById_withNodeValue steps d f id todo :
  Dom.findById steps (Dom.withNodeValue f d) id todo = Dom.findById steps d id todo.
Proof.
  revert todo. induction steps as [|steps IH]; intros todo; [done|].
  destruct todo as [|n rest]; [done|]. cbn. rewrite IH. done.
Qed.

Lemma querySelectorId_setVals V w root id :
  Dom.querySelectorId (dom (setVals V w)) root id
  = Dom.querySelectorId (dom w) root id.
Proof. unfold Dom.querySelectorId. cbn. apply findById_withNodeValue. Qed.

Lemma setVals_self w : setVals (Dom.nodeValue (dom w)) w = w.
Proof. by destruct w as [[] ? ? ? ? ? ? ?]. Qed.

Lemma setVals_setVals V V' w : setVals V (setVals V' w) = setVals V w.
Proof. done. Qed.

Lemma applyWrites_app W1 W2 V :
  applyWrites (W1 ++ W2)%list V = applyWrites W2 (applyWrites W1 V).
Proof. apply foldl_app. Qed.

Lemma applyWrites_cons n v W V :
  applyWrites ((n, v) :: W) V = applyWrites W (<[n := v]> V).
Proof. done. Qed.

(** A key is either never written, or its final value is fixed by the
    sequence of writes. *)
Lemma applyWrites_lookup W k :
  (forall V, applyWrites W V !! k = V !! k)
  \/ (exists v, forall V, applyWrites W V !! k = Some v).
Proof.
  induction W as [|[n v] W IH]; [by left|].
  destruct IH as [IH|[v0 IH]].
  - destruct (decide (n = k)) as [->|Hne].
    + right. exists v. intros V. rewrite applyWrites_cons, IH.
      apply lookup_insert_eq.
    + left. intros V. rewrite applyWrites_cons, IH. by apply lookup_insert_ne.
  - right. exists v0. intros V. rewrite applyWrites_cons. apply IH.
Qed.

Lemma applyWrites_idempotent W V :
  applyWrites W (applyWrites W V) = applyWrites W V.
Proof.
  apply map_eq. intros k.
  destruct (applyWrites_lookup W k) as [H|[v H]].
  - apply H.
  - by rewrite !H.
Qed.

(** [resolveBindingText] reads the observables only and leaves the world as
    it is. *)
Lemma resolveMatches_pure this matches text w :
  exists o : option string, forall V,
    resolveMatches this matches text (setVals V w)
    = match o with
      | Some s => Ok s (setVals V w)
      | None => Throw TypeError (setVals V w)
      end.
Proof.
  revert text. induction matches as [|m rest IH]; intros text.
  - by exists (Some text).
  - cbn. unfold bind, object. cbn.
    destruct (objects w !! this) as [c|]; [|by exists None].
    cbn. destruct (fields c !! _) as [o|]; [|by exists None].
    cbn. apply IH.
Qed.

Lemma resolveBindingText_pure this text w :
  exists o : option string, forall V,
    resolveBindingText this text (setVals V w)
    = match o with
      | Some s => Ok s (setVals V w)
      | None => Throw TypeError (setVals V w)
      end.
Proof.
  unfold resolveBindingText. destruct (Js.matchBindings text) as [|m ms].
  - by exists None.
  - apply resolveMatches_pure.
Qed.

(** The inner loop is a sequence of writes to [nodeValue] that is fixed by
    the structure of the document, the binding and the observables. *)
Lemma patchTextNodes_cons this binding child rest idx w :
  patchTextNodes this binding (child :: rest) idx w
  = if Dom.isText (dom w) child then
      if Nat.eqb idx (textNodeIndex binding) then
        match resolveBindingText this (bindingText binding) w with
        | Ok v w1 =>
            patchTextNodes this binding rest (S idx)
                           (withDom (Dom.setValue child v) w1)
        | Throw e w1 => Throw e w1
        | Timeout w1 => Timeout w1
        end
      else patchTextNodes this binding rest (S idx) w
    else patchTextNodes this binding rest idx w.
Proof.
  cbn [patchTextNodes]. unfold bind at 1, gets.
  destruct (Dom.isText (dom w) child); [|done].
  destruct (Nat.eqb idx (textNodeIndex binding)); [|done].
  unfold bind. by destruct (resolveBindingText _ _ _).
Qed.

Lemma patchTextNodes_writes this binding children idx w :
  exists W o, forall V,
    patchTextNodes this binding children idx (setVals V w)
    = ended o (setVals (applyWrites W V) w).
Proof.
  revert idx. induction children as [|child rest IH]; intros idx.
  - by exists [], Returned.
  - destruct (Dom.isText (dom w) child) eqn:Et.
    + destruct (Nat.eqb idx (textNodeIndex binding)) eqn:Ei.
      * destruct (resolveBindingText_pure this (bindingText binding) w)
          as [[v|] Hv].
        -- destruct (IH (S idx)) as (W & o & HW).
           exists ((child, v) :: W), o. intros V.
           rewrite patchTextNodes_cons, Hv, Ei.
           change (Dom.isText (dom (setVals V w)) child)
             with (Dom.isText (dom w) child).
           rewrite Et. apply (HW (<[child := v]> V)).
        -- exists [], (Threw TypeError). intros V.
           rewrite patchTextNodes_cons, Hv, Ei.
           change (Dom.isText (dom (setVals V w)) child)
             with (Dom.isText (dom w) child).
           by rewrite Et.
      * destruct (IH (S idx)) as (W & o & HW).
        exists W, o. intros V. rewrite patchTextNodes_cons, Ei.
        change (Dom.isText (dom (setVals V w)) child)
          with (Dom.isText (dom w) child).
        rewrite Et. apply HW.
    + destruct (IH idx) as (W & o & HW). exists W, o. intros V.
      rewrite patchTextNodes_cons.
      change (Dom.isText (dom (setVals V w)) child)
        with (Dom.isText (dom w) child).
      rewrite Et. apply HW.
Qed.

(** One turn of the outer loop, with the monad unfolded. *)
Lemma triggerLoop_S fuel this bindings i w :
  triggerLoop (S fuel) this bindings i w
  = if (i <? length bindings)%nat then
      match bindings !! i with
      | None => Throw TypeError w
      | Some binding =>
          match objects w !! this with
          | None => Throw TypeError w
          | Some c =>
              match rootHtmlElement c with
              | None => Throw TypeError w
              | Some root =>
                  match Dom.querySelectorId (dom w) root
                          ("BindingElement" ++ pretty (elementBindingId binding))
                  with
                  | None => Throw TypeError w
                  | Some el =>
                      match patchTextNodes this binding (Dom.kids (dom w) el) 0 w
                      with
                      | Ok _ w1 =>
                          triggerLoop fuel this bindings
                                      (S (length (Dom.kids (dom w) el))) w1
                      | Throw e w1 => Throw e w1
                      | Timeout w1 => Timeout w1
                      end
                  end
              end
          end
      end
    else Ok tt w.
Proof.
  cbn [triggerLoop]. destruct (i <? length bindings)%nat; [|done].
  unfold bind at 1. destruct (bindings !! i) as [binding|]; [|done].
  cbn [deref ret]. unfold bind at 1, object.
  destruct (objects w !! this) as [c|]; [|done].
  unfold bind at 1. destruct (rootHtmlElement c) as [root|]; [|done].
  cbn [deref ret]. unfold bind at 1, gets. unfold bind at 1.
  destruct (Dom.querySelectorId _ _ _) as [el|]; [|done].
  cbn [deref ret]. unfold bind at 1, gets. unfold bind at 1.
  by destruct (patchTextNodes _ _ _ _ _).
Qed.

Lemma triggerLoop_writes fuel this bindings i w :
  exists W o, forall V,
    triggerLoop fuel this bindings i (setVals V w)
    = ended o (setVals (applyWrites W V) w).
Proof.
  revert i. induction fuel as [|fuel IH]; intros i.
  - by exists [], TimedOut.
  - destruct (i <? length bindings)%nat eqn:Ei.
    2:{ exists [], Returned. intros V. by rewrite triggerLoop_S, Ei. }
    destruct (bindings !! i) as [binding|] eqn:Eb.
    2:{ exists [], (Threw TypeError). intros V. by rewrite triggerLoop_S, Ei, Eb. }
    destruct (objects w !! this) as [c|] eqn:Ec.
    2:{ exists [], (Threw TypeError). intros V. rewrite triggerLoop_S, Ei, Eb.
        change (objects (setVals V w)) with (objects w). by rewrite Ec. }
    destruct (rootHtmlElement c) as [root|] eqn:Er.
    2:{ exists [], (Threw TypeError). intros V. rewrite triggerLoop_S, Ei, Eb.
        change (objects (setVals V w)) with (objects w). by rewrite Ec, Er. }
    destruct (Dom.querySelectorId (dom w) root
                ("BindingElement" ++ pretty (elementBindingId binding)))
      as [el|] eqn:Eq.
    2:{ exists [], (Threw TypeError). intros V. rewrite triggerLoop_S, Ei, Eb.
        change (objects (setVals V w)) with (objects w).
        by rewrite Ec, Er, querySelectorId_setVals, Eq. }
    destruct (patchTextNodes_writes this binding (Dom.kids (dom w) el) 0 w)
      as (W1 & o1 & H1).
    assert (Hstep : forall V,
      triggerLoop (S fuel) this bindings i (setVals V w)
      = match ended o1 (setVals (applyWrites W1 V) w) with
        | Ok _ w1 =>
            triggerLoop fuel this bindings (S (length (Dom.kids (dom w) el))) w1
        | Throw e w1 => Throw e w1
        | Timeout w1 => Timeout w1
        end).
    { intros V. rewrite triggerLoop_S, Ei, Eb.
      change (objects (setVals V w)) with (objects w).
      rewrite Ec, Er, querySelectorId_setVals, Eq.
      change (Dom.kids (dom (setVals V w)) el) with (Dom.kids (dom w) el).
      by rewrite H1. }
    destruct o1.
    + destruct (IH (S (length (Dom.kids (dom w) el)))) as (W2 & o2 & H2).
      exists (W1 ++ W2)%list, o2. intros V.
      rewrite Hstep. cbn. by rewrite H2, applyWrites_app.
    + exists W1, (Threw e). intros V. by rewrite Hstep.
    + exists W1, TimedOut. intros V. by rewrite Hstep.
Qed.

Lemma triggerBindingUpdate_unfold fuel this path w :
  triggerBindingUpdate fuel this path w
  = match objects w !! this with
    | None => Throw TypeError w
    | Some c =>
        match textBindings c !! path with
        | None => Throw TypeError w
        | Some bindings => triggerLoop fuel this bindings 0 w
        end
    end.
Proof.
  unfold triggerBindingUpdate, bind at 1, object.
  destruct (objects w !! this) as [c|]; [|done].
  unfold bind. by destruct (textBindings c !! path).
Qed.

Lemma triggerBindingUpdate_writes fuel this path w :
  exists W o, forall V,
    triggerBindingUpdate fuel this path (setVals V w)
    = ended o (setVals (applyWrites W V) w).
Proof.
  destruct (objects w !! this) as [c|] eqn:Ec.
  2:{ exists [], (Threw TypeError). intros V. rewrite triggerBindingUpdate_unfold.
      change (objects (setVals V w)) with (objects w). by rewrite Ec. }
  destruct (textBindings c !! path) as [bindings|] eqn:Eb.
  2:{ exists [], (Threw TypeError). intros V. rewrite triggerBindingUpdate_unfold.
      change (objects (setVals V w)) with (objects w). by rewrite Ec, Eb. }
  destruct (triggerLoop_writes fuel this bindings 0 w) as (W & o & H).
  exists W, o. intros V. rewrite triggerBindingUpdate_unfold.
  change (objects (setVals V w)) with (objects w). by rewrite Ec, Eb.
Qed.

(** C9: resolving a path a second time, with no change to the observables in
    between, ends exactly as the first resolution did, in the same world:
    every text node has the content the first pass gave it.  This covers the
    runs that return, and also those that throw or exhaust the fuel. *)
Theorem triggerBindingUpdate_idempotent (fuel this : nat) (path : string) (w : World) :
  triggerBindingUpdate fuel this path
    (finalState (triggerBindingUpdate fuel this path w))
  = triggerBindingUpdate fuel this path w.
Proof.
  destruct (triggerBindingUpdate_writes fuel this path w) as (W & o & H).
  pose proof (H (Dom.nodeValue (dom w))) as H0. rewrite setVals_self in H0.
  by rewrite H0, finalState_ended, H, applyWrites_idempotent.
Qed.

(** C5, as the code has it: when the loop reaches a record whose owner
    element is not found under the component's root, the [null] result of
    [querySelector] is dereferenced: the resolution stops there with a
    [TypeError], in the world as it was when the record was reached, so the
    record patches nothing; in particular a missing owner of the first record
    makes the whole resolution of the path throw. *)
Theorem triggerBindingUpdate_stale_owner
    (fuel this : nat) (path : string) (w : World) (c : Component.t) (root : nat)
    (bindings : list TextBindingInfo) (i : nat) (binding : TextBindingInfo) :
  objects w !! this = Some c ->
  rootHtmlElement c = Some root ->
  bindings !! i = Some binding ->
  Dom.querySelectorId (dom w) root
    ("BindingElement" ++ pretty (elementBindingId binding)) = None ->
  triggerLoop (S fuel) this bindings i w = Throw TypeError w
  /\ (textBindings c !! path = Some bindings -> i = 0 ->
      triggerBindingUpdate (S fuel) this path w = Throw TypeError w).
Proof.
  intros Hc Hr Hb Hq.
  assert (Hloop : triggerLoop (S fuel) this bindings i w = Throw TypeError w).
  { rewrite triggerLoop_S, Hb, Hc, Hr, Hq.
    apply lookup_lt_Some in Hb. apply Nat.ltb_lt in Hb. by rewrite Hb. }
  split; [done|]. intros Ht ->.
  by rewrite triggerBindingUpdate_unfold, Hc, Ht.
Qed.

(** C5, a counterexample to the claim as stated: the owner of the only record
    of [title] has left the component's DOM, and resolving [title] throws. *)
Lemma stale_owner_is_an_error :
  (objects staleWorld !! 0 ≫= fun c => textBindings c !! "title")
  = Some [mkTextBinding 0 0 "title" "{{title}}" (TextCallback 0 3)]
  /\ (objects staleWorld !! 0 ≫= rootHtmlElement) = Some 1
  /\ Dom.querySelectorId (dom staleWorld) 1 "BindingElement0" = None
  /\ triggerBindingUpdate 5 0 "title" staleWorld = Throw TypeError staleWorld
  /\ triggerBindingUpdate 5 0 "title" staleWorld <> Ok tt staleWorld.
Proof.
  assert (H : triggerBindingUpdate 5 0 "title" staleWorld
              = Throw TypeError staleWorld) by (vm_compute; reflexivity).
  repeat lazymatch goal with |- _ /\ _ => split end;
    try (vm_compute; reflexivity).
  by rewrite H.
Qed.

Lemma triggerBindingUpdate_stale_owner_witness :
  triggerLoop 5 0 [mkTextBinding 0 0 "title" "{{title}}" (TextCallback 0 3)] 0
              staleWorld
  = Throw TypeError staleWorld.
Proof.
  refine (proj1 (triggerBindingUpdate_stale_owner 4 0 "title" staleWorld
                   (default (mk "" ∅ false None None ∅ ∅) (objects staleWorld !! 0))
                   1 _ 0 _ _ _ _ _)).
  - vm_compute. reflexivity.
  - vm_compute. reflexivity.
  - reflexivity.
  - vm_compute. reflexivity.
Defined.

(** C4, the failing input: two elements bound to [title].  With the value of
    [title] replaced by ["new"], [triggerBindingUpdate("title")] returns with
    the text under the first element (node 5) resolved again and the text
    under the second (node 7) as it was rendered at construction: the inner
    loop leaves the shared [i] at 1, the outer [i++] makes it 2, and the
    second record is never visited.  The same holds when the resolution is
    started by the change notification of the observable. *)
Theorem triggerBindingUpdate_skips_second_record :
  let w := finalState ((constructor noClasses 5 "T" None;;
                        assign 0 "title" "new") twoBindings) in
  let r := triggerBindingUpdate 5 0 "title" w in
  (objects w !! 0 ≫= fun c => textBindings c !! "title")
  = Some [mkTextBinding 0 0 "title" "{{title}}" (TextCallback 0 3);
          mkTextBinding 1 0 "title" "{{title}}" (TextCallback 0 4)]
  /\ Dom.querySelectorId (dom w) 1 "BindingElement0" = Some 4
  /\ Dom.querySelectorId (dom w) 1 "BindingElement1" = Some 6
  /\ Dom.kids (dom w) 4 = [5] /\ Dom.kids (dom w) 6 = [7]
  /\ r = Ok tt (finalState r)
  /\ Dom.valueOf (dom (finalState r)) 5 = "new"
  /\ Dom.valueOf (dom (finalState r)) 7 = ""
  /\ (constructor noClasses 5 "T" None;; setValue 5 0 "title" "new") twoBindings
     = Ok tt (finalState r).
Proof. evaluate. Qed.

(** With one record per path the resolution does what the claim says: the
    text node templated as [{{a}} and {{b}}] is rendered again in full when
    either observable changes. *)
Example multi_token_text_is_rendered_in_full :
  let w1 := finalState (processElements noClasses 5 0 1 twoTokens) in
  let w2 := finalState (setValue 5 0 "a" "x" w1) in
  let w3 := finalState (setValue 5 0 "b" "y" w2) in
  Dom.valueOf (dom w1) 3 = "1 and 2"
  /\ setValue 5 0 "a" "x" w1 = Ok tt w2 /\ Dom.valueOf (dom w2) 3 = "x and 2"
  /\ setValue 5 0 "b" "y" w2 = Ok tt w3 /\ Dom.valueOf (dom w3) 3 = "x and y".
Proof. evaluate. Qed.

(** ** The constructor: property bindings *)

(** C7, the failing input: a child template that declares
    [data-property-caption="{{title}}"], built under a parent that has the
    observable [title].  The constructor subscribes the callback to the
    parent's observable and then throws a [TypeError]: it has initialised
    [textBindings[bindingPath]] where [propertyBindings[bindingPath]] was
    meant, so [this.propertyBindings[bindingPath]] is [undefined] when the
    record is pushed.  No property binding record is stored and no component
    is returned. *)
Theorem constructor_property_binding_throws :
  let r := (let* parent := constructor noClasses 5 "Parent" None in
            constructor noClasses 5 "Child" (Some parent)) propertyBinding in
  r = Throw TypeError (finalState r)
  /\ (objects (finalState r) !! 0 ≫= fun c => fields c !! "title")
     = Some (mkObservable "" [PropertyCallback 1 3])
  /\ (propertyBindings <$> objects (finalState r) !! 1) = Some ∅
  /\ (textBindings <$> objects (finalState r) !! 1) = Some {["title" := []]}.
Proof. evaluate. Qed.

(** ** Binding discovery and the subcomponent boundary *)

Section Preservation.

Variable P : World -> Prop.

Lemma preserves_ret {A} (a : A) : preserves P (ret a).
Proof. by intros w a' w' HP [= _ <-]. Qed.

Lemma preserves_throw {A} e : preserves P (throw e : M World A).
Proof. by intros w a' w' HP. Qed.

Lemma preserves_gets {A} (f : World -> A) : preserves P (gets f).
Proof. by intros w a' w' HP [= _ <-]. Qed.

Lemma preserves_deref {A} (x : option A) : preserves P (deref x).
Proof. destruct x; [apply preserves_ret | apply preserves_throw]. Qed.

Lemma preserves_object this : preserves P (object this).
Proof. intros w a w' HP H. by apply object_Ok in H as [-> _]. Qed.

Lemma preserves_bind {A B} (m : M World A) (k : A -> M World B) :
  preserves P m -> (forall a, preserves P (k a)) -> preserves P (bind m k).
Proof.
  intros Hm Hk w b w' HP H. apply bind_Ok in H as (a & w1 & H1 & H2).
  eapply Hk; [|done]. by eapply Hm.
Qed.

Lemma preserves_modify (f : World -> World) :
  (forall w, P w -> P (f w)) -> preserves P (modify f).
Proof. intros Hf w a w' HP [= _ <-]. by apply Hf. Qed.

End Preservation.

Lemma assoc_assocSet_ne k k' v l :
  k <> k' -> Dom.assoc k (Dom.assocSet k' v l) = Dom.assoc k l.
Proof.
  intros Hne. induction l as [|[k0 v0] l IH]; cbn.
  - by rewrite (proj2 (String.eqb_neq k k')).
  - destruct (String.eqb k' k0) eqn:E1; cbn.
    + apply String.eqb_eq in E1 as ->.
      by rewrite !(proj2 (String.eqb_neq k k0)).
    + by rewrite IH.
Qed.

Lemma hasAttribute_setAttribute d n n' k k' v :
  k <> k' ->
  Dom.hasAttribute (Dom.setAttribute n' k' v d) n k = Dom.hasAttribute d n k.
Proof.
  intros Hne. unfold Dom.hasAttribute, Dom.getAttribute, Dom.setAttribute,
    Dom.attrsOf. cbn.
  destruct (decide (n' = n)) as [->|Hn].
  - by rewrite lookup_insert_eq; cbn; rewrite assoc_assocSet_ne.
  - by rewrite lookup_insert_ne.
Qed.

Section Boundary.

Variable element : nat.

(** The element carries the boundary marker. *)
Let marked (w : World) : Prop :=
  Dom.hasAttribute (dom w) element "data-component" = true.

Lemma preserves_update this f : preserves marked (update this f).
Proof. by apply preserves_modify. Qed.

Lemma preserves_subscribe this path cb : preserves marked (subscribe this path cb).
Proof.
  unfold subscribe.
  apply preserves_bind; [apply preserves_object|]. intros c.
  apply preserves_bind; [apply preserves_deref|]. intros o.
  apply preserves_update.
Qed.

Lemma preserves_resolveMatches this matches text :
  preserves marked (resolveMatches this matches text).
Proof.
  revert text. induction matches as [|m rest IH]; intros text; cbn.
  - apply preserves_ret.
  - apply preserves_bind; [apply preserves_object|]. intros c.
    apply preserves_bind; [apply preserves_deref|]. intros o. apply IH.
Qed.

Lemma preserves_resolveBindingText this text :
  preserves marked (resolveBindingText this text).
Proof.
  unfold resolveBindingText. destruct (Js.matchBindings text).
  - apply preserves_throw.
  - apply preserves_resolveMatches.
Qed.

Lemma preserves_registerMatches this bindingId i nodeValue pathVar matches :
  preserves marked (registerMatches this bindingId i nodeValue pathVar matches).
Proof.
  induction matches as [|m rest IH]; cbn [registerMatches].
  - apply preserves_ret.
  - apply preserves_bind; [by apply preserves_modify|]. intros _.
    apply preserves_bind; [apply preserves_object|]. intros c.
    apply preserves_bind.
    { destruct (Js.undefinedIn _ _);
        [apply preserves_update | apply preserves_ret]. }
    intros _.
    apply preserves_bind; [apply preserves_subscribe|]. intros _.
    apply preserves_bind; [apply preserves_object|]. intros c'.
    apply preserves_bind; [apply preserves_deref|]. intros bs.
    apply preserves_bind; [apply preserves_update|]. intros _. apply IH.
Qed.

Lemma preserves_scanTextNodes this rootElement pathVar textNodes i bindingId :
  preserves marked (scanTextNodes this rootElement pathVar textNodes i bindingId).
Proof.
  revert i bindingId.
  induction textNodes as [|node rest IH]; intros i bindingId;
    cbn [scanTextNodes].
  - apply preserves_ret.
  - apply preserves_bind; [apply preserves_gets|]. intros nodeValue.
    destruct (Js.matchBindings nodeValue) as [|m ms]; [apply IH|].
    apply preserves_bind.
    { destruct bindingId; [apply preserves_ret|].
      apply preserves_bind; [apply preserves_gets|]. intros b.
      apply preserves_bind; [by apply preserves_modify|]. intros _.
      apply preserves_bind; [|intros _; apply preserves_ret].
      apply preserves_modify. intros w Hw. unfold marked in *. cbn.
      by rewrite hasAttribute_setAttribute. }
    intros bid.
    apply preserves_bind; [apply preserves_registerMatches|]. intros _.
    apply preserves_bind; [apply preserves_resolveBindingText|]. intros v.
    apply preserves_bind; [by apply preserves_modify|]. intros _. apply IH.
Qed.

(** C8, as the code has it: an element that carries [data-component] has
    its own text nodes scanned like any other element, and is then handed to
    [processSubComponent]; the loop over its child elements is not entered,
    whatever the fuel. *)
Theorem processElements_at_subcomponent
    (construct : string -> nat -> M World nat) (fuel this : nat) (w : World) :
  Dom.hasAttribute (dom w) element "data-component" = true ->
  processElements construct (S fuel) this element w
  = (let* pathVar := newVar in
     scanTextNodes this element pathVar
       (List.filter (Dom.isText (dom w)) (Dom.kids (dom w) element)) 0 None;;
     processSubComponent construct this element) w.
Proof.
  intros Hm. cbn [processElements].
  unfold bind, gets, newVar.
  set (w1 := mkWorld _ _ _ _ _ _ _ _).
  assert (Hw1 : marked w1) by exact Hm.
  destruct (scanTextNodes _ _ _ _ _ _ w1) as [[] w2|e w2|w2] eqn:Hscan;
    [|reflexivity..].
  apply preserves_scanTextNodes in Hscan; [|done].
  unfold marked in Hscan. by rewrite Hscan.
Qed.

End Boundary.

(** C8, a counterexample to the claim as stated: the element with
    [data-component="Sub"] (node 3) is given the binding id 0, its text node
    (node 4) is registered for [title] and resolved, and then the element is
    replaced by the root of the subcomponent (node 7); the text under its
    child element (node 6) is left as written. *)
Lemma subcomponent_text_is_scanned :
  let r := constructor (constructRegistered subRegistry 9) 9 "T" None
             subComponent in
  r = Ok 0 (finalState r)
  /\ Dom.getAttribute (dom (finalState r)) 3 "data-component" = Some "Sub"
  /\ Dom.getAttribute (dom (finalState r)) 3 "id" = Some "BindingElement0"
  /\ (objects (finalState r) !! 0 ≫= fun c => textBindings c !! "title")
     = Some [mkTextBinding 0 0 "title" "{{title}}" (TextCallback 0 2)]
  /\ Dom.valueOf (dom (finalState r)) 4 = ""
  /\ Dom.valueOf (dom (finalState r)) 6 = "{{title}}"
  /\ Dom.kids (dom (finalState r)) 1 = [7].
Proof. evaluate. Qed.

Lemma processElements_at_subcomponent_witness :
  let w := finalState (processElements noClasses 1 0 3 subComponentParsed) in
  processElements noClasses 5 0 3 subComponentParsed = Throw TypeError w.
Proof.
  intros w.
  rewrite (processElements_at_subcomponent 3 noClasses 4 0 subComponentParsed);
    [|vm_compute; reflexivity].
  vm_compute. reflexivity.
Defined.

(** ** Facts about the DOM store *)

Lemma after_app n A B : n ∉ A -> Dom.after n (A ++ n :: B)%list = head B.
Proof.
  induction A as [|a A IH]; cbn; intros Hn.
  - by rewrite decide_True.
  - apply not_elem_of_cons in Hn as [Hne Hn].
    rewrite decide_False by done. by apply IH.
Qed.

Lemma placeBefore_app ns r A B :
  r ∉ A -> Dom.placeBefore ns r (A ++ r :: B)%list = (A ++ ns ++ r :: B)%list.
Proof.
  induction A as [|a A IH]; cbn; intros Hn.
  - by rewrite decide_True.
  - apply not_elem_of_cons in Hn as [Hne Hn].
    rewrite decide_False by done. by rewrite IH.
Qed.

(** Placing before the head of the rest, or at the end when there is no rest. *)
Lemma place_head ns A B :
  (forall h, head B = Some h -> h ∉ A) ->
  Dom.place ns (head B) (A ++ B)%list = (A ++ ns ++ B)%list.
Proof.
  destruct B as [|h B]; cbn; intros H.
  - by rewrite !app_nil_r.
  - apply placeBefore_app. by apply H.
Qed.

Lemma filter_notin_nil (l : list nat) : filter (fun x => x ∉ []) l = l.
Proof.
  induction l as [|x l IH]; [done|].
  rewrite filter_cons_True; [by rewrite IH|]. apply not_elem_of_nil.
Qed.

Lemma filter_notin_cons n ns (l : list nat) :
  filter (fun x => x ∉ ns) (Dom.without n l) = filter (fun x => x ∉ n :: ns) l.
Proof.
  unfold Dom.without. rewrite list_filter_filter. apply list_filter_iff.
  intros x. rewrite not_elem_of_cons. tauto.
Qed.

Lemma filter_notin_disjoint (ns l : list nat) :
  (forall x, x ∈ l -> x ∉ ns) -> filter (fun x => x ∉ ns) l = l.
Proof.
  induction l as [|x l IH]; intros H; [done|].
  rewrite filter_cons_True by (apply H; left).
  rewrite IH; [done|]. intros y Hy. apply H. by right.
Qed.

Lemma filter_notin_self (ns : list nat) : filter (fun x => x ∉ ns) ns = [].
Proof.
  assert (H : forall l, (forall x, x ∈ l -> x ∈ ns) -> filter (fun x => x ∉ ns) l = []).
  { induction l as [|x l IH]; intros Hl; [done|].
    rewrite filter_cons_False by (intros Hx; apply Hx, Hl; left).
    apply IH. intros y Hy. apply Hl. by right. }
  by apply H.
Qed.

Lemma detach_parent d n p :
  Dom.parentNode d !! n = Some p ->
  Dom.detach n d
  = Dom.withParentNode (delete n)
      (Dom.withChildNodes (<[p := Dom.without n (Dom.kids d p)]>) d).
Proof. intros H. unfold Dom.detach. by rewrite H. Qed.

(** Taking a list of children out of their common parent [f]. *)
Lemma detachAll_spec ns : forall d f,
  NoDup ns ->
  (forall n, n ∈ ns -> Dom.parentNode d !! n = Some f) ->
  (forall k, Dom.parentNode (Dom.detachAll ns d) !! k
             = if decide (k ∈ ns) then None else Dom.parentNode d !! k)
  /\ (forall k, k <> f ->
        Dom.childNodes (Dom.detachAll ns d) !! k = Dom.childNodes d !! k)
  /\ Dom.kids (Dom.detachAll ns d) f = filter (fun x => x ∉ ns) (Dom.kids d f)
  /\ Dom.nextNode (Dom.detachAll ns d) = Dom.nextNode d
  /\ Dom.nodeType (Dom.detachAll ns d) = Dom.nodeType d
  /\ Dom.nodeValue (Dom.detachAll ns d) = Dom.nodeValue d
  /\ Dom.attributes (Dom.detachAll ns d) = Dom.attributes d.
Proof.
  induction ns as [|n ns IH]; intros d f Hnd Hp.
  - cbn. split_and!; try done. by rewrite filter_notin_nil.
  - apply NoDup_cons in Hnd as [Hn Hnd].
    change (Dom.detachAll (n :: ns) d) with (Dom.detachAll ns (Dom.detach n d)).
    rewrite (detach_parent d n f) by (apply Hp; left).
    set (d1 := Dom.withParentNode _ _).
    destruct (IH d1 f Hnd) as (H1 & H2 & H3 & H4 & H5 & H6 & H7).
    { intros m Hm. unfold d1. cbn.
      rewrite lookup_delete_ne by (intros Heq; subst; contradiction).
      apply Hp. by right. }
    split_and!; try done.
    + intros k. rewrite H1. unfold d1. cbn.
      destruct (decide (k ∈ ns)) as [Hk|Hk].
      * rewrite decide_True; [done|by right].
      * destruct (decide (k = n)) as [->|Hkn].
        -- rewrite decide_True by left. apply lookup_delete_eq.
        -- rewrite decide_False by (rewrite elem_of_cons; tauto).
           by apply lookup_delete_ne.
    + intros k Hk. rewrite H2 by done. unfold d1. cbn.
      by apply lookup_insert_ne.
    + rewrite H3. unfold d1, Dom.kids at 1. cbn. rewrite lookup_insert_eq. cbn.
      apply filter_notin_cons.
Qed.

Lemma adopt_lookup p ns d k :
  Dom.parentNode (Dom.adopt p ns d) !! k
  = if decide (k ∈ ns) then Some p else Dom.parentNode d !! k.
Proof.
  unfold Dom.adopt. cbn. generalize (Dom.parentNode d) as m.
  induction ns as [|n ns IH]; intros m; cbn.
  - rewrite decide_False; [done|apply not_elem_of_nil].
  - rewrite IH. destruct (decide (k ∈ ns)) as [Hk|Hk].
    + rewrite decide_True; [done|by right].
    + destruct (decide (k = n)) as [->|Hkn].
      * rewrite decide_True by left. apply lookup_insert_eq.
      * rewrite decide_False by (rewrite elem_of_cons; tauto).
        by apply lookup_insert_ne.
Qed.

(** Inserting a document fragment [f] whose children are [ns] under [p],
    before [ref]. *)
Lemma insertBefore_fragment d p f ref ns :
  Dom.typeOf d f = Dom.DOCUMENT_FRAGMENT_NODE ->
  Dom.kids d f = ns -> NoDup ns ->
  (forall n, n ∈ ns -> Dom.parentNode d !! n = Some f) ->
  f <> p -> ref <> Some f ->
  (forall r, ref = Some r -> Dom.parentNode d !! r = Some p) ->
  exists d', Dom.insertBefore p f ref d = inr d'
    /\ Dom.kids d' p = Dom.place ns ref (Dom.kids d p)
    /\ (forall k, Dom.parentNode d' !! k
                  = if decide (k ∈ ns) then Some p else Dom.parentNode d !! k)
    /\ (forall k, k <> p -> k <> f ->
          Dom.childNodes d' !! k = Dom.childNodes d !! k)
    /\ Dom.nextNode d' = Dom.nextNode d
    /\ Dom.nodeType d' = Dom.nodeType d
    /\ Dom.nodeValue d' = Dom.nodeValue d.
Proof.
  intros Hty Hk Hnd Hp Hfp Hrf Href.
  unfold Dom.insertBefore.
  assert (Hok : match ref with
                | Some r => bool_decide (Dom.parentNode d !! r = Some p)
                | None => true
                end = true).
  { destruct ref as [r|]; [|done]. apply bool_decide_eq_true. by apply Href. }
  rewrite Hok, decide_False by done.
  rewrite Hty, Nat.eqb_refl, Hk.
  destruct (detachAll_spec ns d f Hnd Hp) as (H1 & H2 & H3 & H4 & H5 & H6 & H7).
  eexists. split; [reflexivity|].
  split_and!.
  - unfold Dom.kids at 1. cbn. rewrite lookup_insert_eq. cbn.
    unfold Dom.kids at 1. by rewrite H2.
  - intros k. rewrite adopt_lookup. cbn. rewrite H1.
    by destruct (decide (k ∈ ns)).
  - intros k Hkp Hkf. cbn. rewrite lookup_insert_ne by done. by apply H2.
  - done.
  - done.
  - done.
Qed.

(** ** The Repeater: what each step of the handlers does *)

Import Repeater.

Lemma bind_run {S A B} (m : M S A) (k : A -> M S B) s a s' :
  m s = Ok a s' -> bind m k s = k a s'.
Proof. unfold bind. by intros ->. Qed.

Lemma bind_gets {S A B} (f : S -> A) (k : A -> M S B) s :
  bind (gets f) k s = k (f s) s.
Proof. done. Qed.

Lemma bind_modify {S B} (f : S -> S) (k : unit -> M S B) s :
  bind (modify f) k s = k tt (f s).
Proof. done. Qed.

Lemma bind_ret {S A B} (a : A) (k : A -> M S B) s : bind (ret a) k s = k a s.
Proof. done. Qed.

Lemma frame_self (r : Repeater.t) :
  r = withNodePlaceholders (fun _ => nodePlaceholders r) (withDom (fun _ => dom r) r).
Proof. by destruct r. Qed.

(** The nodes of a clone are the next unused identities; nothing that exists
    is touched. *)
Lemma createNodes_spec ts : forall r,
  exists d' ph',
    createNodes ts r
    = (seq (Dom.nextNode (dom r)) (length ts),
       withNodePlaceholders (fun _ => ph') (withDom (fun _ => d') r))
    /\ Dom.parentNode d' = Dom.parentNode (dom r)
    /\ (forall k, k < Dom.nextNode (dom r) ->
          Dom.childNodes d' !! k = Dom.childNodes (dom r) !! k
          /\ Dom.nodeType d' !! k = Dom.nodeType (dom r) !! k)
    /\ Dom.nextNode d' = Dom.nextNode (dom r) + length ts.
Proof.
  induction ts as [|tn ts IH]; intros r.
  - exists (dom r), (nodePlaceholders r). cbn [createNodes length seq].
    split_and!; first [done | lia | by rewrite <- frame_self].
  - cbn [createNodes]. unfold Dom.create.
    set (n := Dom.nextNode (dom r)).
    set (r1 := withNodePlaceholders _ _).
    destruct (IH r1) as (d' & ph' & Hc & Hp & Hk & Hn).
    rewrite Hc. exists d', ph'. split_and!.
    + done.
    + by rewrite Hp.
    + intros k Hlt.
      destruct (Hk k) as [H1 H2]; [unfold r1; cbn; lia|].
      rewrite H1, H2. unfold r1. cbn.
      rewrite !lookup_insert_ne by (fold n; lia). done.
    + rewrite Hn. unfold r1. cbn. lia.
Qed.

Lemma importNode_spec r tpl :
  template r = Some tpl ->
  let f := Dom.nextNode (dom r) in
  let ns := seq (S f) (length tpl) in
  exists d' ph',
    importNode r
    = Ok f (withNodePlaceholders (fun _ => ph') (withDom (fun _ => d') r))
    /\ Dom.kids d' f = ns
    /\ Dom.typeOf d' f = Dom.DOCUMENT_FRAGMENT_NODE
    /\ (forall k, Dom.parentNode d' !! k
                  = if decide (k ∈ ns) then Some f else Dom.parentNode (dom r) !! k)
    /\ (forall k, k < f -> Dom.childNodes d' !! k = Dom.childNodes (dom r) !! k)
    /\ Dom.nextNode d' = S f + length tpl.
Proof.
  intros Ht f ns. unfold importNode.
  rewrite bind_gets, Ht. cbn [deref]. rewrite bind_ret.
  unfold Dom.create. fold f.
  set (r0 := withDom _ r).
  destruct (createNodes_spec tpl r0) as (d' & ph' & Hc & Hp & Hk & Hn).
  rewrite Hc. change (Dom.nextNode (dom r0)) with (S f). fold ns.
  exists (Dom.adopt f ns (Dom.withChildNodes (<[f := ns]>) d')), ph'.
  split; [reflexivity|].
  change (Dom.nextNode (dom r0)) with (S f) in *.
  split_and!.
  - unfold Dom.kids. cbn. by rewrite lookup_insert_eq.
  - unfold Dom.typeOf. cbn. destruct (Hk f) as [_ ->]; [lia|].
    unfold r0. cbn. by rewrite lookup_insert_eq.
  - intros k. rewrite adopt_lookup. cbn. by rewrite Hp.
  - intros k Hlt. cbn. rewrite lookup_insert_ne by lia.
    destruct (Hk k) as [-> _]; [lia|]. unfold r0. cbn.
    by rewrite lookup_insert_ne by lia.
  - cbn. lia.
Qed.

Lemma prepareNodes_spec ns c : forall r,
  exists nc' l',
    prepareNodes ns c r
    = Ok ns (withListeners (fun _ => l') (withNodeContext (fun _ => nc') r))
    /\ forall k, nc' !! k
                 = if decide (k ∈ ns) then Some c else nodeContext r !! k.
Proof.
  induction ns as [|n ns IH]; intros r.
  - exists (nodeContext r), (listeners r). split; [by destruct r|].
    intros k. rewrite decide_False; [done|apply not_elem_of_nil].
  - cbn [prepareNodes]. unfold applyMyDataContext, setParentComponent,
      applyRepeaterEvents.
    rewrite bind_modify, bind_ret. unfold bind at 1.
    set (r1 := withListeners _ _).
    destruct (IH r1) as (nc' & l' & Hc & Hk).
    rewrite (bind_run _ _ _ _ _ Hc). exists nc', l'. split; [done|].
    intros k. rewrite Hk. unfold r1. cbn.
    destruct (decide (k ∈ ns)) as [Hin|Hin].
    + rewrite decide_True; [done|by right].
    + destruct (decide (k = n)) as [->|Hne].
      * rewrite decide_True by left. apply lookup_insert_eq.
      * rewrite decide_False by (rewrite elem_of_cons; tauto).
        by apply lookup_insert_ne.
Qed.

Lemma recordsFor_spec node c paths : forall h,
  Forall (fun b => bindingNode b = node /\ bindingContext b = c)
         (recordsFor node c paths h)
  /\ bindingHandle <$> recordsFor node c paths h = seq h (length paths).
Proof.
  induction paths as [|p ps IH]; intros h; cbn.
  - by split.
  - destruct (IH (S h)) as [H1 H2]. split.
    + by constructor.
    + by rewrite H2.
Qed.

Lemma collectBindings_spec ns c : forall r,
  exists bs,
    collectBindings ns c r
    = Ok bs (withNextHandle (fun _ => nextHandle r + length bs)
               (withSubscriptions (fun _ => subscriptions r ++ bs)%list r))
    /\ Forall (fun b => bindingNode b ∈ ns /\ bindingContext b = c) bs
    /\ bindingHandle <$> bs = seq (nextHandle r) (length bs).
Proof.
  induction ns as [|n ns IH]; intros r.
  - exists []. cbn. rewrite app_nil_r, Nat.add_0_r. split; [by destruct r|done].
  - cbn [collectBindings]. unfold processBindings at 1. unfold bind at 1.
    set (recs := recordsFor n c _ (nextHandle r)).
    set (r1 := withNextHandle _ _).
    destruct (IH r1) as (bs & Hc & Hb & Hh).
    rewrite (bind_run _ _ _ _ _ Hc). unfold ret.
    destruct (recordsFor_spec n c (default [] (nodePlaceholders r !! n))
                (nextHandle r)) as [Hr1 Hr2].
    fold recs in Hr1, Hr2.
    assert (Hlen : length recs = length (default [] (nodePlaceholders r !! n))).
    { by rewrite <- (length_fmap bindingHandle), Hr2, length_seq. }
    exists (recs ++ bs)%list. split_and!.
    + unfold r1. cbn. rewrite length_app, app_assoc, Nat.add_assoc. done.
    + apply Forall_app. split.
      * eapply Forall_impl; [exact Hr1|]. intros b [-> ->]. split; [left|done].
      * eapply Forall_impl; [exact Hb|]. intros b [? ?]. split; [by right|done].
    + rewrite fmap_app, Hh, Hr2, length_app, seq_app, Hlen. unfold r1. cbn.
      by rewrite Hlen.
Qed.

Lemma foldl_patch_frame r bs : forall d,
  Dom.parentNode (foldl (patch r) d bs) = Dom.parentNode d
  /\ Dom.childNodes (foldl (patch r) d bs) = Dom.childNodes d
  /\ Dom.nextNode (foldl (patch r) d bs) = Dom.nextNode d
  /\ Dom.nodeType (foldl (patch r) d bs) = Dom.nodeType d.
Proof.
  induction bs as [|b bs IH]; intros d; [done|].
  cbn [foldl]. destruct (IH (patch r d b)) as (-> & -> & -> & ->). done.
Qed.

Lemma after_elem n l x : Dom.after n l = Some x -> x ∈ l.
Proof.
  induction l as [|a l IH]; cbn; [done|].
  destruct (decide (a = n)).
  - destruct l; cbn; [done|]. intros [= ->]. right. left.
  - intros H. right. by apply IH.
Qed.

Lemma itemAdded_core r arg tpl parent :
  template r = Some tpl ->
  Dom.parentNode (dom r) !! self r = Some parent ->
  parent < Dom.nextNode (dom r) ->
  Forall (fun n => Dom.parentNode (dom r) !! n = Some parent
                   /\ n < Dom.nextNode (dom r)) (Dom.kids (dom r) parent) ->
  self r ∈ Dom.kids (dom r) parent ->
  Forall (fun entry => entry <> [] /\ forall n, n ∈ entry -> n ∈ Dom.kids (dom r) parent)
         (itemNodes r) ->
  let f := Dom.nextNode (dom r) in
  let ns := seq (S f) (length tpl) in
  let c := nextContext r in
  exists r' bs,
    itemAdded arg r = Ok tt r'
    /\ self r' = self r /\ template r' = template r
    /\ itemNodes r' = spliceInsert (position arg) ns (itemNodes r)
    /\ itemNodeBindings r' = spliceInsert (position arg) bs (itemNodeBindings r)
    /\ Dom.kids (dom r') parent
       = Dom.place ns (refNodeOf r arg) (Dom.kids (dom r) parent)
    /\ (forall k, Dom.parentNode (dom r') !! k
                  = if decide (k ∈ ns) then Some parent
                    else Dom.parentNode (dom r) !! k)
    /\ Dom.nextNode (dom r') = S f + length tpl
    /\ contexts r' = <[c := item arg]> (contexts r)
    /\ nextContext r' = S c
    /\ (forall k, nodeContext r' !! k
                  = if decide (k ∈ ns) then Some c else nodeContext r !! k)
    /\ subscriptions r' = (subscriptions r ++ bs)%list
    /\ nextHandle r' = nextHandle r + length bs
    /\ Forall (fun b => bindingNode b ∈ ns /\ bindingContext b = c) bs
    /\ bindingHandle <$> bs = seq (nextHandle r) (length bs).
Proof.
  intros Ht Hself Hpar Hkids Hin Hentries f ns c.
  unfold itemAdded.
  unfold newObservable at 1. unfold bind at 1.
  set (r1 := withNextContext S _).
  destruct (importNode_spec r1 tpl Ht) as (d2 & ph2 & Himp & Hk2 & Hty2 & Hp2 & Hc2 & Hn2).
  change (Dom.nextNode (dom r1)) with f in *. fold ns in Hk2, Hp2.
  rewrite (bind_run _ _ _ _ _ Himp).
  set (r2 := withNodePlaceholders _ _).
  rewrite bind_gets. change (dom r2) with d2. rewrite Hk2.
  destruct (prepareNodes_spec ns c r2) as (nc3 & l3 & Hprep & Hnc3).
  rewrite (bind_run _ _ _ _ _ Hprep).
  set (r3 := withListeners _ _).
  rewrite !bind_gets.
  change (itemNodes r3) with (itemNodes r). change (self r3) with (self r).
  assert (Hlt : forall x, x ∈ Dom.kids (dom r) parent ->
            Dom.parentNode (dom r) !! x = Some parent /\ x < f /\ x ∉ ns).
  { intros x Hx. rewrite Forall_forall in Hkids. destruct (Hkids x Hx) as [H1 H2].
    split_and!; [done..|]. unfold ns. rewrite elem_of_seq. unfold f. lia. }
  assert (Hkp : Dom.kids d2 parent = Dom.kids (dom r) parent).
  { unfold Dom.kids. by rewrite Hc2. }
  assert (Hpar2 : forall x, x ∈ Dom.kids (dom r) parent ->
            Dom.parentNode d2 !! x = Some parent).
  { intros x Hx. destruct (Hlt x Hx) as (H1 & H2 & H3).
    rewrite Hp2, decide_False by done. exact H1. }
  assert (Hsib : forall x, x ∈ Dom.kids (dom r) parent ->
            Dom.nextSibling d2 x = Dom.nextSibling (dom r) x).
  { intros x Hx. unfold Dom.nextSibling. rewrite (Hpar2 x Hx), Hkp.
    destruct (Hlt x Hx) as (-> & _). done. }
  assert (Hsibin : forall x y, x ∈ Dom.kids (dom r) parent ->
            Dom.nextSibling (dom r) x = Some y -> y ∈ Dom.kids (dom r) parent).
  { intros x y Hx. unfold Dom.nextSibling. destruct (Hlt x Hx) as (-> & _).
    apply after_elem. }
  set (refcomp := if (length (itemNodes r) =? 0)%nat then _ else _).
  assert (Href : refcomp r3 = Ok (refNodeOf r arg) r3
                 /\ forall x, refNodeOf r arg = Some x -> x ∈ Dom.kids (dom r) parent).
  { unfold refcomp, refNodeOf.
    destruct (length (itemNodes r) =? 0)%nat eqn:E0.
    { split.
      - unfold gets. change (dom r3) with d2. by rewrite Hsib.
      - intros x. by apply Hsibin. }
    destruct (position arg <? length (itemNodes r))%nat eqn:E1.
    { rewrite Forall_forall in Hentries.
      destruct (itemNodes r !! position arg) as [entry|] eqn:Ee.
      - split; [by destruct entry|].
        intros x Hx. apply (Hentries entry); [by eapply list_elem_of_lookup_2|].
        destruct entry; [done|]. injection Hx as ->. left.
      - apply lookup_ge_None in Ee. apply Nat.ltb_lt in E1. lia. }
    rewrite last_lookup.
    replace (pred (length (itemNodes r))) with (length (itemNodes r) - 1) by lia.
    destruct (itemNodes r !! (length (itemNodes r) - 1)) as [entry|] eqn:Ee.
    2:{ apply lookup_ge_None in Ee. apply Nat.eqb_neq in E0. lia. }
    rewrite Forall_forall in Hentries.
    destruct (Hentries entry) as [Hne Hsub]; [by eapply list_elem_of_lookup_2|].
    cbn [deref]. rewrite bind_ret, last_lookup.
    replace (pred (length entry)) with (length entry - 1) by lia.
    destruct (entry !! (length entry - 1)) as [l|] eqn:El.
    2:{ apply lookup_ge_None in El. destruct entry; [done|]. cbn in El. lia. }
    cbn [deref]. rewrite bind_ret.
    assert (l ∈ Dom.kids (dom r) parent)
      by (apply Hsub; by eapply list_elem_of_lookup_2).
    split.
    - unfold gets. change (dom r3) with d2. by rewrite Hsib.
    - intros x. by apply Hsibin. }
  destruct Href as [Href Hrefin].
  rewrite (bind_run _ _ _ _ _ Href), bind_modify, bind_gets.
  set (r4 := withItemNodes _ r3).
  change (dom r4) with d2. rewrite (Hpar2 _ Hin). cbn [deref]. rewrite bind_ret.
  destruct (insertBefore_fragment d2 parent f (refNodeOf r arg) ns)
    as (d5 & Hins & Hk5 & Hp5 & Hc5 & Hn5 & Hty5 & Hv5); try done.
  { apply NoDup_seq. }
  { intros n Hn. by rewrite Hp2, decide_True. }
  { unfold f. lia. }
  { intros E. apply Hrefin, Hlt in E. lia. }
  { intros x E. apply Hpar2. by apply Hrefin. }
  unfold domCall at 1. unfold bind at 1. change (dom r4) with d2. rewrite Hins.
  set (r5 := withDom _ r4).
  destruct (collectBindings_spec ns c r5) as (bs & Hcol & Hbs & Hh).
  rewrite (bind_run _ _ _ _ _ Hcol), bind_modify.
  unfold resolveBindings.
  eexists _, bs. split; [reflexivity|]. cbn.
  match goal with
  | |- context [foldl (patch ?x) d5 bs] =>
      destruct (foldl_patch_frame x bs d5) as (Hf1 & Hf2 & Hf3 & Hf4)
  end.
  split_and!; try done.
  - unfold Dom.kids at 1. rewrite Hf2. fold (Dom.kids d5 parent).
    by rewrite Hk5, Hkp.
  - intros k. rewrite Hf1, Hp5, Hp2.
    by destruct (decide (k ∈ ns)).
  - rewrite Hf3, Hn5, Hn2. done.
Qed.

Lemma removeNodes_spec ns : forall r parent,
  NoDup ns ->
  (forall n, n ∈ ns -> Dom.parentNode (dom r) !! n = Some parent) ->
  removeNodes ns r = Ok tt (withDom (fun _ => Dom.detachAll ns (dom r)) r).
Proof.
  induction ns as [|n ns IH]; intros r parent Hnd Hp.
  - by destruct r.
  - apply NoDup_cons in Hnd as [Hn Hnd].
    cbn [removeNodes]. rewrite bind_gets, (Hp n) by left.
    cbn [deref]. rewrite bind_ret. unfold domCall at 1, Dom.removeChild.
    unfold bind at 1. rewrite bool_decide_eq_true_2 by (apply Hp; left).
    rewrite (IH _ parent); [done|done|].
    intros m Hm. cbn. rewrite (detach_parent _ n parent) by (apply Hp; left).
    cbn. rewrite lookup_delete_ne by (intros Heq; subst; contradiction).
    apply Hp. by right.
Qed.

Lemma itemRemoved_core r arg parent entry bs :
  itemNodes r !! position arg = Some entry ->
  itemNodeBindings r !! position arg = Some bs ->
  NoDup entry ->
  (forall n, n ∈ entry -> Dom.parentNode (dom r) !! n = Some parent) ->
  itemRemoved arg r
  = Ok tt
      (withItemNodes (spliceRemove (position arg))
         (withDom (fun _ => Dom.detachAll entry (dom r))
            (withItemNodeBindings (spliceRemove (position arg))
               (withSubscriptions
                  (filter (fun b => bindingHandle b ∉ map bindingHandle bs))
                  r)))).
Proof.
  intros He Hb Hnd Hp. unfold itemRemoved.
  rewrite bind_gets, Hb. unfold releaseBindings. rewrite bind_modify, bind_modify.
  rewrite bind_gets. cbn [itemNodes withItemNodeBindings withSubscriptions].
  rewrite He. cbn [deref]. rewrite bind_ret.
  erewrite bind_run; [|by eapply removeNodes_spec]. done.
Qed.

(** *** Splicing *)

Lemma length_spliceInsert {A} i (x : A) l :
  length (spliceInsert i x l) = S (length l).
Proof.
  unfold spliceInsert. rewrite length_app. cbn.
  rewrite length_take, length_drop. lia.
Qed.

Lemma length_spliceRemove {A} i (l : list A) :
  i < length l -> length (spliceRemove i l) = length l - 1.
Proof.
  intros H. unfold spliceRemove. rewrite length_app, length_take, length_drop. lia.
Qed.

Lemma Forall_spliceInsert {A} (P : A -> Prop) i x l :
  Forall P l -> P x -> Forall P (spliceInsert i x l).
Proof.
  intros Hl Hx. unfold spliceInsert. apply Forall_app. split.
  - by apply Forall_take.
  - constructor; [done|]. by apply Forall_drop.
Qed.

Lemma Forall_spliceRemove {A} (P : A -> Prop) i l :
  Forall P l -> Forall P (spliceRemove i l).
Proof.
  intros Hl. unfold spliceRemove. apply Forall_app. split.
  - by apply Forall_take.
  - by apply Forall_drop.
Qed.

Lemma Forall2_spliceInsert {A B} (P : A -> B -> Prop) i x y l k :
  Forall2 P l k -> P x y -> Forall2 P (spliceInsert i x l) (spliceInsert i y k).
Proof.
  intros Hl Hx. unfold spliceInsert. apply Forall2_app.
  - by apply Forall2_take.
  - constructor; [done|]. by apply Forall2_drop.
Qed.

Lemma Forall2_spliceRemove {A B} (P : A -> B -> Prop) i l k :
  Forall2 P l k -> Forall2 P (spliceRemove i l) (spliceRemove i k).
Proof.
  intros Hl. unfold spliceRemove. apply Forall2_app.
  - by apply Forall2_take.
  - by apply Forall2_drop.
Qed.

Lemma concat_spliceInsert {A} i (e : list A) l :
  concat (spliceInsert i e l)
  = (concat (take i l) ++ e ++ concat (drop i l))%list.
Proof. unfold spliceInsert. by rewrite concat_app. Qed.

Lemma concat_take_drop {A} i (l : list (list A)) :
  concat l = (concat (take i l) ++ concat (drop i l))%list.
Proof. by rewrite <- concat_app, take_drop. Qed.

Lemma elem_of_concat_spliceInsert {A} i (e : list A) l x :
  x ∈ concat (spliceInsert i e l) <-> x ∈ e \/ x ∈ concat l.
Proof.
  rewrite concat_spliceInsert, (concat_take_drop i l), !elem_of_app. tauto.
Qed.

Lemma concat_spliceRemove {A} i (e : list A) l :
  l !! i = Some e ->
  concat l = (concat (take i l) ++ e ++ concat (drop (S i) l))%list
  /\ concat (spliceRemove i l) = (concat (take i l) ++ concat (drop (S i) l))%list.
Proof.
  intros H. split.
  - rewrite <- (take_drop_middle l i e H) at 1.
    by rewrite concat_app.
  - unfold spliceRemove. by rewrite concat_app.
Qed.

Lemma Forall2_impl_l {A B} (P P' : A -> B -> Prop) (Q : A -> Prop) l k :
  Forall2 P l k -> Forall Q l -> (forall x y, Q x -> P x y -> P' x y) ->
  Forall2 P' l k.
Proof.
  intros H. induction H; intros HQ Himp; [constructor|].
  apply Forall_cons in HQ as [? ?]. constructor; auto.
Qed.

Lemma Forall2_impl_r {A B} (P P' : A -> B -> Prop) (Q : B -> Prop) l k :
  Forall2 P l k -> Forall Q k -> (forall x y, Q y -> P x y -> P' x y) ->
  Forall2 P' l k.
Proof.
  intros H. induction H; intros HQ Himp; [constructor|].
  apply Forall_cons in HQ as [? ?]. constructor; auto.
Qed.

(** ** The layout of the entries among the siblings *)

(** Both sides as right-nested appends. *)
Ltac list_norm :=
  rewrite <- ?app_assoc; cbn [app]; rewrite <- ?app_assoc; cbn [app].

Lemma elem_of_concat {A} (ls : list (list A)) x :
  x ∈ concat ls <-> exists l, x ∈ l /\ l ∈ ls.
Proof.
  induction ls as [|l ls IH]; cbn.
  - split; [by intros ?%elem_of_nil|]. by intros (l & _ & ?%elem_of_nil).
  - rewrite elem_of_app, IH. split.
    + intros [H|(l' & H1 & H2)]; [exists l; split; [done|left]|].
      exists l'. split; [done|by right].
    + intros (l' & H1 & H2). apply elem_of_cons in H2 as [->|H2]; [by left|].
      right. eauto.
Qed.

Lemma templated_nonempty r :
  templated r -> Forall (fun entry : list nat => entry <> []) (itemNodes r).
Proof.
  intros (tpl & _ & Hne & Hlen). eapply Forall_impl; [exact Hlen|].
  intros entry Hl ->. destruct tpl; [done|]. discriminate.
Qed.

Lemma laidOut_entries parent r :
  laidOut parent r ->
  self r ∈ Dom.kids (dom r) parent
  /\ Forall (fun entry => forall n, n ∈ entry -> n ∈ Dom.kids (dom r) parent)
            (itemNodes r)
  /\ NoDup (concat (itemNodes r)).
Proof.
  intros (_ & _ & Hnd & _ & before & after & Hk). split_and!.
  - rewrite Hk, elem_of_app, elem_of_cons. auto.
  - apply Forall_forall. intros entry He n Hn. rewrite Hk.
    rewrite elem_of_app, elem_of_cons, elem_of_app, elem_of_concat. eauto 6.
  - rewrite Hk in Hnd. apply NoDup_app in Hnd as (_ & _ & Hnd).
    apply NoDup_cons in Hnd as [_ Hnd]. by apply NoDup_app in Hnd as [? _].
Qed.

(** The children of the parent split at the insertion point: the reference
    node that [itemAdded] computes is the first node of the second part, or
    [null] when there is none. *)
Lemma refNodeOf_split parent r arg :
  templated r -> laidOut parent r ->
  position arg <= length (itemNodes r) ->
  exists before after,
    let A := (before ++ self r :: concat (take (position arg) (itemNodes r)))%list in
    let B := (concat (drop (position arg) (itemNodes r)) ++ after)%list in
    Dom.kids (dom r) parent
    = (before ++ self r :: concat (itemNodes r) ++ after)%list
    /\ Dom.kids (dom r) parent = (A ++ B)%list
    /\ refNodeOf r arg = head B
    /\ (forall h, h ∈ B -> h ∉ A).
Proof.
  intros Ht Hl Hpos. pose proof (templated_nonempty r Ht) as Hne.
  destruct Hl as (Hself & _ & Hnd & Hkids & before & after & Hk).
  exists before, after. cbn zeta.
  assert (Hsplit : Dom.kids (dom r) parent
            = ((before ++ self r :: concat (take (position arg) (itemNodes r)))
               ++ concat (drop (position arg) (itemNodes r)) ++ after)%list).
  { rewrite Hk. rewrite (concat_take_drop (position arg) (itemNodes r)) at 1.
    by list_norm. }
  assert (Hdisj : forall h,
            h ∈ (concat (drop (position arg) (itemNodes r)) ++ after)%list ->
            h ∉ (before ++ self r :: concat (take (position arg) (itemNodes r)))%list).
  { rewrite Hsplit in Hnd. apply NoDup_app in Hnd as (_ & Hd & _).
    intros h Hh Hh'. by apply (Hd h). }
  split_and!; [done|done| |done].
  unfold refNodeOf.
  destruct (length (itemNodes r) =? 0)%nat eqn:E0.
  { apply Nat.eqb_eq in E0. destruct (itemNodes r) as [|? ?] eqn:Ei; [|done].
    rewrite drop_nil. cbn [concat app].
    unfold Dom.nextSibling. rewrite Hself, Hk. cbn [concat app].
    apply after_app. rewrite Hk in Hnd. apply NoDup_app in Hnd as (_ & Hd & _).
    intros Hin. apply (Hd _ Hin). left. }
  destruct (position arg <? length (itemNodes r))%nat eqn:E1.
  { apply Nat.ltb_lt in E1.
    destruct (lookup_lt_is_Some_2 _ _ E1) as [entry He]. rewrite He.
    rewrite (drop_S _ _ _ He). cbn [concat].
    rewrite Forall_forall in Hne.
    destruct entry as [|first rest]; [|done].
    exfalso. eapply Hne; [|done]. by eapply list_elem_of_lookup_2. }
  apply Nat.ltb_ge in E1. apply Nat.eqb_neq in E0.
  rewrite drop_ge by lia. cbn [concat app].
  destruct (last (itemNodes r)) as [entry|] eqn:El.
  2:{ apply last_None in El. rewrite El in E0. done. }
  apply last_Some in El as [init Hinit].
  assert (entry <> []) as Hentry.
  { rewrite Forall_forall in Hne. apply Hne. rewrite Hinit. set_solver. }
  destruct (last entry) as [l|] eqn:Ell.
  2:{ by apply last_None in Ell. }
  apply last_Some in Ell as [e' He'].
  assert (Hkl : Dom.kids (dom r) parent
            = ((before ++ self r :: concat init ++ e') ++ l :: after)%list).
  { rewrite Hk, Hinit, concat_app, He'. cbn [concat].
    rewrite app_nil_r. by list_norm. }
  unfold Dom.nextSibling.
  assert (l ∈ Dom.kids (dom r) parent) as Hlin by (rewrite Hkl; set_solver).
  rewrite Forall_forall in Hkids. destruct (Hkids l Hlin) as [-> _].
  rewrite Hkl. apply after_app.
  rewrite Hkl in Hnd. apply NoDup_app in Hnd as (_ & Hd & _).
  intros Hin. apply (Hd _ Hin). left.
Qed.

(** ** The handlers keep the Repeater populated *)

Lemma aligned_lengths cs array r :
  alignedWith cs array r ->
  length (itemNodes r) = length array
  /\ length (itemNodeBindings r) = length array
  /\ length cs = length array.
Proof.
  intros (H1 & _ & H2 & H3 & _).
  apply Forall2_length in H1, H2, H3. lia.
Qed.

Lemma itemAdded_populated array r arg :
  populated array r -> position arg <= length array ->
  exists r' parent before after,
    let A := (before ++ self r :: concat (take (position arg) (itemNodes r)))%list in
    let B := (concat (drop (position arg) (itemNodes r)) ++ after)%list in
    itemAdded arg r = Ok tt r'
    /\ populated (spliceInsert (position arg) (item arg) array) r'
    /\ Dom.parentNode (dom r) !! self r = Some parent
    /\ self r' = self r
    /\ Dom.kids (dom r) parent = (A ++ B)%list
    /\ refNodeOf r arg = head B
    /\ (exists clone,
          itemNodes r' = spliceInsert (position arg) clone (itemNodes r)
          /\ (forall n, n ∈ clone -> n ∉ Dom.kids (dom r) parent)
          /\ Dom.kids (dom r') parent = (A ++ clone ++ B)%list).
Proof.
  intros (Ht & [parent Hl] & [cs Ha] & Hb) Hpos.
  destruct (aligned_lengths _ _ _ Ha) as (Hlen1 & Hlen2 & Hlen3).
  destruct (refNodeOf_split parent r arg Ht Hl) as (before & after & Hk & HAB & Href & Hdisj);
    [lia|].
  cbn zeta in HAB, Href, Hdisj.
  set (A := (before ++ self r :: concat (take (position arg) (itemNodes r)))%list) in *.
  set (B := (concat (drop (position arg) (itemNodes r)) ++ after)%list) in *.
  destruct (laidOut_entries parent r Hl) as (Hin & Hsub & Hndc).
  pose proof (templated_nonempty r Ht) as Hne.
  pose proof Ht as (tpl & Htpl & Htne & Htlen).
  pose proof Hl as (Hself & Hpar & Hnd & Hkids & _).
  destruct (itemAdded_core r arg tpl parent Htpl Hself Hpar Hkids Hin)
    as (r' & bs & Hrun & Hs' & Ht' & Hi' & Hbi' & Hk' & Hp' & HnN & Hc' & HnC
        & Hctx' & Hsub' & Hh' & Hbs & Hhs).
  { apply Forall_forall. intros entry He. rewrite Forall_forall in Hne, Hsub.
    split; [by apply Hne|by apply Hsub]. }
  set (f := Dom.nextNode (dom r)) in *.
  set (ns := seq (S f) (length tpl)) in *.
  set (c := nextContext r) in *.
  assert (Hfresh : forall n, n ∈ ns -> n ∉ Dom.kids (dom r) parent).
  { intros n Hn Hn'. rewrite Forall_forall in Hkids.
    destruct (Hkids n Hn') as [_ Hlt]. unfold ns in Hn.
    apply elem_of_seq in Hn. unfold f in Hn. lia. }
  assert (Hold : forall n, n ∈ Dom.kids (dom r) parent -> n ∉ ns).
  { intros n Hn Hn'. by apply (Hfresh n). }
  assert (Hkids' : Dom.kids (dom r') parent = (A ++ ns ++ B)%list).
  { rewrite Hk', Href, HAB. apply place_head.
    intros h Hh. apply Hdisj. by apply head_Some_elem_of. }
  exists r', parent, before, after. cbn zeta. fold A B. split_and!; try done.
  2:{ exists ns. by rewrite Hi'. }
  split_and!.
  - (* templated *)
    exists tpl. rewrite Ht', Hi'. split_and!; [done..|].
    apply Forall_spliceInsert; [done|]. unfold ns. by rewrite length_seq.
  - (* laidOut *)
    exists parent. unfold laidOut. cbn zeta. rewrite Hs', Hi'. split_and!.
    + rewrite Hp', decide_False by (by apply Hold). done.
    + rewrite HnN. unfold f. lia.
    + rewrite Hkids'. rewrite HAB in Hnd, Hfresh.
      apply NoDup_app in Hnd as (HA & HABd & HB).
      apply NoDup_app. split_and!; [done| |].
      * intros x Hx. rewrite elem_of_app. intros [Hx'|Hx'].
        -- apply (Hfresh x Hx'). apply elem_of_app. by left.
        -- by apply (HABd x).
      * apply NoDup_app. split_and!; [apply NoDup_seq| |done].
        intros x Hx Hx'. apply (Hfresh x Hx). apply elem_of_app. by right.
    + rewrite Hkids'. apply Forall_forall. intros x Hx.
      rewrite Hp', HnN.
      destruct (decide (x ∈ ns)) as [Hxn|Hxn].
      * split; [done|]. unfold ns in Hxn. apply elem_of_seq in Hxn. lia.
      * assert (x ∈ Dom.kids (dom r) parent) as Hxk.
        { rewrite HAB. apply elem_of_app.
          apply elem_of_app in Hx as [Hx|Hx]; [by left|].
          apply elem_of_app in Hx as [Hx|Hx]; [done|by right]. }
        rewrite Forall_forall in Hkids. destruct (Hkids x Hxk) as [-> Hlt].
        split; [done|]. fold f in Hlt. lia.
    + exists before, after. rewrite Hkids', concat_spliceInsert.
      unfold A, B. by list_norm.
  - (* aligned *)
    exists (spliceInsert (position arg) c cs).
    destruct Ha as (Ha1 & Ha2 & Ha3 & Ha4 & Ha5).
    unfold alignedWith. rewrite Hc', HnC, Hi', Hbi'. split_and!.
    + apply Forall2_spliceInsert; [|apply lookup_insert_eq].
      eapply Forall2_impl_l; [exact Ha1|exact Ha2|].
      intros c0 x Hlt Hx. cbn in Hlt. rewrite lookup_insert_ne; [done|].
      fold c in Hlt. lia.
    + apply Forall_spliceInsert; [|lia].
      eapply Forall_impl; [exact Ha2|]. cbn. intros; lia.
    + apply Forall2_spliceInsert.
      * eapply Forall2_impl_r; [exact Ha3|exact Hsub|].
        intros c0 entry Hs Hc0 n Hn. cbn in Hs.
        rewrite Hctx', decide_False by (apply Hold; by apply Hs). by apply Hc0.
      * intros n Hn. by rewrite Hctx', decide_True.
    + apply Forall2_spliceInsert; [done|].
      intros b Hb'. rewrite Forall_forall in Hbs. by apply Hbs.
    + apply Forall2_spliceInsert; [done|].
      intros b Hb'. rewrite Forall_forall in Hbs. by apply Hbs.
  - (* bound *)
    destruct Hb as (Hb1 & Hb2 & Hb3 & Hb4).
    unfold bound. rewrite Hsub', Hh', HnN, Hi', Hbi'. split_and!.
    + rewrite fmap_app. apply NoDup_app. split_and!; [done| |].
      * intros h Hh1 Hh2. rewrite Hhs in Hh2. apply elem_of_seq in Hh2.
        apply list_elem_of_fmap in Hh1 as (b & -> & Hb').
        rewrite Forall_forall in Hb2. destruct (Hb2 b Hb') as [Hlt _]. lia.
      * rewrite Hhs. apply NoDup_seq.
    + apply Forall_app. split.
      * eapply Forall_impl; [exact Hb2|]. cbn. fold f. intros b [? ?]. lia.
      * apply Forall_forall. intros b Hb'. split.
        -- assert (bindingHandle b ∈ bindingHandle <$> bs) as Hh
             by (by apply list_elem_of_fmap_2).
           rewrite Hhs in Hh. apply elem_of_seq in Hh. lia.
        -- rewrite Forall_forall in Hbs. destruct (Hbs b Hb') as [Hn _].
           unfold ns in Hn. apply elem_of_seq in Hn. lia.
    + intros b Hb'. apply elem_of_concat_spliceInsert in Hb' as [Hb'|Hb'].
      * apply elem_of_app. by right.
      * apply elem_of_app. left. by apply Hb3.
    + intros b Hb' Hnode. apply elem_of_concat_spliceInsert.
      apply elem_of_app in Hb' as [Hb'|Hb']; [right|by left].
      apply Hb4; [done|].
      apply elem_of_concat_spliceInsert in Hnode as [Hnode|Hnode]; [|done].
      rewrite Forall_forall in Hb2. destruct (Hb2 b Hb') as [_ Hlt].
      unfold ns in Hnode. apply elem_of_seq in Hnode. fold f in Hlt. lia.
Qed.

(** Membership in appended lists, as a disjunction. *)
Ltac in_app :=
  repeat match goal with
         | H : _ ∈ (_ ++ _)%list |- _ => apply elem_of_app in H as [H|H]
         end;
  repeat setoid_rewrite elem_of_app; try tauto.

Lemma NoDup_fmap_filter {A B} (f : A -> B) (P : A -> Prop)
    `{forall x, Decision (P x)} (l : list A) :
  NoDup (f <$> l) -> NoDup (f <$> filter P l).
Proof.
  induction l as [|x l IH]; [done|]. rewrite fmap_cons. intros Hnd.
  apply NoDup_cons in Hnd as [Hx Hnd]. rewrite filter_cons.
  destruct (decide (P x)); [|by apply IH].
  rewrite fmap_cons. apply NoDup_cons. split; [|by apply IH].
  intros Hin. apply Hx. apply list_elem_of_fmap in Hin as (y & -> & Hy).
  apply list_elem_of_filter in Hy as [_ Hy]. by apply list_elem_of_fmap_2.
Qed.

Lemma NoDup_fmap_eq {A B} (f : A -> B) (l : list A) x y :
  NoDup (f <$> l) -> x ∈ l -> y ∈ l -> f x = f y -> x = y.
Proof.
  induction l as [|a l IH]; [by intros _ ?%elem_of_nil|].
  cbn. intros Hnd Hx Hy Hf. apply NoDup_cons in Hnd as [Ha Hnd].
  apply elem_of_cons in Hx as [->|Hx]; apply elem_of_cons in Hy as [->|Hy].
  - done.
  - exfalso. apply Ha. rewrite Hf. by apply list_elem_of_fmap_2.
  - exfalso. apply Ha. rewrite <- Hf. by apply list_elem_of_fmap_2.
  - by apply IH.
Qed.

Lemma bindings_nodes (L : list (list nat)) K b :
  Forall2 (fun entry bs => forall b, b ∈ bs -> bindingNode b ∈ entry) L K ->
  b ∈ concat K -> bindingNode b ∈ concat L.
Proof.
  intros H. induction H as [|e bs L K He H IH]; cbn;
    [by intros ?%elem_of_nil|].
  rewrite !elem_of_app. intros [Hb|Hb]; [left; by apply He|right; by apply IH].
Qed.

Lemma itemRemoved_populated array r arg :
  populated array r -> position arg < length array ->
  exists r' parent entry bs,
    itemRemoved arg r = Ok tt r'
    /\ populated (spliceRemove (position arg) array) r'
    /\ Dom.parentNode (dom r) !! self r = Some parent
    /\ itemNodes r !! position arg = Some entry
    /\ itemNodeBindings r !! position arg = Some bs
    /\ itemNodes r' = spliceRemove (position arg) (itemNodes r)
    /\ itemNodeBindings r' = spliceRemove (position arg) (itemNodeBindings r)
    /\ (forall n, n ∈ entry ->
          Dom.parentNode (dom r) !! n = Some parent
          /\ n ∈ Dom.kids (dom r) parent
          /\ Dom.parentNode (dom r') !! n = None
          /\ n ∉ Dom.kids (dom r') parent)
    /\ (forall b, b ∈ bs -> b ∈ subscriptions r /\ b ∉ subscriptions r')
    /\ (forall b, b ∈ subscriptions r' -> bindingNode b ∉ entry).
Proof.
  intros (Ht & [parent Hl] & [cs Ha] & Hb) Hpos.
  destruct (aligned_lengths _ _ _ Ha) as (Hlen1 & Hlen2 & Hlen3).
  destruct (lookup_lt_is_Some_2 (itemNodes r) (position arg)) as [entry He]; [lia|].
  destruct (lookup_lt_is_Some_2 (itemNodeBindings r) (position arg)) as [bs Hbs]; [lia|].
  destruct (laidOut_entries parent r Hl) as (Hin & Hsub & Hndc).
  pose proof Ht as (tpl & Htpl & Htne & Htlen).
  pose proof Hl as (Hself & Hpar & Hnd & Hkids & before & after & Hk).
  destruct (concat_spliceRemove _ _ _ He) as [Hcat Hcat'].
  destruct (concat_spliceRemove _ _ _ Hbs) as [Hbcat Hbcat'].
  set (pos := position arg) in *.
  set (X := concat (take pos (itemNodes r))) in *.
  set (Y := concat (drop (S pos) (itemNodes r))) in *.
  assert (Hentry_nd : NoDup entry).
  { rewrite Hcat in Hndc. apply NoDup_app in Hndc as (_ & _ & Hndc).
    by apply NoDup_app in Hndc as (? & _). }
  assert (HX : forall x, x ∈ X -> x ∉ entry).
  { rewrite Hcat in Hndc. apply NoDup_app in Hndc as (_ & Hd & _).
    intros x Hx Hx'. apply (Hd x Hx). apply elem_of_app. by left. }
  assert (HY : forall x, x ∈ Y -> x ∉ entry).
  { rewrite Hcat in Hndc. apply NoDup_app in Hndc as (_ & _ & Hndc).
    apply NoDup_app in Hndc as (_ & Hd & _). intros x Hx Hx'. by apply (Hd x). }
  assert (Hentry_in : forall n, n ∈ entry -> n ∈ Dom.kids (dom r) parent).
  { rewrite Forall_forall in Hsub. apply Hsub. by eapply list_elem_of_lookup_2. }
  assert (Hentry_p : forall n, n ∈ entry -> Dom.parentNode (dom r) !! n = Some parent).
  { intros n Hn. rewrite Forall_forall in Hkids. by apply Hkids, Hentry_in. }
  rewrite (itemRemoved_core r arg parent entry bs He Hbs Hentry_nd Hentry_p).
  set (r' := withItemNodes _ _).
  destruct (detachAll_spec entry (dom r) parent Hentry_nd Hentry_p)
    as (Hp' & Hc' & Hk' & Hn' & _).
  change (Dom.detachAll entry (dom r)) with (dom r') in Hp', Hc', Hk', Hn'.
  assert (Hkids' : Dom.kids (dom r') parent = (before ++ self r :: X ++ Y ++ after)%list).
  { rewrite Hk', Hk, Hcat. rewrite Hk, Hcat in Hnd.
    apply NoDup_app in Hnd as (_ & Hd1 & Hnd).
    apply NoDup_cons in Hnd as [Hs Hnd].
    rewrite <- !app_assoc in Hnd, Hs.
    apply NoDup_app in Hnd as (_ & _ & Hnd).
    apply NoDup_app in Hnd as (_ & Hd2 & _).
    rewrite filter_app, filter_cons_True.
    2:{ intros Hs'. apply Hs. in_app. }
    rewrite <- !app_assoc, !filter_app, filter_notin_self.
    rewrite !filter_notin_disjoint; [done|..].
    - intros x Hx Hx'. by apply (Hd2 x Hx'), elem_of_app; right.
    - done.
    - done.
    - intros x Hx Hx'. apply (Hd1 x Hx). right. in_app. }
  assert (Hbs_sub : forall b, b ∈ bs -> b ∈ subscriptions r).
  { destruct Hb as (_ & _ & Hb3 & _). intros b Hb'. apply Hb3.
    apply elem_of_concat. exists bs. split; [done|]. by eapply list_elem_of_lookup_2. }
  assert (Hother : forall b, b ∈ concat (spliceRemove pos (itemNodeBindings r)) ->
            (bindingNode b ∉ entry) /\ b ∈ subscriptions r).
  { destruct Ha as (_ & _ & _ & _ & Ha5). destruct Hb as (_ & _ & Hb3 & _).
    intros b Hb'. split.
    - rewrite Hbcat' in Hb'. apply elem_of_app in Hb' as [Hb'|Hb'].
      + apply HX. eapply bindings_nodes; [|exact Hb']. by apply Forall2_take.
      + apply HY. eapply bindings_nodes; [|exact Hb']. by apply Forall2_drop.
    - apply Hb3. rewrite Hbcat. rewrite Hbcat' in Hb'. in_app. }
  assert (Hmine : forall b, b ∈ bs -> bindingNode b ∈ entry).
  { destruct Ha as (_ & _ & _ & _ & Ha5).
    eapply (Forall2_lookup_lr _ _ _ _ _ _ Ha5); done. }
  assert (Hlive : forall b, b ∈ subscriptions r' ->
            b ∈ subscriptions r /\ (b ∉ bs)).
  { intros b Hb'. unfold r' in Hb'. cbn in Hb'.
    apply list_elem_of_filter in Hb' as [Hh Hb']. split; [done|].
    intros Hbb. apply Hh. apply list_elem_of_In, in_map, list_elem_of_In, Hbb. }
  assert (Hgone : forall b, b ∈ subscriptions r' -> bindingNode b ∉ entry).
  { destruct Hb as (_ & _ & _ & Hb4). intros b Hb' Hnode.
    destruct (Hlive b Hb') as [Hs Hnb].
    assert (b ∈ concat (itemNodeBindings r)) as Hcb.
    { apply Hb4; [done|]. rewrite Hcat. in_app. }
    rewrite Hbcat in Hcb. apply elem_of_app in Hcb as [Hcb|Hcb].
    - assert (b ∈ concat (spliceRemove pos (itemNodeBindings r))) as Ho
        by (rewrite Hbcat'; in_app).
      by apply (proj1 (Hother b Ho)).
    - apply elem_of_app in Hcb as [Hcb|Hcb]; [done|].
      assert (b ∈ concat (spliceRemove pos (itemNodeBindings r))) as Ho
        by (rewrite Hbcat'; in_app).
      by apply (proj1 (Hother b Ho)). }
  exists r', parent, entry, bs. split_and!; try done.
  2:{ intros n Hn. split_and!.
      - by apply Hentry_p.
      - by apply Hentry_in.
      - by rewrite Hp', decide_True.
      - rewrite Hk'. intros Hf. apply list_elem_of_filter in Hf as [Hf _]. done. }
  2:{ intros b Hb'. split; [by apply Hbs_sub|]. intros Hl'.
      by destruct (Hlive b Hl'). }
  split_and!.
  - exists tpl. split_and!; [done..|]. by apply Forall_spliceRemove.
  - exists parent. unfold laidOut. cbn zeta. split_and!.
    + change (self r') with (self r). rewrite Hp', decide_False; [done|].
      intros Hs. rewrite Hk in Hnd. apply NoDup_app in Hnd as (_ & _ & Hnd).
      apply NoDup_cons in Hnd as [Hs' _]. apply Hs'.
      rewrite Hcat. in_app.
    + by rewrite Hn'.
    + rewrite Hk'. by apply NoDup_filter.
    + rewrite Hk', Hn'. apply Forall_forall. intros x Hx.
      apply list_elem_of_filter in Hx as [Hx1 Hx2].
      rewrite Hp', decide_False by done.
      rewrite Forall_forall in Hkids. by apply Hkids.
    + exists before, after. change (self r') with (self r).
      change (itemNodes r') with (spliceRemove pos (itemNodes r)).
      rewrite Hkids', Hcat'. by list_norm.
  - exists (spliceRemove pos cs). destruct Ha as (Ha1 & Ha2 & Ha3 & Ha4 & Ha5).
    unfold alignedWith. split_and!.
    + by apply Forall2_spliceRemove.
    + by apply Forall_spliceRemove.
    + by apply (Forall2_spliceRemove _ pos _ _ Ha3).
    + by apply (Forall2_spliceRemove _ pos _ _ Ha4).
    + by apply (Forall2_spliceRemove _ pos _ _ Ha5).
  - destruct Hb as (Hb1 & Hb2 & Hb3 & Hb4). unfold bound. split_and!.
    + by apply NoDup_fmap_filter.
    + apply Forall_forall. intros b Hb'. destruct (Hlive b Hb') as [Hs _].
      rewrite Forall_forall in Hb2. rewrite Hn'. by apply Hb2.
    + intros b Hb'. change (itemNodeBindings r')
        with (spliceRemove pos (itemNodeBindings r)) in Hb'.
      destruct (Hother b Hb') as [Hnode Hs].
      unfold r'. cbn. apply list_elem_of_filter. split; [|done].
      intros Hh. apply list_elem_of_In, in_map_iff in Hh as (b' & Hhb & Hb'').
      apply list_elem_of_In in Hb''.
      assert (b' = b) as ->.
      { eapply (NoDup_fmap_eq bindingHandle); eauto. }
      apply Hnode. by apply Hmine.
    + intros b Hb' Hnode.
      change (itemNodes r') with (spliceRemove pos (itemNodes r)) in Hnode.
      change (itemNodeBindings r') with (spliceRemove pos (itemNodeBindings r)).
      destruct (Hlive b Hb') as [Hs Hnb].
      assert (b ∈ concat (itemNodeBindings r)) as Hcb.
      { apply Hb4; [done|]. rewrite Hcat. rewrite Hcat' in Hnode. in_app. }
      rewrite Hbcat in Hcb. rewrite Hbcat'. in_app.
Qed.

(** ** Index alignment *)



(** ** The insertion point *)

Lemma last_concat (L : list (list nat)) entry l :
  last L = Some entry -> last entry = Some l -> last (concat L) = Some l.
Proof.
  intros [init ->]%last_Some [e' ->]%last_Some.
  rewrite concat_app. cbn [concat]. rewrite app_nil_r, !app_assoc.
  apply last_snoc.
Qed.

(** C2: [itemAdded] on a populated Repeater, at a position of the array,
    places the nodes of the clone among the children of the host's parent by
    the three-way rule: with no items, right after the host and before the
    host's next sibling; at a position below the item count, right before the
    first node of the entry at that position (as it was before the splice); at
    the item count, right after the last node of the last entry. *)
Theorem itemAdded_insertion_point (array : list Item) (r : Repeater.t)
    (arg : ObservableArrayEventArgs) :
  populated array r -> position arg <= length array ->
  exists r' parent clone A B,
    itemAdded arg r = Ok tt r'
    /\ Dom.parentNode (dom r) !! self r = Some parent
    /\ itemNodes r' = spliceInsert (position arg) clone (itemNodes r)
    /\ (forall n, n ∈ clone -> n ∉ Dom.kids (dom r) parent)
    /\ Dom.kids (dom r) parent = (A ++ B)%list
    /\ Dom.kids (dom r') parent = (A ++ clone ++ B)%list
    /\ (itemNodes r = [] ->
          last A = Some (self r)
          /\ head B = Dom.nextSibling (dom r) (self r))
    /\ (forall entry,
          position arg < length (itemNodes r) ->
          itemNodes r !! position arg = Some entry ->
          exists first, head entry = Some first /\ head B = Some first)
    /\ (forall entry l,
          itemNodes r <> [] -> position arg = length (itemNodes r) ->
          last (itemNodes r) = Some entry -> last entry = Some l ->
          last A = Some l /\ head B = Dom.nextSibling (dom r) l).
Proof.
  intros Hp Hpos.
  destruct (itemAdded_populated array r arg Hp Hpos)
    as (r' & parent & before & after & Hrun & _ & Hself & _ & HAB & Href
        & clone & Hi' & Hfresh & Hk').
  cbn zeta in *.
  destruct Hp as (Ht & _ & _ & _).
  pose proof (templated_nonempty r Ht) as Hne.
  exists r', parent, clone. eexists _, _.
  split_and!; [exact Hrun|exact Hself|exact Hi'|exact Hfresh|exact HAB|exact Hk'|..].
  - intros He. rewrite <- Href. unfold refNodeOf. rewrite He.
    rewrite take_nil. cbn [concat length Nat.eqb]. split; [|done].
    apply last_snoc.
  - intros entry Hlt He. rewrite <- Href. unfold refNodeOf.
    destruct (length (itemNodes r) =? 0)%nat eqn:E0;
      [apply Nat.eqb_eq in E0; lia|].
    apply Nat.ltb_lt in Hlt. rewrite Hlt, He.
    rewrite Forall_forall in Hne.
    destruct entry as [|first rest].
    + exfalso. eapply Hne; [|done]. by eapply list_elem_of_lookup_2.
    + by exists first.
  - intros entry l Hnil Hlen Hle Hll. rewrite <- Href. unfold refNodeOf.
    destruct (length (itemNodes r) =? 0)%nat eqn:E0.
    { apply Nat.eqb_eq in E0. by destruct (itemNodes r). }
    rewrite (proj2 (Nat.ltb_ge _ _)) by lia. rewrite Hle, Hll.
    split; [|done].
    rewrite take_ge by lia.
    by rewrite last_app, last_cons, (last_concat _ _ _ Hle Hll).
Qed.

(** ** Removal *)

Lemma foldl_patch_value r bs : forall d n,
  (forall b, b ∈ bs -> bindingNode b <> n) ->
  Dom.nodeValue (foldl (patch r) d bs) !! n = Dom.nodeValue d !! n.
Proof.
  induction bs as [|b bs IH]; intros d n Hn; [done|].
  cbn [foldl]. rewrite IH by (intros b' Hb'; apply Hn; by right).
  unfold patch, Dom.setValue. cbn. apply lookup_insert_ne. apply Hn. left.
Qed.

(** A change notification patches the text of the live records only and
    leaves every link of the document as it is. *)
Lemma valueChanged_frame context path v r :
  Dom.parentNode (dom (valueChanged context path v r)) = Dom.parentNode (dom r)
  /\ Dom.childNodes (dom (valueChanged context path v r)) = Dom.childNodes (dom r)
  /\ forall n,
       (forall b, b ∈ subscriptions r -> bindingNode b <> n) ->
       Dom.nodeValue (dom (valueChanged context path v r)) !! n
       = Dom.nodeValue (dom r) !! n.
Proof.
  unfold valueChanged. cbn.
  match goal with
  | |- context [foldl (patch ?x) ?d ?l] =>
      destruct (foldl_patch_frame x l d) as (-> & -> & _)
  end.
  split_and!; [done..|]. intros n Hn. apply foldl_patch_value.
  intros b Hb. apply list_elem_of_filter in Hb as [_ Hb]. by apply Hn.
Qed.

Lemma spliceRemove_split {A} (l : list A) (p : nat) (x : A) :
  l !! p = Some x ->
  exists l1 l2,
    l = (l1 ++ x :: l2)%list /\ length l1 = p
    /\ spliceRemove p l = (l1 ++ l2)%list.
Proof.
  intros H. exists (take p l), (drop (S p) l). split_and!.
  - by rewrite take_drop_middle.
  - apply length_take_le. apply lookup_lt_Some in H. lia.
  - done.
Qed.

(** C3: [itemRemoved] on a populated Repeater, at a position [p] of the
    array, returns; every record of the entry at [p] was live in the data
    binder and no longer is, so that a later change notification, for any
    path of any data context, changes neither the text nor the links of the
    entry's nodes; every node of the entry was a child of the host's parent
    and now has no parent and is not among that parent's children; and both
    [itemNodes] and [itemNodeBindings] have lost their entry at [p]: the
    [p] entries before it and the entries after it are what is left, in
    their order. *)
Theorem itemRemoved_cleanup (array : list Item) (r : Repeater.t)
    (arg : ObservableArrayEventArgs) :
  populated array r -> position arg < length array ->
  exists r' parent entry bs nodesBefore nodesAfter bindingsBefore bindingsAfter,
    itemRemoved arg r = Ok tt r'
    /\ Dom.parentNode (dom r) !! self r = Some parent
    /\ itemNodes r = (nodesBefore ++ entry :: nodesAfter)%list
    /\ length nodesBefore = position arg
    /\ itemNodeBindings r = (bindingsBefore ++ bs :: bindingsAfter)%list
    /\ length bindingsBefore = position arg
    /\ (forall b, b ∈ bs -> b ∈ subscriptions r /\ b ∉ subscriptions r')
    /\ (forall context path v n, n ∈ entry ->
          let r'' := valueChanged context path v r' in
          Dom.nodeValue (dom r'') !! n = Dom.nodeValue (dom r') !! n
          /\ Dom.parentNode (dom r'') = Dom.parentNode (dom r')
          /\ Dom.childNodes (dom r'') = Dom.childNodes (dom r'))
    /\ (forall n, n ∈ entry ->
          Dom.parentNode (dom r) !! n = Some parent
          /\ n ∈ Dom.kids (dom r) parent
          /\ Dom.parentNode (dom r') !! n = None
          /\ n ∉ Dom.kids (dom r') parent)
    /\ itemNodes r' = (nodesBefore ++ nodesAfter)%list
    /\ itemNodeBindings r' = (bindingsBefore ++ bindingsAfter)%list.
Proof.
  intros Hp Hpos.
  destruct (itemRemoved_populated array r arg Hp Hpos)
    as (r' & parent & entry & bs & Hrun & _ & Hself & He & Hb & Hi' & Hbi'
        & Hnodes & Hbs & Hlive).
  destruct (spliceRemove_split _ _ _ He) as (n1 & n2 & Hsn & Hn1 & Hsn').
  destruct (spliceRemove_split _ _ _ Hb) as (b1 & b2 & Hsb & Hb1 & Hsb').
  exists r', parent, entry, bs, n1, n2, b1, b2.
  rewrite Hsn' in Hi'. rewrite Hsb' in Hbi'. split_and!; try done.
  intros context path v n Hn r''.
  destruct (valueChanged_frame context path v r') as (H1 & H2 & H3).
  split_and!; [|done..].
  apply H3. intros b Hb' Heq. subst n. by apply (Hlive b Hb').
Qed.

(** ** Concrete runs of the Repeater *)

Lemma emptyRepeater_populated : populated [] emptyRepeater.
Proof.
  split_and!.
  - exists [mkTemplateNode 1 ["name"]; mkTemplateNode 3 []].
    split_and!; [vm_compute; reflexivity|discriminate|].
    replace (itemNodes emptyRepeater) with (@nil (list nat))
      by (vm_compute; reflexivity).
    constructor.
  - exists 0. unfold laidOut. cbn zeta.
    replace (Dom.kids (dom emptyRepeater) 0) with [1; 2; 3]
      by (vm_compute; reflexivity).
    replace (Dom.nextNode (dom emptyRepeater)) with 4 by (vm_compute; reflexivity).
    replace (self emptyRepeater) with 2 by (vm_compute; reflexivity).
    replace (itemNodes emptyRepeater) with (@nil (list nat))
      by (vm_compute; reflexivity).
    split_and!.
    + vm_compute. reflexivity.
    + lia.
    + apply (bool_decide_unpack _). vm_compute. exact I.
    + repeat (constructor; [split; [vm_compute; reflexivity|lia]|]).
      constructor.
    + by exists [1], [3].
  - exists []. unfold alignedWith.
    replace (itemNodes emptyRepeater) with (@nil (list nat))
      by (vm_compute; reflexivity).
    replace (itemNodeBindings emptyRepeater)
      with (@nil (list NodeDataBindingInformation)) by (vm_compute; reflexivity).
    split_and!; constructor.
  - unfold bound.
    replace (subscriptions emptyRepeater)
      with (@nil NodeDataBindingInformation) by (vm_compute; reflexivity).
    replace (itemNodes emptyRepeater) with (@nil (list nat))
      by (vm_compute; reflexivity).
    replace (itemNodeBindings emptyRepeater)
      with (@nil (list NodeDataBindingInformation)) by (vm_compute; reflexivity).
    split_and!; [constructor|constructor| |].
    + by intros b ?%elem_of_nil.
    + by intros b ?%elem_of_nil.
Qed.

Lemma oneItemRepeater_populated : populated ["x"] oneItemRepeater.
Proof.
  destruct (itemAdded_populated [] emptyRepeater (mkArgs "x" 0)
              emptyRepeater_populated (Nat.le_refl 0))
    as (r' & ? & ? & ? & Hrun & Hp & _).
  unfold oneItemRepeater. by rewrite Hrun.
Qed.

Lemma twoItemRepeater_populated : populated ["y"; "x"] twoItemRepeater.
Proof.
  destruct (itemAdded_populated ["x"] oneItemRepeater (mkArgs "y" 0)
              oneItemRepeater_populated (Nat.le_0_l 1))
    as (r' & ? & ? & ? & Hrun & Hp & _).
  unfold twoItemRepeater. by rewrite Hrun.
Qed.


Lemma itemAdded_insertion_point_witness :
  exists r' parent clone A B,
    itemAdded (mkArgs "y" 0) oneItemRepeater = Ok tt r'
    /\ Dom.parentNode (dom oneItemRepeater) !! self oneItemRepeater = Some parent
    /\ itemNodes r' = spliceInsert (position (mkArgs "y" 0)) clone (itemNodes oneItemRepeater)
    /\ (forall n, n ∈ clone -> n ∉ Dom.kids (dom oneItemRepeater) parent)
    /\ Dom.kids (dom oneItemRepeater) parent = (A ++ B)%list
    /\ Dom.kids (dom r') parent = (A ++ clone ++ B)%list
    /\ (itemNodes oneItemRepeater = [] ->
          last A = Some (self oneItemRepeater)
          /\ head B = Dom.nextSibling (dom oneItemRepeater) (self oneItemRepeater))
    /\ (forall entry,
          position (mkArgs "y" 0) < length (itemNodes oneItemRepeater) ->
          itemNodes oneItemRepeater !! position (mkArgs "y" 0) = Some entry ->
          exists first, head entry = Some first /\ head B = Some first)
    /\ (forall entry l,
          itemNodes oneItemRepeater <> [] ->
          position (mkArgs "y" 0) = length (itemNodes oneItemRepeater) ->
          last (itemNodes oneItemRepeater) = Some entry -> last entry = Some l ->
          last A = Some l /\ head B = Dom.nextSibling (dom oneItemRepeater) l).
Proof.
  refine (itemAdded_insertion_point ["x"] oneItemRepeater (mkArgs "y" 0)
            oneItemRepeater_populated _).
  cbn. lia.
Defined.

Lemma itemRemoved_cleanup_witness :
  exists r' parent entry bs nodesBefore nodesAfter bindingsBefore bindingsAfter,
    itemRemoved (mkArgs "x" 1) twoItemRepeater = Ok tt r'
    /\ Dom.parentNode (dom twoItemRepeater) !! self twoItemRepeater = Some parent
    /\ itemNodes twoItemRepeater = (nodesBefore ++ entry :: nodesAfter)%list
    /\ length nodesBefore = position (mkArgs "x" 1)
    /\ itemNodeBindings twoItemRepeater
       = (bindingsBefore ++ bs :: bindingsAfter)%list
    /\ length bindingsBefore = position (mkArgs "x" 1)
    /\ (forall b, b ∈ bs ->
          b ∈ subscriptions twoItemRepeater /\ b ∉ subscriptions r')
    /\ (forall context path v n, n ∈ entry ->
          let r'' := valueChanged context path v r' in
          Dom.nodeValue (dom r'') !! n = Dom.nodeValue (dom r') !! n
          /\ Dom.parentNode (dom r'') = Dom.parentNode (dom r')
          /\ Dom.childNodes (dom r'') = Dom.childNodes (dom r'))
    /\ (forall n, n ∈ entry ->
          Dom.parentNode (dom twoItemRepeater) !! n = Some parent
          /\ n ∈ Dom.kids (dom twoItemRepeater) parent
          /\ Dom.parentNode (dom r') !! n = None
          /\ n ∉ Dom.kids (dom r') parent)
    /\ itemNodes r' = (nodesBefore ++ nodesAfter)%list
    /\ itemNodeBindings r' = (bindingsBefore ++ bindingsAfter)%list.
Proof.
  refine (itemRemoved_cleanup ["y"; "x"] twoItemRepeater (mkArgs "x" 1)
            twoItemRepeater_populated _).
  cbn. lia.
Defined.

(** The array starts as [x]; adding [y] at position 0 puts the nodes of [y]
    (8 and 9) before those of [x] (5 and 6), right after the host (2). *)
Example add_before_existing_item :
  itemNodes oneItemRepeater = [[5; 6]]
  /\ Dom.kids (dom oneItemRepeater) 0 = [1; 2; 5; 6; 3]
  /\ itemAdded (mkArgs "y" 0) oneItemRepeater = Ok tt twoItemRepeater
  /\ itemNodes twoItemRepeater = [[8; 9]; [5; 6]]
  /\ Dom.kids (dom twoItemRepeater) 0 = [1; 2; 8; 9; 5; 6; 3]
  /\ (Dom.valueOf (dom twoItemRepeater) <$> [8; 5]) = ["y"; "x"].
Proof. evaluate. Qed.

(** The array is [y; x]; removing position 1 leaves the nodes of [y], and a
    later change of the data context of [x] (context 0) does not reach the
    removed nodes, while a change of the data context of [y] (context 1)
    still patches the nodes of [y]. *)
Example remove_second_item :
  let r := finalState (itemRemoved (mkArgs "x" 1) twoItemRepeater) in
  itemRemoved (mkArgs "x" 1) twoItemRepeater = Ok tt r
  /\ itemNodes r = [[8; 9]]
  /\ Dom.kids (dom r) 0 = [1; 2; 8; 9; 3]
  /\ (bindingNode <$> subscriptions twoItemRepeater) = [5; 8]
  /\ (bindingNode <$> subscriptions r) = [8]
  /\ Dom.valueOf (dom (valueChanged 0 "name" "x2" r)) 5 = "x"
  /\ Dom.valueOf (dom (valueChanged 1 "name" "y2" r)) 8 = "y2".
Proof. evaluate. Qed.

(** ** attachedCallback *)

Section RuntimeErrors.

Lemma ore_ret {A} (a : A) : onlyRuntimeErrors (ret a).
Proof. by intros r e r'. Qed.

Lemma ore_gets {A} (f : Repeater.t -> A) : onlyRuntimeErrors (gets f).
Proof. by intros r e r'. Qed.

Lemma ore_modify (f : Repeater.t -> Repeater.t) : onlyRuntimeErrors (modify f).
Proof. by intros r e r'. Qed.

Lemma ore_typeError {A} : onlyRuntimeErrors (throw TypeError : M Repeater.t A).
Proof. intros r e r' [= <- _]. by left. Qed.

Lemma ore_deref {A} (x : option A) : onlyRuntimeErrors (deref x).
Proof. destruct x; [apply ore_ret|apply ore_typeError]. Qed.

Lemma ore_bind {A B} (m : M Repeater.t A) (k : A -> M Repeater.t B) :
  onlyRuntimeErrors m -> (forall a, onlyRuntimeErrors (k a)) ->
  onlyRuntimeErrors (bind m k).
Proof.
  intros Hm Hk r e r'. unfold bind.
  destruct (m r) as [a r1|e1 r1|r1] eqn:E; [|intros [= <- _]|done].
  - apply Hk.
  - by eapply Hm.
Qed.

Lemma ore_domCall f :
  (forall d e, f d = inl e -> e = NotFoundError) -> onlyRuntimeErrors (domCall f).
Proof.
  intros Hf r e r'. unfold domCall.
  destruct (f (dom r)) as [e1|d] eqn:E; [|done].
  intros [= <- _]. right. by eapply Hf.
Qed.

Lemma insertBefore_error p node ref d e :
  Dom.insertBefore p node ref d = inl e -> e = NotFoundError.
Proof.
  unfold Dom.insertBefore. destruct (match ref with Some _ => _ | None => _ end);
    [done|]. by intros [= <-].
Qed.

Lemma removeChild_error p child d e :
  Dom.removeChild p child d = inl e -> e = NotFoundError.
Proof.
  unfold Dom.removeChild. destruct (bool_decide _); [done|]. by intros [= <-].
Qed.

Lemma ore_removeNodes ns : onlyRuntimeErrors (removeNodes ns).
Proof.
  induction ns as [|n ns IH]; cbn [removeNodes]; [apply ore_ret|].
  apply ore_bind; [apply ore_gets|]. intros p.
  apply ore_bind; [apply ore_deref|]. intros p'.
  apply ore_bind; [|by intros _].
  apply ore_domCall. intros d e. apply removeChild_error.
Qed.

Lemma ore_importNode : onlyRuntimeErrors importNode.
Proof.
  unfold importNode. apply ore_bind; [apply ore_gets|]. intros ts.
  apply ore_bind; [apply ore_deref|]. intros ts' r e r'.
  destruct (Dom.create _ _ _ _) as [f d]. by destruct (createNodes _ _).
Qed.

Lemma ore_prepareNodes ns c : onlyRuntimeErrors (prepareNodes ns c).
Proof.
  induction ns as [|n ns IH]; cbn [prepareNodes]; [apply ore_ret|].
  apply ore_bind; [apply ore_modify|]. intros _.
  apply ore_bind; [apply ore_ret|]. intros _.
  apply ore_bind; [by intros r e r'|]. intros _.
  apply ore_bind; [apply IH|]. intros ns'. apply ore_ret.
Qed.

Lemma ore_collectBindings ns c : onlyRuntimeErrors (collectBindings ns c).
Proof.
  induction ns as [|n ns IH]; cbn [collectBindings]; [apply ore_ret|].
  apply ore_bind; [by intros r e r'|]. intros bs.
  apply ore_bind; [apply IH|]. intros more. apply ore_ret.
Qed.

Lemma ore_populateLoop items : forall refNode,
  onlyRuntimeErrors (populateLoop items refNode).
Proof.
  induction items as [|x items IH]; intros refNode; cbn [populateLoop];
    [apply ore_ret|].
  apply ore_bind; [by intros r e r'|]. intros c.
  apply ore_bind; [apply ore_importNode|]. intros clone.
  apply ore_bind; [apply ore_gets|]. intros children.
  apply ore_bind; [apply ore_prepareNodes|]. intros cloneNodes.
  apply ore_bind; [apply ore_modify|]. intros _.
  apply ore_bind; [apply ore_gets|]. intros this.
  apply ore_bind; [apply ore_gets|]. intros p.
  apply ore_bind; [apply ore_deref|]. intros p'.
  apply ore_bind.
  { apply ore_domCall. intros d e. apply insertBefore_error. }
  intros _.
  apply ore_bind; [apply ore_deref|]. intros l.
  apply ore_bind; [apply ore_gets|]. intros ref'.
  apply ore_bind; [apply ore_collectBindings|]. intros bs.
  apply ore_bind; [apply ore_modify|]. intros _. apply IH.
Qed.

Lemma ore_dataContextUpdated : onlyRuntimeErrors dataContextUpdated.
Proof.
  unfold dataContextUpdated.
  apply ore_bind; [apply ore_gets|]. intros nodes.
  apply ore_bind; [apply ore_removeNodes|]. intros _.
  apply ore_bind; [apply ore_modify|]. intros _.
  apply ore_bind; [apply ore_modify|]. intros _.
  apply ore_bind.
  { unfold populateAllItems.
    apply ore_bind; [apply ore_gets|]. intros array.
    apply ore_bind; [apply ore_gets|]. intros this.
    apply ore_bind; [apply ore_gets|]. intros refNode.
    apply ore_bind; [|by intros _ r e r'].
    destruct array;
      [apply ore_populateLoop|apply ore_populateLoop|apply ore_ret
      |apply ore_typeError]. }
  intros _. apply ore_bind; [apply ore_gets|].
  intros [items|items| |]; [apply ore_modify|apply ore_typeError..].
Qed.

Lemma ore_bindItemEvents attrs : onlyRuntimeErrors (bindItemEvents attrs).
Proof.
  induction attrs as [|[name value] attrs IH]; cbn [bindItemEvents];
    [apply ore_ret|].
  apply ore_bind; [|by intros _].
  destruct (Js.startsWith _ _); [|apply ore_ret].
  apply ore_bind; [apply ore_gets|]. intros [members|]; [|apply ore_typeError].
  destruct (bool_decide _); [apply ore_modify|apply ore_ret].
Qed.

End RuntimeErrors.

(** The two configuration errors: each is thrown in its case, before
    anything is rendered or subscribed, and [attachedCallback] throws an
    [Error] of its own in no other case. *)
Lemma attachedCallback_configuration_errors (r : Repeater.t) :
  (templateElement r = None ->
   attachedCallback r
   = Throw (Error ("Template undefined for repeater component."
                   ++ " A repeater element should always contain a template element."))
           (withTemplate (fun _ => None) r))
  /\ (forall tpl, templateElement r = Some tpl ->
      isObservableArray (dataContext r) = false ->
      attachedCallback r
      = Throw (Error ("Invalid data context for repeater component."
                      ++ " A repeater element should have an observable array set as the data context."))
              (withTemplate (fun _ => Some tpl) r))
  /\ (forall msg r', attachedCallback r = Throw (Error msg) r' ->
      templateElement r = None \/ isObservableArray (dataContext r) = false).
Proof.
  split_and!.
  - intros Ht. unfold attachedCallback. rewrite bind_gets, bind_modify, Ht. done.
  - intros tpl Ht Hd. unfold attachedCallback.
    rewrite bind_gets, bind_modify, Ht, bind_gets.
    change (dataContext (withTemplate _ r)) with (dataContext r).
    by destruct (dataContext r).
  - intros msg r'. unfold attachedCallback. rewrite bind_gets, bind_modify.
    destruct (templateElement r) as [tpl|]; [|by left].
    rewrite bind_gets. change (dataContext (withTemplate _ r)) with (dataContext r).
    destruct (dataContext r) as [items|items| |] eqn:Hd; [|by right..].
    intros H. exfalso.
    assert (Hore : onlyRuntimeErrors
              (let* attrs := gets hostAttributes in
               bindItemEvents attrs;;
               modify (withDataContextHandlers S);;
               dataContextUpdated)).
    { apply ore_bind; [apply ore_gets|]. intros attrs.
      apply ore_bind; [apply ore_bindItemEvents|]. intros _.
      apply ore_bind; [apply ore_modify|]. intros _.
      apply ore_dataContextUpdated. }
    by destruct (Hore _ _ _ H).
Qed.

(** C6, the failing inputs: a host with a template and an observable array,
    declaring the item event [click], throws a [TypeError] when it has no
    enclosing component (the diagnostic for the missing callback reads
    [this.parentComponent.tagName]); and a host whose template has no content
    throws a [TypeError] when the array is not empty ([populateAllItems] reads
    the last node of the empty clone).  Neither is one of the two
    configuration cases. *)
Theorem attachedCallback_other_failures :
  let r1 := freshRepeater None twoNodes ["x"] in
  let r2 := freshRepeater (Some {["onClick"]}) (Some []) ["x"] in
  (templateElement r1 <> None /\ dataContext r1 = ObservableArray ["x"]
   /\ attachedCallback r1 = Throw TypeError (finalState (attachedCallback r1)))
  /\ (templateElement r2 <> None /\ dataContext r2 = ObservableArray ["x"]
      /\ attachedCallback r2 = Throw TypeError (finalState (attachedCallback r2))).
Proof.
  intros r1 r2.
  split_and!;
    lazymatch goal with
    | |- _ <> _ => let H := fresh in intros H; vm_compute in H; discriminate H
    | |- _ => vm_compute; reflexivity
    end.
Qed.


(** A template without content is outside [populated]: bound to an empty
    array the Repeater renders nothing, the first item added gets an entry
    without nodes, and the next append reads the last node of that entry and
    throws, leaving the lists as they were. *)
Example empty_template_append :
  let r0 := finalState
              (attachedCallback (freshRepeater (Some {["onClick"]}) (Some []) [])) in
  let r1 := finalState (itemAdded (mkArgs "a" 0) r0) in
  itemAdded (mkArgs "a" 0) r0 = Ok tt r1
  /\ itemNodes r1 = [[]]
  /\ itemAdded (mkArgs "b" 1) r1 = Throw TypeError (finalState (itemAdded (mkArgs "b" 1) r1))
  /\ itemNodes (finalState (itemAdded (mkArgs "b" 1) r1)) = [[]].
Proof. evaluate. Qed.


(** * Further properties of Component.ts *)

Import Component.

(** ** Runs that keep a property *)

Section Keeps.

Context {St : Type} (P : St -> Prop).

Lemma keeps_ret {A} (a : A) : keeps P (ret a).
Proof. by intros s. Qed.

Lemma keeps_throw {A} e : keeps P (throw e : M St A).
Proof. by intros s. Qed.

Lemma keeps_timeout {A} : keeps P (timeout : M St A).
Proof. by intros s. Qed.

Lemma keeps_gets {A} (f : St -> A) : keeps P (gets f).
Proof. by intros s. Qed.

Lemma keeps_modify (f : St -> St) : (forall s, P s -> P (f s)) -> keeps P (modify f).
Proof. intros Hf s Hs. by apply Hf. Qed.

Lemma keeps_bind {A B} (m : M St A) (k : A -> M St B) :
  keeps P m -> (forall a, keeps P (k a)) -> keeps P (bind m k).
Proof.
  intros Hm Hk s Hs. specialize (Hm s Hs). unfold bind.
  destruct (m s) as [a s1|e s1|s1]; [|done..]. by apply Hk.
Qed.

End Keeps.

(** ** Steps of the object store *)

Lemma update_run this f w c :
  objects w !! this = Some c ->
  update this f w = Ok tt (withObjects (<[this := f c]>) w).
Proof. intros Hc. unfold update, modify, withObjects. by rewrite Hc. Qed.

Lemma object_run this w c : objects w !! this = Some c -> object this w = Ok c w.
Proof. intros Hc. unfold object. by rewrite Hc. Qed.

Lemma withObjects_id this c w :
  objects w !! this = Some c -> withObjects (<[this := c]>) w = w.
Proof.
  intros Hc. destruct w. unfold withObjects. cbn in *. f_equal. by apply insert_id.
Qed.

Lemma withObjects_twice this c c' w :
  withObjects (<[this := c']>) (withObjects (<[this := c]>) w)
  = withObjects (<[this := c']>) w.
Proof. unfold withObjects. cbn. f_equal. apply insert_insert_eq. Qed.

(** ** Steps of the DOM store *)

Lemma without_notin x (l : list nat) : x ∉ l -> Dom.without x l = l.
Proof.
  induction l as [|y l IH]; [done|]. intros H.
  apply not_elem_of_cons in H as [Hne H]. unfold Dom.without.
  rewrite filter_cons_True by done. f_equal. by apply IH.
Qed.

Lemma without_snoc x (l : list nat) : x ∉ l -> Dom.without x (l ++ [x]) = l.
Proof.
  intros H. unfold Dom.without. rewrite filter_app.
  fold (Dom.without x l). rewrite without_notin by done.
  rewrite filter_cons_False by (intros H'; by apply H'). cbn. apply app_nil_r.
Qed.

Lemma without_app_middle (P R : list nat) x :
  NoDup (P ++ x :: R) -> Dom.without x (P ++ x :: R) = (P ++ R)%list.
Proof.
  intros Hnd. apply NoDup_app in Hnd as (_ & Hd & Hnd).
  apply NoDup_cons in Hnd as [Hx _].
  unfold Dom.without. rewrite filter_app, filter_cons_False by (intros H; by apply H).
  fold (Dom.without x P). fold (Dom.without x R).
  rewrite !without_notin; [done|done|].
  intros Hin. eapply Hd; [done|left].
Qed.

Lemma detach_frame n d :
  Dom.nodeValue (Dom.detach n d) = Dom.nodeValue d
  /\ Dom.attributes (Dom.detach n d) = Dom.attributes d
  /\ Dom.nodeType (Dom.detach n d) = Dom.nodeType d
  /\ Dom.nextNode (Dom.detach n d) = Dom.nextNode d.
Proof. unfold Dom.detach. by destruct (Dom.parentNode d !! n). Qed.

Lemma detachAll_frame ns : forall d,
  Dom.nodeValue (Dom.detachAll ns d) = Dom.nodeValue d
  /\ Dom.attributes (Dom.detachAll ns d) = Dom.attributes d
  /\ Dom.nodeType (Dom.detachAll ns d) = Dom.nodeType d
  /\ Dom.nextNode (Dom.detachAll ns d) = Dom.nextNode d.
Proof.
  induction ns as [|n ns IH]; intros d; [done|].
  change (Dom.detachAll (n :: ns) d) with (Dom.detachAll ns (Dom.detach n d)).
  destruct (IH (Dom.detach n d)) as (-> & -> & -> & ->). apply detach_frame.
Qed.

Lemma insertBefore_frame p node ref d d' :
  Dom.insertBefore p node ref d = inr d' ->
  Dom.nodeValue d' = Dom.nodeValue d /\ Dom.attributes d' = Dom.attributes d
  /\ Dom.nodeType d' = Dom.nodeType d /\ Dom.nextNode d' = Dom.nextNode d.
Proof.
  unfold Dom.insertBefore.
  destruct (match ref with Some _ => _ | None => _ end); [|done].
  intros [= <-]. cbn. apply detachAll_frame.
Qed.

Lemma removeChild_frame p child d d' :
  Dom.removeChild p child d = inr d' ->
  Dom.nodeValue d' = Dom.nodeValue d /\ Dom.attributes d' = Dom.attributes d
  /\ Dom.nodeType d' = Dom.nodeType d /\ Dom.nextNode d' = Dom.nextNode d.
Proof.
  unfold Dom.removeChild. destruct (bool_decide _); [|done].
  intros [= <-]. apply detach_frame.
Qed.

(** [target.appendChild(child)] for a child of another parent. *)
Lemma appendChild_moves d source target child T :
  source <> target ->
  Dom.parentNode d !! child = Some source ->
  Dom.typeOf d child <> Dom.DOCUMENT_FRAGMENT_NODE ->
  Dom.kids d target = T ->
  exists d', Dom.appendChild target child d = inr d'
    /\ Dom.kids d' source = Dom.without child (Dom.kids d source)
    /\ Dom.kids d' target = (T ++ [child])%list
    /\ (forall k, Dom.parentNode d' !! k
                  = if decide (k = child) then Some target else Dom.parentNode d !! k)
    /\ Dom.nodeType d' = Dom.nodeType d.
Proof.
  intros Hne Hp Hty HT. unfold Dom.appendChild, Dom.insertBefore.
  rewrite decide_False by done.
  apply Nat.eqb_neq in Hty. rewrite Hty.
  change (Dom.detachAll [child] d) with (Dom.detach child d).
  rewrite (detach_parent d child source Hp).
  eexists. split; [reflexivity|]. split_and!.
  - unfold Dom.kids at 1. cbn. rewrite lookup_insert_ne by done.
    by rewrite lookup_insert_eq.
  - unfold Dom.kids at 1. cbn. rewrite lookup_insert_eq. cbn.
    unfold Dom.kids at 1. cbn. rewrite lookup_insert_ne by done.
    fold (Dom.kids d target). by rewrite HT.
  - intros k. cbn. destruct (decide (k = child)) as [->|Hk].
    + apply lookup_insert_eq.
    + rewrite lookup_insert_ne by done. by apply lookup_delete_ne.
  - done.
Qed.

(** ** The constructor *)

(** X1: a component whose template is missing: the constructor throws its
    [Error] before it creates an element or touches the binding counter; the
    object under construction is the only trace. *)
Theorem constructor_without_template
    (construct : string -> nat -> M World nat) (fuel : nat) (id : string)
    (parent : option nat) (w : World) :
  templates w !! ("template_" ++ id) = None ->
  exists w',
    constructor construct fuel id parent w
    = Throw (Error "Tried to instantiate non-existing template") w'
    /\ dom w' = dom w
    /\ bindingIdCounter w' = bindingIdCounter w
    /\ forall this, this <> nextObject w -> objects w' !! this = objects w !! this.
Proof.
  intros Ht. unfold constructor, newObject. unfold bind at 1.
  rewrite bind_gets. cbn [templates]. rewrite Ht.
  eexists. split; [reflexivity|]. split_and!; [done..|].
  intros this Hne. cbn. by apply lookup_insert_ne.
Qed.

Lemma constructor_without_template_witness :
  exists w',
    constructor noClasses 5 "T" None (document [])
    = Throw (Error "Tried to instantiate non-existing template") w'
    /\ dom w' = dom (document [])
    /\ bindingIdCounter w' = bindingIdCounter (document [])
    /\ forall this, this <> nextObject (document []) ->
         objects w' !! this = objects (document []) !! this.
Proof.
  refine (constructor_without_template noClasses 5 "T" None (document []) _).
  vm_compute. reflexivity.
Defined.

(** *** The loop that moves the parsed nodes under the root *)

Lemma moveChildren_S budget source target i w :
  moveChildren (S budget) source target i w
  = if (i <? length (Dom.kids (dom w) source))%nat then
      match Dom.kids (dom w) source !! i with
      | None => Throw TypeError w
      | Some child =>
          match Dom.appendChild target child (dom w) with
          | inr d => moveChildren budget source target (S i) (withDom (fun _ => d) w)
          | inl e => Throw e w
          end
      end
    else Ok tt w.
Proof.
  cbn [moveChildren]. rewrite bind_gets.
  destruct (i <? _)%nat; [|done].
  destruct (_ !! i) as [child|]; [|done].
  cbn [deref]. rewrite bind_ret. unfold bind, domCall.
  by destruct (Dom.appendChild _ _ _).
Qed.

Lemma moveChildren_from R : forall P T budget source target w,
  source <> target ->
  Dom.kids (dom w) source = (P ++ R)%list ->
  Dom.kids (dom w) target = T ->
  NoDup (P ++ R) ->
  (forall n, n ∈ R ->
     Dom.parentNode (dom w) !! n = Some source
     /\ Dom.typeOf (dom w) n <> Dom.DOCUMENT_FRAGMENT_NODE) ->
  length R < budget ->
  exists w',
    moveChildren budget source target (length P) w = Ok tt w'
    /\ Dom.kids (dom w') target = (T ++ evens R)%list
    /\ Dom.kids (dom w') source = (P ++ odds R)%list.
Proof.
  induction R as [R IH] using (induction_ltof1 _ (@length nat)). unfold ltof in IH.
  intros P T budget source target w Hne Hs Ht Hnd Hp Hb.
  destruct budget as [|budget]; [lia|].
  rewrite moveChildren_S, Hs.
  destruct R as [|x R].
  { rewrite app_nil_r, Nat.ltb_irrefl. exists w. cbn [evens odds].
    rewrite app_nil_r in Hs. by rewrite !app_nil_r. }
  rewrite length_app. cbn [length].
  rewrite (proj2 (Nat.ltb_lt _ _)) by lia.
  rewrite lookup_app_r, Nat.sub_diag by lia. cbn [lookup list_lookup].
  destruct (Hp x) as [Hpx Htx]; [left|].
  destruct (appendChild_moves (dom w) source target x T Hne Hpx Htx Ht)
    as (d' & -> & Hks & Hkt & Hpn & Hnt).
  rewrite Hs, without_app_middle in Hks by done.
  set (w1 := withDom _ w).
  assert (Hnd' : NoDup (P ++ R)).
  { apply NoDup_app in Hnd as (H1 & H2 & H3). apply NoDup_cons in H3 as [_ H3].
    apply NoDup_app. split_and!; [done| |done].
    intros y Hy Hy'. eapply H2; [done|by right]. }
  assert (Hx : x ∉ R).
  { apply NoDup_app in Hnd as (_ & _ & H3). by apply NoDup_cons in H3 as [? _]. }
  destruct R as [|y R].
  { destruct budget as [|budget]; [cbn in Hb; lia|].
    rewrite moveChildren_S. change (dom w1) with d'. rewrite Hks, app_nil_r.
    rewrite (proj2 (Nat.ltb_ge _ _)) by lia.
    exists w1. cbn [evens odds]. change (dom w1) with d'.
    rewrite Hkt, Hks, !app_nil_r. by split_and!. }
  destruct (IH R) with (P := (P ++ [y])%list) (T := (T ++ [x])%list)
    (budget := budget) (source := source) (target := target) (w := w1)
    as (w' & Hrun & Hkt' & Hks'); try done.
  - cbn. lia.
  - change (dom w1) with d'. rewrite Hks. by rewrite <- app_assoc.
  - by rewrite <- app_assoc.
  - intros n Hn. change (dom w1) with d'. rewrite Hpn.
    unfold Dom.typeOf. rewrite Hnt. fold (Dom.typeOf (dom w) n).
    rewrite decide_False.
    + apply Hp. right. by right.
    + intros ->. apply Hx. by right.
  - cbn in Hb. lia.
  - exists w'. rewrite length_app in Hrun. cbn [length] in Hrun.
    replace (length P + 1) with (S (length P)) in Hrun by lia.
    split_and!; [done|..].
    + rewrite Hkt'. cbn. by rewrite <- app_assoc.
    + rewrite Hks'. cbn. by rewrite <- app_assoc.
Qed.

(** X2: the constructor's loop over [parsedDocument.body.childNodes] reads a live
    list: every [appendChild] takes the node at index [i] out of it, and the
    [i++] that follows steps over the node that moved into its place.  The
    root receives the parsed nodes at the even positions; those at the odd
    positions stay in the parsed body. *)
Theorem moveChildren_alternate (budget source target : nat) (w : World) :
  source <> target ->
  NoDup (Dom.kids (dom w) source) ->
  (forall n, n ∈ Dom.kids (dom w) source ->
     Dom.parentNode (dom w) !! n = Some source
     /\ Dom.typeOf (dom w) n <> Dom.DOCUMENT_FRAGMENT_NODE) ->
  length (Dom.kids (dom w) source) < budget ->
  exists w',
    moveChildren budget source target 0 w = Ok tt w'
    /\ Dom.kids (dom w') target
       = (Dom.kids (dom w) target ++ evens (Dom.kids (dom w) source))%list
    /\ Dom.kids (dom w') source = odds (Dom.kids (dom w) source).
Proof.
  intros Hne Hnd Hp Hb.
  by apply (moveChildren_from (Dom.kids (dom w) source) []).
Qed.

Lemma moveChildren_alternate_witness :
  exists w',
    moveChildren 4 2 1 0 parsedThree = Ok tt w'
    /\ Dom.kids (dom w') 1
       = (Dom.kids (dom parsedThree) 1 ++ evens (Dom.kids (dom parsedThree) 2))%list
    /\ Dom.kids (dom w') 2 = odds (Dom.kids (dom parsedThree) 2).
Proof.
  refine (moveChildren_alternate 4 2 1 parsedThree _ _ _ _).
  - lia.
  - apply (bool_decide_unpack _). vm_compute. exact I.
  - replace (Dom.kids (dom parsedThree) 2) with [3; 4; 5] by (vm_compute; reflexivity).
    intros n Hn.
    repeat (apply elem_of_cons in Hn as [->|Hn]);
      [..|by apply elem_of_nil in Hn];
      (split; [vm_compute; reflexivity
              |let H := fresh in intros H; vm_compute in H; discriminate H]).
  - replace (Dom.kids (dom parsedThree) 2) with [3; 4; 5] by (vm_compute; reflexivity).
    cbn. lia.
Defined.

(** A template with the three root-level nodes [<a>], text and [<b>]: the
    constructed root (node 1) holds the two elements (3 and 5), and the text
    (node 4) is left in the parsed body (node 2). *)
Example constructor_moves_every_other_node :
  let r := constructor noClasses 5 "T" None threeRoots in
  r = Ok 0 (finalState r)
  /\ Dom.kids (dom (finalState r)) 1 = [3; 5]
  /\ Dom.kids (dom (finalState r)) 2 = [4].
Proof. evaluate. Qed.

(** ** show, hide and destroy *)

(** X3: [show(replaceElement)] puts the root at the place of [replaceElement]
    among its siblings and takes [replaceElement] out of the document.  The
    DOM's own check that the new parent is not inside the inserted node is
    not part of the store; the last hypothesis keeps the statement to the
    insertions that the DOM accepts. *)
Theorem show_replaces_element (this : nat) (w : World) (c : Component.t)
    (root r parent : nat) (A B : list nat) :
  objects w !! this = Some c ->
  _isShowing c = false ->
  rootHtmlElement c = Some root ->
  match parentComponent c with
  | Some p => is_Some (objects w !! p)
  | None => True
  end ->
  Dom.parentNode (dom w) !! r = Some parent ->
  Dom.kids (dom w) parent = (A ++ r :: B)%list ->
  NoDup (Dom.kids (dom w) parent) ->
  Dom.parentNode (dom w) !! root = None ->
  Dom.typeOf (dom w) root <> Dom.DOCUMENT_FRAGMENT_NODE ->
  root ∉ Dom.kids (dom w) parent ->
  Dom.contains (dom w) root parent = false ->
  exists w',
    show this (Some r) w = Ok tt w'
    /\ Dom.kids (dom w') parent = (A ++ root :: B)%list
    /\ Dom.parentNode (dom w') !! root = Some parent
    /\ Dom.parentNode (dom w') !! r = None
    /\ objects w' !! this = Some (withIsShowing true c).
Proof.
  intros Hc Hs Hroot Hpc Hpr Hk Hnd Hdet Hty Hfresh _.
  assert (Hrr : r <> root) by (intros ->; congruence).
  assert (HrA : r ∉ A).
  { rewrite Hk in Hnd. apply NoDup_app in Hnd as (_ & Hd & _).
    intros Hin. eapply Hd; [done|left]. }
  assert (HrB : r ∉ B).
  { rewrite Hk in Hnd. apply NoDup_app in Hnd as (_ & _ & Hd).
    by apply NoDup_cons in Hd as [? _]. }
  unfold show. rewrite (bind_run _ _ _ _ _ (object_run _ _ _ Hc)), Hs.
  assert (Hap : exists ap,
    (match parentComponent c with
     | Some p => let* pc := object p in ret (rootHtmlElement pc)
     | None => let* b := gets body in ret (Some b)
     end) w = Ok ap w).
  { destruct (parentComponent c) as [p|].
    - destruct Hpc as [pc Hpc]. exists (rootHtmlElement pc).
      by rewrite (bind_run _ _ _ _ _ (object_run _ _ _ Hpc)).
    - by eexists. }
  destruct Hap as [ap Hap]. rewrite (bind_run _ _ _ _ _ Hap).
  unfold bind at 1. rewrite bind_gets, Hpr. cbn [deref]. rewrite bind_ret.
  rewrite Hroot. cbn [deref]. rewrite bind_ret.
  unfold bind at 1. unfold domCall at 1, Dom.insertBefore.
  rewrite bool_decide_eq_true_2 by done.
  rewrite decide_False by congruence.
  apply Nat.eqb_neq in Hty. rewrite Hty.
  change (Dom.detachAll [root] (dom w)) with (Dom.detach root (dom w)).
  unfold Dom.detach at 1 2. rewrite Hdet, Hk. cbn [Dom.place].
  rewrite placeBefore_app by done.
  set (w1 := withDom _ w).
  rewrite (bind_run _ _ _ _ _ (update_run this _ w1 c Hc)).
  set (w2 := withObjects _ w1).
  rewrite bind_gets.
  assert (Hpr2 : Dom.parentNode (dom w2) !! r = Some parent).
  { unfold w2, w1. cbn. by rewrite lookup_insert_ne. }
  rewrite Hpr2. cbn [deref]. rewrite bind_ret.
  unfold domCall, Dom.removeChild. rewrite bool_decide_eq_true_2 by done.
  rewrite (detach_parent _ r parent Hpr2).
  set (w3 := withDom _ w2).
  erewrite update_run; [|unfold w3, w2; cbn; apply lookup_insert_eq].
  eexists. split; [reflexivity|]. split_and!.
  - unfold Dom.kids at 1. cbn. rewrite lookup_insert_eq. cbn.
    unfold Dom.kids. cbn. rewrite lookup_insert_eq. cbn.
    change (A ++ [root] ++ r :: B)%list with (A ++ root :: r :: B)%list.
    replace (A ++ root :: r :: B)%list with ((A ++ [root]) ++ r :: B)%list
      by (by rewrite <- app_assoc).
    unfold Dom.without. rewrite filter_app, filter_cons_False by (intros H; by apply H).
    fold (Dom.without r (A ++ [root])). fold (Dom.without r B).
    rewrite !without_notin.
    + by rewrite <- app_assoc.
    + done.
    + rewrite elem_of_app, list_elem_of_singleton. intros [?|?]; done.
  - cbn. rewrite lookup_delete_ne by done. apply lookup_insert_eq.
  - cbn. apply lookup_delete_eq.
  - cbn. rewrite lookup_insert_eq. f_equal.
    destruct c. cbn in *. by subst.
Qed.

Lemma show_replaces_element_witness :
  exists w',
    show 0 (Some 6) placeholderWorld = Ok tt w'
    /\ Dom.kids (dom w') 0 = ([] ++ 1 :: [])%list
    /\ Dom.parentNode (dom w') !! 1 = Some 0
    /\ Dom.parentNode (dom w') !! 6 = None
    /\ objects w' !! 0
       = Some (withIsShowing true
                 (default (mk "" ∅ false None None ∅ ∅)
                          (objects placeholderWorld !! 0))).
Proof.
  refine (show_replaces_element 0 placeholderWorld _ 1 6 0 [] [] _ _ _ _ _ _ _ _ _ _ _).
  - vm_compute. reflexivity.
  - vm_compute. reflexivity.
  - vm_compute. reflexivity.
  - vm_compute. exact I.
  - vm_compute. reflexivity.
  - vm_compute. reflexivity.
  - apply (bool_decide_unpack _). vm_compute. exact I.
  - vm_compute. reflexivity.
  - intros H. vm_compute in H. discriminate H.
  - apply (bool_decide_unpack _). vm_compute. exact I.
  - vm_compute. reflexivity.
Defined.

(** X4: [show()] followed by [hide()] is a round trip: the root is appended
    under the body (or under the root of the parent component) and taken out
    again, and the world is as it was before. *)
Theorem show_then_hide (this : nat) (w : World) (c : Component.t)
    (root ap : nat) (T : list nat) :
  objects w !! this = Some c ->
  _isShowing c = false ->
  rootHtmlElement c = Some root ->
  match parentComponent c with
  | Some p => objects w !! p ≫= rootHtmlElement
  | None => Some (body w)
  end = Some ap ->
  Dom.isElement (dom w) ap = true ->
  Dom.childNodes (dom w) !! ap = Some T ->
  root ∉ T ->
  Dom.parentNode (dom w) !! root = None ->
  Dom.typeOf (dom w) root <> Dom.DOCUMENT_FRAGMENT_NODE ->
  Dom.contains (dom w) root ap = false ->
  (show this None;; hide this) w = Ok tt w.
Proof.
  intros Hc Hs Hroot Hap Hel HT Hfresh Hdet Hty _.
  unfold bind at 1. unfold show.
  rewrite (bind_run _ _ _ _ _ (object_run _ _ _ Hc)), Hs.
  assert (Hap' :
    (match parentComponent c with
     | Some p => let* pc := object p in ret (rootHtmlElement pc)
     | None => let* b := gets body in ret (Some b)
     end) w = Ok (Some ap) w).
  { destruct (parentComponent c) as [p|].
    - destruct (objects w !! p) as [pc|] eqn:Hpc; [|done]. cbn in Hap.
      rewrite (bind_run _ _ _ _ _ (object_run _ _ _ Hpc)). unfold ret. by rewrite Hap.
    - rewrite bind_gets. unfold ret. by rewrite Hap. }
  rewrite (bind_run _ _ _ _ _ Hap').
  unfold bind at 1. cbn [deref]. rewrite bind_ret, Hroot. cbn [deref].
  rewrite bind_ret. unfold bind at 1.
  unfold domCall at 1, Dom.appendChild, Dom.insertBefore.
  rewrite decide_False by done.
  apply Nat.eqb_neq in Hty. rewrite Hty.
  change (Dom.detachAll [root] (dom w)) with (Dom.detach root (dom w)).
  unfold Dom.detach at 1 2. rewrite Hdet. cbn [Dom.place].
  set (w1 := withDom _ w).
  rewrite (update_run this _ w1 c Hc).
  set (w2 := withObjects _ w1).
  erewrite update_run; [|unfold w2; cbn; apply lookup_insert_eq].
  set (w3 := withObjects _ w2).
  assert (Hc3 : objects w3 !! this
                = Some (withIsShowing true (withRootHtmlElement (Some root) c))).
  { unfold w3. cbn. apply lookup_insert_eq. }
  unfold hide. rewrite (bind_run _ _ _ _ _ (object_run this w3 _ Hc3)).
  cbn [_isShowing withIsShowing negb rootHtmlElement withRootHtmlElement deref].
  rewrite bind_ret, bind_gets.
  assert (Hpe : parentElement (dom w3) root = Some ap).
  { unfold parentElement, w3, w2, w1. cbn. rewrite lookup_insert_eq.
    unfold Dom.isElement, Dom.typeOf in *. cbn. by rewrite Hel. }
  rewrite Hpe. cbn [deref]. rewrite bind_ret.
  unfold bind at 1. unfold domCall at 1, Dom.removeChild.
  assert (Hp3 : Dom.parentNode (dom w3) !! root = Some ap).
  { unfold w3, w2, w1. cbn. apply lookup_insert_eq. }
  rewrite bool_decide_eq_true_2 by done.
  rewrite (detach_parent _ root ap Hp3).
  set (w4 := withDom _ w3).
  rewrite (bind_run _ _ _ _ _ (update_run this _ w4 _ Hc3)).
  erewrite update_run by (cbn; apply lookup_insert_eq).
  f_equal. destruct w as [d b ts ctr objs no vs nv]. cbn in *.
  unfold withObjects, withDom. cbn. f_equal.
  - destruct d as [pn cn nt at' nv' nn]. cbn in *.
    unfold Dom.withParentNode, Dom.withChildNodes, Dom.adopt, Dom.kids. cbn.
    rewrite lookup_insert_eq. cbn. rewrite HT. cbn.
    change (filter _ (T ++ [root])%list) with (Dom.without root (T ++ [root])).
    rewrite without_snoc by done.
    rewrite insert_insert_eq, (insert_id cn ap T) by done.
    by rewrite delete_insert_id.
  - rewrite !insert_insert_eq. apply insert_id. rewrite Hc. f_equal.
    destruct c. cbn in *. by subst.
Qed.

Lemma show_then_hide_witness :
  (show 0 None;; hide 0) builtWorld = Ok tt builtWorld.
Proof.
  refine (show_then_hide 0 builtWorld
            (default (mk "" ∅ false None None ∅ ∅) (objects builtWorld !! 0))
            1 0 [] _ _ _ _ _ _ _ _ _ _).
  - vm_compute. reflexivity.
  - vm_compute. reflexivity.
  - vm_compute. reflexivity.
  - vm_compute. reflexivity.
  - vm_compute. reflexivity.
  - vm_compute. reflexivity.
  - apply not_elem_of_nil.
  - vm_compute. reflexivity.
  - intros H. vm_compute in H. discriminate H.
  - vm_compute. reflexivity.
Defined.

Lemma hide_frame this w w' :
  hide this w = Ok tt w' ->
  exists c c', objects w !! this = Some c /\ objects w' !! this = Some c'
    /\ _isShowing c' = false
    /\ fields c' = fields c /\ textBindings c' = textBindings c
    /\ propertyBindings c' = propertyBindings c.
Proof.
  unfold hide. intros H. peel H as Hc.
  destruct (_isShowing _) eqn:Es; cbn [negb] in H.
  2:{ apply ret_Ok in H as [-> _]. exists x, x. split_and!; done. }
  peel H as H1. peel H as H2. peel H as H3. peel H as H4.
  unfold domCall, Dom.removeChild in H4.
  destruct (bool_decide _); [|done]. injection H4 as <- <-.
  set (w1 := withDom _ w) in H.
  rewrite (bind_run _ _ _ _ _ (update_run this _ w1 x Hc)) in H.
  rewrite (update_run this _ _ (withRootHtmlElement (Some x0) x)) in H
    by (cbn; apply lookup_insert_eq).
  injection H as <-. exists x. eexists. split; [done|].
  split; [cbn; apply lookup_insert_eq|]. split_and!; done.
Qed.

(** X5: [destroy()] hides the component and forgets its root and its parent, and
    nothing else: the records and the subscriptions of its callbacks stay.
    From then on [show] throws a [TypeError], whatever its argument, and so
    does the resolution of every path that has a record, which is what a
    later change of a bound observable starts. *)
Theorem destroy_leaves_bindings (this : nat) (w w' : World) :
  destroy this w = Ok tt w' ->
  exists c c',
    objects w !! this = Some c /\ objects w' !! this = Some c'
    /\ rootHtmlElement c' = None /\ parentComponent c' = None
    /\ _isShowing c' = false
    /\ fields c' = fields c /\ textBindings c' = textBindings c
    /\ (forall replaceElement, show this replaceElement w' = Throw TypeError w')
    /\ (forall path b bs fuel,
          textBindings c !! path = Some (b :: bs) ->
          triggerBindingUpdate (S fuel) this path w' = Throw TypeError w').
Proof.
  unfold destroy. intros H. apply bind_Ok in H as ([] & w1 & Hh & H).
  apply hide_frame in Hh as (c & c1 & Hc & Hc1 & Hs & Hf & Ht & _).
  rewrite (bind_run _ _ _ _ _ (update_run this _ w1 c1 Hc1)) in H.
  rewrite (update_run this _ _ (withRootHtmlElement None c1)) in H
    by (cbn; apply lookup_insert_eq).
  injection H as <-.
  set (c' := withParentComponent None (withRootHtmlElement None c1)).
  set (w' := withObjects _ (withObjects _ w1)).
  assert (Hc' : objects w' !! this = Some c').
  { unfold w'. cbn. apply lookup_insert_eq. }
  exists c, c'. split_and!; try done.
  - intros ro. unfold show.
    rewrite (bind_run _ _ _ _ _ (object_run this w' c' Hc')).
    cbn [c' _isShowing withParentComponent withRootHtmlElement parentComponent
         rootHtmlElement].
    rewrite Hs. unfold bind, gets, ret. cbn [deref].
    destruct ro as [r|]; [|done].
    by destruct (Dom.parentNode _ !! r).
  - intros path b bs fuel Hb. rewrite triggerBindingUpdate_unfold, Hc'.
    cbn [c' textBindings withParentComponent withRootHtmlElement].
    rewrite Ht, Hb, triggerLoop_S. cbn [length]. cbn [lookup list_lookup].
    by rewrite Hc'.
Qed.

Lemma destroy_leaves_bindings_witness :
  exists c c',
    objects shownWorld !! 0 = Some c
    /\ objects (finalState (destroy 0 shownWorld)) !! 0 = Some c'
    /\ rootHtmlElement c' = None /\ parentComponent c' = None
    /\ _isShowing c' = false
    /\ fields c' = fields c /\ textBindings c' = textBindings c
    /\ (forall replaceElement,
          show 0 replaceElement (finalState (destroy 0 shownWorld))
          = Throw TypeError (finalState (destroy 0 shownWorld)))
    /\ (forall path b bs fuel,
          textBindings c !! path = Some (b :: bs) ->
          triggerBindingUpdate (S fuel) 0 path (finalState (destroy 0 shownWorld))
          = Throw TypeError (finalState (destroy 0 shownWorld))).
Proof.
  refine (destroy_leaves_bindings 0 shownWorld (finalState (destroy 0 shownWorld)) _).
  vm_compute. reflexivity.
Defined.

(** The component built from [oneBinding], shown and destroyed: its record
    for [title] and the subscription of its callback are still there, and the
    resolution of [title] throws. *)
Example destroyed_component_still_bound :
  let w := finalState (destroy 0 shownWorld) in
  destroy 0 shownWorld = Ok tt w
  /\ (objects w !! 0 ≫= fun c => textBindings c !! "title")
     = Some [mkTextBinding 0 0 "title" "{{title}}" (TextCallback 0 3)]
  /\ (objects w !! 0 ≫= fun c => fields c !! "title")
     = Some (mkObservable "" [TextCallback 0 3])
  /\ triggerBindingUpdate 5 0 "title" w = Throw TypeError w
  /\ Dom.kids (dom w) 0 = [].
Proof. evaluate. Qed.

(** ** Binding discovery, step by step *)

(** One turn of the loop over the matches of a text node, with the monad
    unfolded. *)
Lemma registerMatches_cons this bindingId i nodeValue pathVar m rest w :
  registerMatches this bindingId i nodeValue pathVar (m :: rest) w
  = let w1 := withVars (<[pathVar := Js.pathOf m]>) w in
    match objects w !! this with
    | None => Throw TypeError w1
    | Some c =>
        match fields c !! Js.pathOf m with
        | None =>
            Throw TypeError
              (withObjects
                 (<[this := if Js.undefinedIn (textBindings c) (Js.pathOf m)
                            then withTextBindings (<[Js.pathOf m := []]>) c
                            else c]>) w1)
        | Some o =>
            let subscribed :=
              withFields
                (<[Js.pathOf m :=
                     mkObservable (value o)
                       (onValueChanged o ++ [TextCallback this pathVar])%list]>) c in
            match textBindings c !! Js.pathOf m with
            | None =>
                if Js.inherited (Js.pathOf m) then
                  Throw TypeError (withObjects (<[this := subscribed]>) w1)
                else
                  registerMatches this bindingId i nodeValue pathVar rest
                    (withObjects
                       (<[this := registered this pathVar bindingId i nodeValue m c o]>)
                       w1)
            | Some _ =>
                registerMatches this bindingId i nodeValue pathVar rest
                  (withObjects
                     (<[this := registered this pathVar bindingId i nodeValue m c o]>)
                     w1)
            end
        end
    end.
Proof.
  cbn zeta. cbn [registerMatches]. fold (Js.pathOf m). unfold setVar.
  rewrite bind_modify. set (w1 := withVars _ w).
  unfold bind at 1. unfold object at 1.
  change (objects w1) with (objects w).
  destruct (objects w !! this) as [c|] eqn:Hc; [|done].
  set (c1 := if Js.undefinedIn (textBindings c) (Js.pathOf m)
             then withTextBindings (<[Js.pathOf m := []]>) c
             else c).
  assert (Hinit :
    (if Js.undefinedIn (textBindings c) (Js.pathOf m)
     then update this (withTextBindings (<[Js.pathOf m := []]>))
     else ret tt) w1 = Ok tt (withObjects (<[this := c1]>) w1)).
  { unfold c1. destruct (Js.undefinedIn _ _).
    - by apply update_run.
    - by rewrite withObjects_id. }
  rewrite (bind_run _ _ _ _ _ Hinit).
  set (w2 := withObjects _ w1).
  assert (Hc2 : objects w2 !! this = Some c1) by (cbn; apply lookup_insert_eq).
  assert (Hf1 : fields c1 = fields c) by (unfold c1; by destruct (Js.undefinedIn _ _)).
  unfold subscribe. unfold bind at 1.
  rewrite (bind_run _ _ _ _ _ (object_run _ _ _ Hc2)), Hf1.
  destruct (fields c !! Js.pathOf m) as [o|] eqn:Ho; [|done].
  cbn [deref]. rewrite bind_ret.
  rewrite (update_run _ _ _ _ Hc2). unfold w2. rewrite withObjects_twice.
  set (c2 := withFields _ c1). set (w3 := withObjects _ w1).
  assert (Hc3 : objects w3 !! this = Some c2) by (cbn; apply lookup_insert_eq).
  rewrite (bind_run _ _ _ _ _ (object_run this w3 _ Hc3)).
  assert (Hb : textBindings c2 !! Js.pathOf m
               = match textBindings c !! Js.pathOf m with
                 | Some bs => Some bs
                 | None => if Js.inherited (Js.pathOf m) then None else Some []
                 end).
  { unfold c2, c1, Js.undefinedIn.
    destruct (textBindings c !! Js.pathOf m) eqn:E; [by cbn|].
    destruct (Js.inherited _); cbn; [done|apply lookup_insert_eq]. }
  rewrite Hb. cbn zeta.
  assert (Hreg : forall bs,
            textBindings c2 !! Js.pathOf m = Some bs ->
            withTextBindings
              (<[Js.pathOf m :=
                   (bs ++ [mkTextBinding bindingId i (Js.pathOf m) nodeValue
                             (TextCallback this pathVar)])%list]>) c2
            = registered this pathVar bindingId i nodeValue m c o).
  { intros bs. rewrite Hb.
    unfold registered, c2, c1, Js.undefinedIn, withTextBindings, withFields.
    destruct (textBindings c !! Js.pathOf m) eqn:E; cbn; [by intros [= ->]|].
    destruct (Js.inherited _); [done|]. intros [= <-]. cbn.
    by rewrite insert_insert_eq. }
  rewrite Hb in Hreg.
  destruct (textBindings c !! Js.pathOf m) as [bs|] eqn:E.
  - cbn [deref]. rewrite bind_ret.
    rewrite (bind_run _ _ _ _ _ (update_run this _ w3 _ Hc3)).
    unfold w3. rewrite withObjects_twice. by rewrite (Hreg bs).
  - destruct (Js.inherited (Js.pathOf m)) eqn:Ei.
    + unfold w3, c2, c1, Js.undefinedIn. by rewrite E, Ei.
    + cbn [deref]. rewrite bind_ret.
      rewrite (bind_run _ _ _ _ _ (update_run this _ w3 _ Hc3)).
      unfold w3. rewrite withObjects_twice. by rewrite (Hreg []).
Qed.

(** One turn of the loop over the text nodes. *)
Lemma scanTextNodes_cons this rootElement pathVar node rest i bindingId w :
  scanTextNodes this rootElement pathVar (node :: rest) i bindingId w
  = let nodeValue := Dom.valueOf (dom w) node in
    match Js.matchBindings nodeValue with
    | [] => scanTextNodes this rootElement pathVar rest (S i) bindingId w
    | matches =>
        let '(bid, w0) := assignId rootElement bindingId w in
        match registerMatches this bid i nodeValue pathVar matches w0 with
        | Ok _ w1 =>
            match resolveBindingText this nodeValue w1 with
            | Ok v w2 =>
                scanTextNodes this rootElement pathVar rest (S i) (Some bid)
                  (withDom (Dom.setValue node v) w2)
            | Throw e w2 => Throw e w2
            | Timeout w2 => Timeout w2
            end
        | Throw e w1 => Throw e w1
        | Timeout w1 => Timeout w1
        end
    end.
Proof.
  cbn zeta. cbn [scanTextNodes]. rewrite bind_gets.
  destruct (Js.matchBindings (Dom.valueOf (dom w) node)) as [|m ms]; [done|].
  destruct bindingId as [b|]; cbn [assignId].
  - rewrite bind_ret. unfold bind at 1.
    destruct (registerMatches _ _ _ _ _ _ _) as [[] w1|e w1|w1]; [|done..].
    unfold bind at 1. destruct (resolveBindingText _ _ _) as [v w2|e w2|w2]; [|done..].
    by rewrite bind_modify.
  - unfold bind at 1. rewrite bind_gets, bind_modify, bind_modify. unfold ret at 1.
    unfold bind at 1.
    destruct (registerMatches _ _ _ _ _ _ _) as [[] w1|e w1|w1]; [|done..].
    unfold bind at 1. destruct (resolveBindingText _ _ _) as [v w2|e w2|w2]; [|done..].
    by rewrite bind_modify.
Qed.

Lemma registerMatches_frame this bindingId i nodeValue pathVar matches : forall w,
  let w' := finalState
              (registerMatches this bindingId i nodeValue pathVar matches w) in
  dom w' = dom w /\ bindingIdCounter w' = bindingIdCounter w
  /\ templates w' = templates w.
Proof.
  induction matches as [|m rest IH]; intros w; [done|].
  cbn zeta. rewrite registerMatches_cons. cbn zeta.
  destruct (objects w !! this) as [c|]; [|done].
  destruct (fields c !! Js.pathOf m) as [o|]; [|done].
  destruct (IH (withObjects
                  (<[this := registered this pathVar bindingId i nodeValue m c o]>)
                  (withVars (<[pathVar := Js.pathOf m]>) w))) as (H1 & H2 & H3).
  destruct (textBindings c !! Js.pathOf m);
    [|destruct (Js.inherited (Js.pathOf m)); [done|]];
    by rewrite H1, H2, H3.
Qed.

Lemma resolveBindingText_state this text w :
  finalState (resolveBindingText this text w) = w.
Proof.
  destruct (resolveBindingText_pure this text w) as [o Ho].
  specialize (Ho (Dom.nodeValue (dom w))). rewrite setVals_self in Ho.
  rewrite Ho. by destruct o.
Qed.

Lemma resolveBindingText_Ok this text w v w' :
  resolveBindingText this text w = Ok v w' -> w' = w.
Proof.
  intros H. pose proof (resolveBindingText_state this text w) as Hs.
  by rewrite H in Hs.
Qed.

Lemma assoc_assocSet_eq k v l : Dom.assoc k (Dom.assocSet k v l) = Some v.
Proof.
  induction l as [|[k0 v0] l IH]; cbn.
  - by rewrite String.eqb_refl.
  - destruct (String.eqb k k0) eqn:E; cbn; rewrite ?String.eqb_refl, ?E; done.
Qed.

Lemma getAttribute_setAttribute d n k v n' :
  Dom.getAttribute (Dom.setAttribute n k v d) n' k
  = if decide (n' = n) then Some v else Dom.getAttribute d n' k.
Proof.
  unfold Dom.getAttribute, Dom.setAttribute, Dom.attrsOf. cbn.
  destruct (decide (n' = n)) as [->|Hne].
  - rewrite lookup_insert_eq. cbn. apply assoc_assocSet_eq.
  - by rewrite lookup_insert_ne.
Qed.

(** *** Which element gets a binding id *)

Lemma scanTextNodes_ids this rootElement pathVar textNodes : forall i bindingId w,
  let w' := finalState
              (scanTextNodes this rootElement pathVar textNodes i bindingId w) in
  templates w' = templates w
  /\ match bindingId with
     | Some _ =>
         bindingIdCounter w' = bindingIdCounter w
         /\ Dom.attributes (dom w') = Dom.attributes (dom w)
     | None =>
         if existsb (hasBinding (dom w)) textNodes then
           bindingIdCounter w' = S (bindingIdCounter w)
           /\ Dom.attributes (dom w')
              = Dom.attributes
                  (Dom.setAttribute rootElement "id"
                     ("BindingElement" ++ pretty (bindingIdCounter w)) (dom w))
         else
           bindingIdCounter w' = bindingIdCounter w
           /\ Dom.attributes (dom w') = Dom.attributes (dom w)
     end.
Proof.
  induction textNodes as [|node rest IH]; intros i bindingId w.
  { cbn. by destruct bindingId. }
  cbn zeta. rewrite scanTextNodes_cons. cbn zeta. cbn [existsb]. unfold hasBinding at 1.
  destruct (Js.matchBindings (Dom.valueOf (dom w) node)) as [|m ms] eqn:Em.
  { rewrite orb_false_l. apply IH. }
  rewrite orb_true_l.
  destruct (assignId rootElement bindingId w) as [bid w0] eqn:Ea.
  assert (Hw0 : templates w0 = templates w
                /\ match bindingId with
                   | Some _ =>
                       bindingIdCounter w0 = bindingIdCounter w
                       /\ Dom.attributes (dom w0) = Dom.attributes (dom w)
                   | None =>
                       bindingIdCounter w0 = S (bindingIdCounter w)
                       /\ Dom.attributes (dom w0)
                          = Dom.attributes
                              (Dom.setAttribute rootElement "id"
                                 ("BindingElement" ++ pretty (bindingIdCounter w))
                                 (dom w))
                   end).
  { destruct bindingId; injection Ea as <- <-; done. }
  assert (Hgoal : forall w',
    templates w' = templates w0 ->
    bindingIdCounter w' = bindingIdCounter w0 ->
    Dom.attributes (dom w') = Dom.attributes (dom w0) ->
    templates w' = templates w
    /\ match bindingId with
       | Some _ =>
           bindingIdCounter w' = bindingIdCounter w
           /\ Dom.attributes (dom w') = Dom.attributes (dom w)
       | None =>
           bindingIdCounter w' = S (bindingIdCounter w)
           /\ Dom.attributes (dom w')
              = Dom.attributes
                  (Dom.setAttribute rootElement "id"
                     ("BindingElement" ++ pretty (bindingIdCounter w)) (dom w))
       end).
  { intros w' H0 H1 H2. destruct Hw0 as [Ht Hw0]. split; [congruence|].
    destruct bindingId; destruct Hw0 as [H3 H4]; split; congruence. }
  destruct (registerMatches_frame this bid i (Dom.valueOf (dom w) node) pathVar
              (m :: ms) w0) as (Hd & Hc & Ht).
  destruct (registerMatches _ _ _ _ _ _ w0) as [[] w1|e w1|w1] eqn:Hreg;
    cbn [finalState] in Hd, Hc, Ht.
  2,3: cbn [finalState]; apply Hgoal; [done|done|by rewrite Hd].
  pose proof (resolveBindingText_state this (Dom.valueOf (dom w) node) w1) as Hres.
  destruct (resolveBindingText _ _ w1) as [v w2|e w2|w2]; cbn [finalState] in Hres;
    subst w2.
  2,3: cbn [finalState]; apply Hgoal; [done|done|by rewrite Hd].
  destruct (IH (S i) (Some bid) (withDom (Dom.setValue node v) w1)) as (H0 & H1 & H2).
  apply Hgoal.
  - by rewrite H0.
  - by rewrite H1.
  - rewrite H2. cbn. by rewrite Hd.
Qed.

(** X6: an element gets a binding id, and the counter advances by one, exactly
    when one of its text nodes holds a placeholder: however many text nodes
    and placeholders it has, and whether the scan returns or throws.  An
    [id] that the element had is overwritten, and no other element's
    attributes change. *)
Theorem scanTextNodes_binding_id
    (this rootElement pathVar : nat) (textNodes : list nat) (w : World) :
  let w' := finalState
              (scanTextNodes this rootElement pathVar textNodes 0 None w) in
  if existsb (hasBinding (dom w)) textNodes then
    bindingIdCounter w' = S (bindingIdCounter w)
    /\ Dom.getAttribute (dom w') rootElement "id"
       = Some ("BindingElement" ++ pretty (bindingIdCounter w))
    /\ forall n, n <> rootElement ->
         Dom.attributes (dom w') !! n = Dom.attributes (dom w) !! n
  else
    bindingIdCounter w' = bindingIdCounter w
    /\ Dom.attributes (dom w') = Dom.attributes (dom w).
Proof.
  destruct (scanTextNodes_ids this rootElement pathVar textNodes 0 None w)
    as [_ H].
  cbn zeta in *. destruct (existsb _ _); [|done].
  destruct H as [H1 H2]. split_and!; [done|..].
  - unfold Dom.getAttribute at 1, Dom.attrsOf. rewrite H2.
    fold (Dom.attrsOf (Dom.setAttribute rootElement "id"
            ("BindingElement" ++ pretty (bindingIdCounter w)) (dom w)) rootElement).
    fold (Dom.getAttribute (Dom.setAttribute rootElement "id"
            ("BindingElement" ++ pretty (bindingIdCounter w)) (dom w))
            rootElement "id").
    by rewrite getAttribute_setAttribute, decide_True.
  - intros n Hn. rewrite H2. cbn. by apply lookup_insert_ne.
Qed.

(** *** The variable that the callbacks share *)

Lemma registerMatches_var this bindingId i nodeValue pathVar matches : forall w w',
  registerMatches this bindingId i nodeValue pathVar matches w = Ok tt w' ->
  dom w' = dom w
  /\ vars w' !! pathVar
     = match last matches with
       | Some m => Some (Js.pathOf m)
       | None => vars w !! pathVar
       end.
Proof.
  induction matches as [|m rest IH]; intros w w'.
  { by intros [= <-]. }
  rewrite registerMatches_cons. cbn zeta.
  destruct (objects w !! this) as [c|]; [|done].
  destruct (fields c !! Js.pathOf m) as [o|]; [|done].
  intros H.
  assert (H' : registerMatches this bindingId i nodeValue pathVar rest
                 (withObjects
                    (<[this := registered this pathVar bindingId i nodeValue m c o]>)
                    (withVars (<[pathVar := Js.pathOf m]>) w)) = Ok tt w').
  { destruct (textBindings c !! Js.pathOf m); [done|].
    by destruct (Js.inherited (Js.pathOf m)). }
  apply IH in H' as [Hd Hv]. split; [done|].
  rewrite Hv. cbn [vars withObjects withVars]. rewrite lookup_insert_eq.
  destruct rest as [|m' rest']; [done|]. rewrite last_cons_cons.
  destruct (last (m' :: rest')) eqn:E; [done|]. by apply last_None in E.
Qed.

Lemma valueOf_assignId rootElement bindingId w n :
  Dom.valueOf (dom (assignId rootElement bindingId w).2) n = Dom.valueOf (dom w) n.
Proof. by destruct bindingId. Qed.

Lemma vars_assignId rootElement bindingId w :
  vars (assignId rootElement bindingId w).2 = vars w.
Proof. by destruct bindingId. Qed.

(** X7: the [updateCallback] of every record made by one call of
    [processElements] is a closure over the one [var path] of that call
    ([TextCallback this pathVar] in [registered]).  When the scan of the
    element returns, that variable holds the path of the last placeholder of
    its last text node with placeholders: this is the path that each of the
    callbacks resolves when its observable changes. *)
Theorem scanTextNodes_shared_path
    (this rootElement pathVar : nat) (textNodes : list nat) (i : nat)
    (bindingId : option nat) (w w' : World) :
  NoDup textNodes ->
  scanTextNodes this rootElement pathVar textNodes i bindingId w = Ok tt w' ->
  readVar w' pathVar
  = match last (placeholdersOf (dom w) textNodes) with
    | Some m => Some (Js.pathOf m)
    | None => readVar w pathVar
    end.
Proof.
  unfold readVar. revert i bindingId w.
  induction textNodes as [|node rest IH]; intros i bindingId w Hnd.
  { by intros [= <-]. }
  apply NoDup_cons in Hnd as [Hnode Hnd].
  rewrite scanTextNodes_cons. cbn zeta.
  unfold placeholdersOf. cbn [map concat]. fold (placeholdersOf (dom w) rest).
  destruct (Js.matchBindings (Dom.valueOf (dom w) node)) as [|m ms] eqn:Em.
  { intros H. by apply IH in H. }
  pose proof (valueOf_assignId rootElement bindingId w) as Hval.
  pose proof (vars_assignId rootElement bindingId w) as Hvars.
  destruct (assignId rootElement bindingId w) as [bid w0]. cbn [snd] in Hval, Hvars.
  destruct (registerMatches _ _ _ _ _ _ w0) as [[] w1|e w1|w1] eqn:Hreg; [|done..].
  apply registerMatches_var in Hreg as [Hd1 Hv1].
  destruct (resolveBindingText _ _ w1) as [v w2|e w2|w2] eqn:Hres; [|done..].
  apply resolveBindingText_Ok in Hres as ->.
  intros H. apply IH in H; [|done]. rewrite H.
  assert (Hrest : placeholdersOf (dom (withDom (Dom.setValue node v) w1)) rest
                  = placeholdersOf (dom w) rest).
  { unfold placeholdersOf. f_equal. apply map_ext_in. intros n Hn.
    apply list_elem_of_In in Hn.
    assert (n <> node) by (intros ->; contradiction).
    unfold Dom.valueOf at 1. cbn. rewrite lookup_insert_ne by done.
    fold (Dom.valueOf (dom w1) n). by rewrite Hd1, Hval. }
  rewrite Hrest, last_app.
  destruct (last (placeholdersOf (dom w) rest)); [done|].
  cbn [vars withDom]. by rewrite Hv1, Hvars.
Qed.

Lemma scanTextNodes_shared_path_witness :
  readVar (finalState (scanTextNodes 0 2 0 [3; 5] 0 None twoTextNodes)) 0
  = match last (placeholdersOf (dom twoTextNodes) [3; 5]) with
    | Some m => Some (Js.pathOf m)
    | None => readVar twoTextNodes 0
    end.
Proof.
  refine (scanTextNodes_shared_path 0 2 0 [3; 5] 0 None twoTextNodes
            (finalState (scanTextNodes 0 2 0 [3; 5] 0 None twoTextNodes)) _ _).
  - apply (bool_decide_unpack _). vm_compute. exact I.
  - vm_compute. reflexivity.
Defined.

(** The consequence for [<p>{{a}}<br>{{b}}</p>]: both callbacks resolve [b].
    A change of [a] renders the second text node (node 5) again and leaves
    the first (node 3), which shows [a], as it was. *)
Example change_of_first_path_is_not_rendered :
  let w1 := finalState (processElements noClasses 9 0 1 twoTextNodes) in
  let w2 := finalState (setValue 5 0 "a" "x" w1) in
  processElements noClasses 9 0 1 twoTextNodes = Ok tt w1
  /\ (objects w1 !! 0 ≫= fun c => fields c !! "a")
     = Some (mkObservable "1" [TextCallback 0 1])
  /\ (objects w1 !! 0 ≫= fun c => fields c !! "b")
     = Some (mkObservable "2" [TextCallback 0 1])
  /\ readVar w1 1 = Some "b"
  /\ (Dom.valueOf (dom w1) <$> [3; 5]) = ["1"; "2"]
  /\ setValue 5 0 "a" "x" w1 = Ok tt w2
  /\ (Dom.valueOf (dom w2) <$> [3; 5]) = ["1"; "2"]
  /\ (objects w2 !! 0 ≫= fun c => value <$> fields c !! "a") = Some "x".
Proof. evaluate. Qed.

(** *** A placeholder for a property that the component does not have *)

(** X8: the scan reaches a text node whose first placeholder names a member
    that the component does not have as an observable, and that no object
    inherits from [Object.prototype]: the subscription to
    [this[path].onValueChanged] throws a [TypeError].  By then the element
    has its binding id and [textBindings[path]] is an empty array; no record
    is stored, nothing is subscribed and the text is left unresolved. *)
Theorem scanTextNodes_unknown_path
    (this rootElement pathVar node : nat) (rest : list nat) (i : nat)
    (bindingId : option nat) (w : World) (c : Component.t) (m : string)
    (ms : list string) :
  objects w !! this = Some c ->
  Js.matchBindings (Dom.valueOf (dom w) node) = m :: ms ->
  fields c !! Js.pathOf m = None ->
  Js.inherited (Js.pathOf m) = false ->
  exists w',
    scanTextNodes this rootElement pathVar (node :: rest) i bindingId w
    = Throw TypeError w'
    /\ (textBindings <$> objects w' !! this)
       = Some (match textBindings c !! Js.pathOf m with
               | None => <[Js.pathOf m := []]> (textBindings c)
               | Some _ => textBindings c
               end)
    /\ (fields <$> objects w' !! this) = Some (fields c)
    /\ Dom.nodeValue (dom w') = Dom.nodeValue (dom w)
    /\ (bindingId = None ->
        bindingIdCounter w' = S (bindingIdCounter w)
        /\ Dom.getAttribute (dom w') rootElement "id"
           = Some ("BindingElement" ++ pretty (bindingIdCounter w))).
Proof.
  intros Hc Hm Hf Hi. rewrite scanTextNodes_cons. cbn zeta. rewrite Hm.
  assert (H0 : objects (assignId rootElement bindingId w).2 !! this = Some c)
    by (by destruct bindingId).
  assert (H1 : Dom.nodeValue (dom (assignId rootElement bindingId w).2)
               = Dom.nodeValue (dom w)) by (by destruct bindingId).
  assert (H2 : bindingId = None ->
               bindingIdCounter (assignId rootElement bindingId w).2
               = S (bindingIdCounter w)
               /\ Dom.getAttribute (dom (assignId rootElement bindingId w).2)
                    rootElement "id"
                  = Some ("BindingElement" ++ pretty (bindingIdCounter w))).
  { intros ->. split; [done|]. cbn [assignId snd dom withDom withCounter].
    by rewrite getAttribute_setAttribute, decide_True. }
  destruct (assignId rootElement bindingId w) as [bid w0]. cbn [snd] in H0, H1, H2.
  rewrite registerMatches_cons. cbn zeta. rewrite H0, Hf.
  eexists. split; [reflexivity|]. cbn [objects withObjects withVars dom].
  rewrite lookup_insert_eq. cbn [fmap option_fmap option_map].
  unfold Js.undefinedIn. rewrite Hi. cbn [negb].
  split_and!; [|by destruct (textBindings c !! Js.pathOf m)|done|done].
  by destruct (textBindings c !! Js.pathOf m).
Qed.

Lemma scanTextNodes_unknown_path_witness :
  exists w',
    scanTextNodes 0 2 0 (3 :: []) 0 None unknownPath = Throw TypeError w'
    /\ (textBindings <$> objects w' !! 0)
       = Some (match textBindings
                       (default (mk "" ∅ false None None ∅ ∅)
                                (objects unknownPath !! 0))
                     !! Js.pathOf "{{nope}}" with
               | None =>
                   <[Js.pathOf "{{nope}}" := []]>
                     (textBindings (default (mk "" ∅ false None None ∅ ∅)
                                            (objects unknownPath !! 0)))
               | Some _ =>
                   textBindings (default (mk "" ∅ false None None ∅ ∅)
                                         (objects unknownPath !! 0))
               end)
    /\ (fields <$> objects w' !! 0)
       = Some (fields (default (mk "" ∅ false None None ∅ ∅)
                               (objects unknownPath !! 0)))
    /\ Dom.nodeValue (dom w') = Dom.nodeValue (dom unknownPath)
    /\ (@None nat = None ->
        bindingIdCounter w' = S (bindingIdCounter unknownPath)
        /\ Dom.getAttribute (dom w') 2 "id"
           = Some ("BindingElement" ++ pretty (bindingIdCounter unknownPath))).
Proof.
  refine (scanTextNodes_unknown_path 0 2 0 3 [] 0 None unknownPath
            (default (mk "" ∅ false None None ∅ ∅) (objects unknownPath !! 0))
            "{{nope}}" [] _ _ _ _).
  - vm_compute. reflexivity.
  - vm_compute. reflexivity.
  - vm_compute. reflexivity.
  - vm_compute. reflexivity.
Defined.

(** Seen from the constructor: a template whose text names an unknown
    property cannot be instantiated. *)
Example unknown_path_fails_discovery :
  let r := processElements noClasses 5 0 1 unknownPath in
  r = Throw TypeError (finalState r)
  /\ Dom.getAttribute (dom (finalState r)) 2 "id" = Some "BindingElement0"
  /\ Dom.valueOf (dom (finalState r)) 3 = "{{nope}}"
  /\ (textBindings <$> objects (finalState r) !! 0) = Some {["nope" := []]}.
Proof. evaluate. Qed.

(** A placeholder that names a member of [Object.prototype]:
    [textBindings.toString] is the inherited function, not [undefined], so
    the key is not initialised before the subscription throws. *)
Example inherited_name_is_not_initialised :
  let r := processElements noClasses 5 0 1 inheritedName in
  r = Throw TypeError (finalState r)
  /\ Dom.getAttribute (dom (finalState r)) 2 "id" = Some "BindingElement0"
  /\ Dom.valueOf (dom (finalState r)) 3 = "{{toString}}"
  /\ (textBindings <$> objects (finalState r) !! 0) = Some ∅.
Proof. evaluate. Qed.

(** ** triggerBindingUpdate *)

Lemma patchTextNodes_after this binding children : forall idx w,
  textNodeIndex binding < idx ->
  patchTextNodes this binding children idx w = Ok tt w.
Proof.
  induction children as [|child rest IH]; intros idx w Hlt; [done|].
  rewrite patchTextNodes_cons.
  destruct (Dom.isText (dom w) child); [|by apply IH].
  rewrite (proj2 (Nat.eqb_neq _ _)) by lia. apply IH. lia.
Qed.

Lemma patchTextNodes_target this binding v children : forall idx w,
  idx <= textNodeIndex binding ->
  resolveBindingText this (bindingText binding) w = Ok v w ->
  patchTextNodes this binding children idx w
  = Ok tt (match List.filter (Dom.isText (dom w)) children
                 !! (textNodeIndex binding - idx) with
           | Some node => withDom (Dom.setValue node v) w
           | None => w
           end).
Proof.
  induction children as [|child rest IH]; intros idx w Hle Hres; [done|].
  rewrite patchTextNodes_cons. cbn [List.filter].
  destruct (Dom.isText (dom w) child) eqn:Et; [|by apply IH].
  destruct (Nat.eqb idx (textNodeIndex binding)) eqn:Ei.
  - apply Nat.eqb_eq in Ei. subst idx. rewrite Hres, Nat.sub_diag.
    cbn [lookup list_lookup]. apply patchTextNodes_after. lia.
  - apply Nat.eqb_neq in Ei. rewrite (IH (S idx) w) by first [lia|exact Hres].
    replace (textNodeIndex binding - idx) with (S (textNodeIndex binding - S idx))
      by lia.
    done.
Qed.

(** X9: what a resolution does when the owner of the first record of the path
    is found and has at least as many child nodes as there are further
    records: it returns after the first record.  The text node at the
    record's index among the text nodes of the owner gets the resolved text,
    and no other record of the path is looked at (the shared [i] is past the
    end of the list when the inner loop is done).  With one record per path
    this is the whole of the intended behaviour. *)
Theorem triggerBindingUpdate_first_record
    (fuel this : nat) (path : string) (w : World) (c : Component.t)
    (root el : nat) (b : TextBindingInfo) (bs : list TextBindingInfo) (v : string) :
  objects w !! this = Some c ->
  rootHtmlElement c = Some root ->
  textBindings c !! path = Some (b :: bs) ->
  Dom.querySelectorId (dom w) root
    ("BindingElement" ++ pretty (elementBindingId b)) = Some el ->
  length bs <= length (Dom.kids (dom w) el) ->
  resolveBindingText this (bindingText b) w = Ok v w ->
  triggerBindingUpdate (S (S fuel)) this path w
  = Ok tt (match List.filter (Dom.isText (dom w)) (Dom.kids (dom w) el)
                 !! textNodeIndex b with
           | Some node => withDom (Dom.setValue node v) w
           | None => w
           end).
Proof.
  intros Hc Hroot Hb Hq Hlen Hres.
  rewrite triggerBindingUpdate_unfold, Hc, Hb, triggerLoop_S.
  cbn [length lookup list_lookup Nat.ltb Nat.leb]. rewrite Hc, Hroot, Hq.
  rewrite (patchTextNodes_target this b v _ 0 w (Nat.le_0_l _) Hres).
  rewrite Nat.sub_0_r, triggerLoop_S.
  rewrite (proj2 (Nat.ltb_ge (S (length (Dom.kids (dom w) el))) (length (b :: bs))));
    [done|cbn [length]; lia].
Qed.

Lemma triggerBindingUpdate_first_record_witness :
  triggerBindingUpdate (S (S 3)) 0 "title" retitledWorld
  = Ok tt (match List.filter (Dom.isText (dom retitledWorld))
                             (Dom.kids (dom retitledWorld) 4)
                 !! textNodeIndex
                      (mkTextBinding 0 0 "title" "{{title}}" (TextCallback 0 3)) with
           | Some node => withDom (Dom.setValue node "new") retitledWorld
           | None => retitledWorld
           end).
Proof.
  refine (triggerBindingUpdate_first_record 3 0 "title" retitledWorld
            (default (mk "" ∅ false None None ∅ ∅) (objects retitledWorld !! 0))
            1 4 (mkTextBinding 0 0 "title" "{{title}}" (TextCallback 0 3))
            [mkTextBinding 1 0 "title" "{{title}}" (TextCallback 0 4)] "new"
            _ _ _ _ _ _).
  - vm_compute. reflexivity.
  - vm_compute. reflexivity.
  - vm_compute. reflexivity.
  - vm_compute. reflexivity.
  - replace (Dom.kids (dom retitledWorld) 4) with [5] by (vm_compute; reflexivity).
    cbn. lia.
  - vm_compute. reflexivity.
Defined.

(** X10: a resolution writes the text of nodes and nothing else: whatever its
    outcome, the components, the subscriptions, the counters and every link
    and attribute of the document are as before. *)
Theorem triggerBindingUpdate_only_text (fuel this : nat) (path : string) (w : World) :
  exists V, finalState (triggerBindingUpdate fuel this path w) = setVals V w.
Proof.
  destruct (triggerBindingUpdate_writes fuel this path w) as (W & o & H).
  specialize (H (Dom.nodeValue (dom w))). rewrite setVals_self in H.
  eexists. by rewrite H, finalState_ended.
Qed.

(** ** The matches of the binding expression *)

Lemma takePath_isPath s : Js.isPath (Js.takePath s) = true.
Proof.
  induction s as [|c s IH]; [done|]. cbn.
  destruct (Js.isPathChar c) eqn:E; [|done]. cbn. by rewrite E.
Qed.

Lemma substring_append_l p q :
  String.substring 0 (String.length p) (p ++ q) = p.
Proof.
  induction p as [|c p IH]; [by destruct q|].
  simpl. by f_equal.
Qed.

Lemma length_append' (p q : string) :
  String.length (p ++ q) = String.length p + String.length q.
Proof. induction p as [|c p IH]; simpl; [done|by rewrite IH]. Qed.

Lemma pathOf_token p : Js.pathOf ("{{" ++ p ++ "}}") = p.
Proof.
  unfold Js.pathOf.
  assert (String.length ("{{" ++ p ++ "}}") - 4 = String.length p) as ->.
  { change ("{{" ++ p ++ "}}") with (String "{" (String "{" (p ++ "}}"))).
    cbn [String.length]. rewrite length_append'. cbn [String.length]. lia. }
  unfold Js.substr.
  change (substring 2 (String.length p) ("{{" ++ p ++ "}}"))
    with (substring 0 (String.length p) (p ++ "}}")).
  apply substring_append_l.
Qed.

Lemma matchAt_shape s m :
  Js.matchAt s = Some m ->
  exists p, m = "{{" ++ p ++ "}}" /\ p <> "" /\ Js.isPath p = true
            /\ Js.pathOf m = p.
Proof.
  unfold Js.matchAt. destruct (String.prefix "{{" s); [|done].
  set (run := Js.takePath _).
  destruct (_ && _) eqn:E; [|done]. intros [= <-].
  apply andb_true_iff in E as [Hlen _]. apply Nat.ltb_lt in Hlen.
  exists run. split_and!.
  - done.
  - intros Hr. rewrite Hr in Hlen. cbn in Hlen. lia.
  - apply takePath_isPath.
  - apply pathOf_token.
Qed.

Lemma matchAllFrom_shape text : forall skip,
  Forall (fun m => exists p,
            m = "{{" ++ p ++ "}}" /\ p <> "" /\ Js.isPath p = true
            /\ Js.pathOf m = p)
         (Js.matchAllFrom skip text).
Proof.
  induction text as [|c text IH]; intros skip; [constructor|].
  cbn [Js.matchAllFrom]. destruct skip as [|k]; [|apply IH].
  destruct (Js.matchAt (String c text)) as [m|] eqn:E; [|apply IH].
  constructor; [|apply IH]. by eapply matchAt_shape.
Qed.

(** X11: every match of the binding expression in a text is a token [{{p}}] with
    a path [p] that is not empty and made of the characters [a-zA-Z._0-9],
    and [m.substr(2, m.length - 4)] is that path. *)
Theorem matchBindings_paths (text : string) :
  Forall (fun m => exists p,
            m = "{{" ++ p ++ "}}" /\ p <> "" /\ Js.isPath p = true
            /\ Js.pathOf m = p)
         (Js.matchBindings text).
Proof. apply matchAllFrom_shape. Qed.

(** ** Binding ids are issued once *)

Lemma idsFrom_refl d : idsFrom d d.
Proof. by intros n k. Qed.

Lemma idsFrom_trans d1 d2 d3 : idsFrom d1 d2 -> idsFrom d2 d3 -> idsFrom d1 d3.
Proof. intros H1 H2 n k H. by apply H1, H2. Qed.

Lemma idsFrom_attributes d d' :
  Dom.attributes d' = Dom.attributes d -> idsFrom d d'.
Proof. intros H n k. unfold Dom.getAttribute, Dom.attrsOf. by rewrite H. Qed.

Lemma bindingElement_inj (k k' : nat) :
  "BindingElement" ++ pretty k = "BindingElement" ++ pretty k' -> k = k'.
Proof.
  assert (Happ : forall p a b : string, p ++ a = p ++ b -> a = b).
  { induction p as [|c p IH]; intros a b; simpl; [done|].
    intros [= H]. by apply IH. }
  intros H. apply Happ in H. by apply (inj pretty) in H.
Qed.

Lemma some_bindingElement_inj (k k' : nat) :
  Some ("BindingElement" ++ pretty k) = Some ("BindingElement" ++ pretty k') ->
  k = k'.
Proof. intros H. apply (inj Some) in H. by apply bindingElement_inj. Qed.

Lemma bindingIds_frame w w' :
  idsFrom (dom w) (dom w') ->
  bindingIdCounter w' = bindingIdCounter w ->
  bindingIds w -> bindingIds w'.
Proof.
  intros Ha Hc [H1 H2]. split.
  - intros n k H. rewrite Hc. by eapply H1, Ha.
  - intros n n' k H H'. eapply H2; by apply Ha.
Qed.

Lemma bindingIds_assign rootElement w w' :
  bindingIdCounter w' = S (bindingIdCounter w) ->
  Dom.attributes (dom w')
  = Dom.attributes
      (Dom.setAttribute rootElement "id"
         ("BindingElement" ++ pretty (bindingIdCounter w)) (dom w)) ->
  bindingIds w -> bindingIds w'.
Proof.
  intros Hc Ha [H1 H2].
  assert (Hget : forall n,
    Dom.getAttribute (dom w') n "id"
    = if decide (n = rootElement)
      then Some ("BindingElement" ++ pretty (bindingIdCounter w))
      else Dom.getAttribute (dom w) n "id").
  { intros n. rewrite <- getAttribute_setAttribute.
    unfold Dom.getAttribute, Dom.attrsOf. by rewrite Ha. }
  split.
  - intros n k. rewrite Hget, Hc. destruct (decide (n = rootElement)).
    + intros E%some_bindingElement_inj. lia.
    + intros H. apply H1 in H. lia.
  - intros n n' k. rewrite !Hget.
    destruct (decide (n = rootElement)) as [->|Hn];
      destruct (decide (n' = rootElement)) as [->|Hn']; [done|..].
    + intros E%some_bindingElement_inj H. apply H1 in H. lia.
    + intros H E%some_bindingElement_inj. apply H1 in H. lia.
    + apply H2.
Qed.

Lemma identified_frame w w' :
  idsFrom (dom w) (dom w') ->
  bindingIdCounter w' = bindingIdCounter w ->
  templates w' = templates w ->
  identified w -> identified w'.
Proof.
  intros Ha Hc Ht [H1 H2]. split; [by eapply bindingIds_frame|].
  unfold cleanTemplates. by rewrite Ht.
Qed.

Lemma identified_assign rootElement w w' :
  bindingIdCounter w' = S (bindingIdCounter w) ->
  Dom.attributes (dom w')
  = Dom.attributes
      (Dom.setAttribute rootElement "id"
         ("BindingElement" ++ pretty (bindingIdCounter w)) (dom w)) ->
  templates w' = templates w ->
  identified w -> identified w'.
Proof.
  intros Hc Ha Ht [H1 H2]. split; [by eapply bindingIds_assign|].
  unfold cleanTemplates. by rewrite Ht.
Qed.

Lemma identified_clean w name t :
  identified w -> templates w !! name = Some t ->
  forallb cleanMarkup (innerHTML t) = true.
Proof.
  intros [_ H] Ht. unfold cleanTemplates in H.
  rewrite forallb_forall in H.
  apply (H (name, t)). apply list_elem_of_In. by apply elem_of_map_to_list.
Qed.

(** *** Steps that issue no id *)

Lemma keeps_deref {A} (x : option A) : keeps identified (deref x).
Proof. destruct x; [apply keeps_ret|apply keeps_throw]. Qed.

Lemma keeps_object this : keeps identified (object this).
Proof. intros w Hw. unfold object. by destruct (objects w !! this). Qed.

Lemma keeps_update this f : keeps identified (update this f).
Proof.
  apply keeps_modify. intros w Hw.
  eapply identified_frame; [| | |exact Hw]; [apply idsFrom_refl|done..].
Qed.

Lemma keeps_newVar : keeps identified newVar.
Proof.
  intros w Hw. eapply identified_frame; [| | |exact Hw]; [apply idsFrom_refl|done..].
Qed.

Lemma keeps_setVar x v : keeps identified (setVar x v).
Proof.
  apply keeps_modify. intros w Hw.
  eapply identified_frame; [| | |exact Hw]; [apply idsFrom_refl|done..].
Qed.

Lemma keeps_newObject c : keeps identified (newObject c).
Proof.
  intros w Hw. eapply identified_frame; [| | |exact Hw]; [apply idsFrom_refl|done..].
Qed.

Lemma keeps_domCall f :
  (forall d d', f d = inr d' -> Dom.attributes d' = Dom.attributes d) ->
  keeps identified (domCall f).
Proof.
  intros Hf w Hw. unfold domCall. destruct (f (dom w)) as [e|d] eqn:E; [done|].
  cbn. eapply identified_frame; [| | |exact Hw]; [|done..].
  apply idsFrom_attributes. cbn. by eapply Hf.
Qed.

Lemma keeps_subscribe this path cb : keeps identified (subscribe this path cb).
Proof.
  unfold subscribe.
  apply keeps_bind; [apply keeps_object|]. intros c.
  apply keeps_bind; [apply keeps_deref|]. intros o. apply keeps_update.
Qed.

Lemma keeps_show this replaceElement : keeps identified (show this replaceElement).
Proof.
  unfold show. apply keeps_bind; [apply keeps_object|]. intros c.
  destruct (_isShowing c); [apply keeps_ret|].
  apply keeps_bind.
  { destruct (parentComponent c).
    - apply keeps_bind; [apply keeps_object|]. intros pc. apply keeps_ret.
    - apply keeps_bind; [apply keeps_gets|]. intros b. apply keeps_ret. }
  intros appendParent. apply keeps_bind; [|intros _; apply keeps_update].
  destruct replaceElement as [r|].
  - apply keeps_bind; [apply keeps_gets|]. intros p.
    apply keeps_bind; [apply keeps_deref|]. intros parent.
    apply keeps_bind; [apply keeps_deref|]. intros root.
    apply keeps_bind.
    { apply keeps_domCall. intros d d' H. by apply insertBefore_frame in H as (_ & ? & _). }
    intros _. apply keeps_bind; [apply keeps_update|]. intros _.
    apply keeps_bind; [apply keeps_gets|]. intros p'.
    apply keeps_bind; [apply keeps_deref|]. intros parent'.
    apply keeps_domCall. intros d d' H. by apply removeChild_frame in H as (_ & ? & _).
  - apply keeps_bind; [apply keeps_deref|]. intros parent.
    apply keeps_bind; [apply keeps_deref|]. intros root.
    apply keeps_bind; [|intros _; apply keeps_update].
    apply keeps_domCall. intros d d' H. unfold Dom.appendChild in H.
    by apply insertBefore_frame in H as (_ & ? & _).
Qed.

Lemma keeps_processPropertyBindings this propertyNameVar attrs :
  keeps identified (processPropertyBindings this propertyNameVar attrs).
Proof.
  induction attrs as [|[name value] attrs IH]; cbn [processPropertyBindings];
    [apply keeps_ret|].
  apply keeps_bind; [|by intros _].
  destruct (Js.startsWith _ _); [|apply keeps_ret].
  apply keeps_bind; [apply keeps_setVar|]. intros _.
  apply keeps_bind; [apply keeps_object|]. intros c.
  apply keeps_bind.
  { destruct (Js.undefinedIn _ _); [apply keeps_update|apply keeps_ret]. }
  intros _. apply keeps_bind; [apply keeps_deref|]. intros parent.
  apply keeps_bind; [apply keeps_subscribe|]. intros _.
  apply keeps_bind; [apply keeps_object|]. intros c'.
  apply keeps_bind; [apply keeps_deref|]. intros bs. apply keeps_update.
Qed.

Lemma keeps_moveChildren budget source target : forall i,
  keeps identified (moveChildren budget source target i).
Proof.
  induction budget as [|budget IH]; intros i; [apply keeps_timeout|].
  cbn [moveChildren].
  apply keeps_bind; [apply keeps_gets|]. intros children.
  destruct (i <? length children)%nat; [|apply keeps_ret].
  apply keeps_bind; [apply keeps_deref|]. intros child.
  apply keeps_bind; [|intros _; apply IH].
  apply keeps_domCall. intros d d' H. unfold Dom.appendChild in H.
  by apply insertBefore_frame in H as (_ & ? & _).
Qed.

(** *** Nodes made from a template *)

Lemma prefix_bindingElement (k : nat) :
  String.prefix "BindingElement" ("BindingElement" ++ pretty k) = true.
Proof.
  assert (H : forall p x : string, String.prefix p (p ++ x) = true).
  { induction p as [|c p IH]; intros x; simpl; [by destruct x|].
    by destruct (ascii_dec c c). }
  apply H.
Qed.

Lemma create_ids ty attrs v d :
  cleanAttrs attrs = true -> idsFrom d (Dom.create ty attrs v d).2.
Proof.
  intros Hclean n k. unfold Dom.create, Dom.getAttribute, Dom.attrsOf. cbn.
  destruct (decide (n = Dom.nextNode d)) as [->|Hne].
  - rewrite lookup_insert_eq. cbn. unfold cleanAttrs in Hclean. intros H.
    rewrite H, prefix_bindingElement in Hclean. done.
  - by rewrite lookup_insert_ne.
Qed.

Lemma buildNode_ids : forall m d,
  cleanMarkup m = true -> idsFrom d (buildNode m d).2.
Proof.
  fix IH 1. intros [s| |attrs children] d Hclean.
  - by apply create_ids.
  - by apply create_ids.
  - cbn [cleanMarkup] in Hclean. apply andb_true_iff in Hclean as [Ha Hc].
    cbn [buildNode].
    pose proof (create_ids Dom.ELEMENT_NODE attrs "" d Ha) as H1.
    destruct (Dom.create Dom.ELEMENT_NODE attrs "" d) as [n d1]. cbn [snd] in H1.
    change ((fix buildAll (ms : list Markup) (d0 : Dom.t) {struct ms} :
               list nat * Dom.t :=
               match ms with
               | [] => ([], d0)
               | m :: ms' =>
                   let '(k, d') := buildNode m d0 in
                   let '(ks, d'') := buildAll ms' d' in (k :: ks, d'')
               end) children d1) with (buildAll children d1).
    assert (H2 : idsFrom d1 (buildAll children d1).2).
    { clear H1. revert d1. induction children as [|m ms IHms]; intros d1.
      - apply idsFrom_refl.
      - cbn [forallb] in Hc. apply andb_true_iff in Hc as [Hm Hms].
        cbn [buildAll]. pose proof (IH m d1 Hm) as Hd.
        destruct (buildNode m d1) as [k d']. cbn [snd] in Hd.
        fold buildAll. pose proof (IHms Hms d') as Hd'.
        destruct (buildAll ms d') as [ks d'']. cbn [snd] in *.
        by eapply idsFrom_trans. }
    destruct (buildAll children d1) as [ks d2]. cbn [snd] in *.
    eapply idsFrom_trans; [exact H1|]. eapply idsFrom_trans; [exact H2|].
    by apply idsFrom_attributes.
Qed.

Lemma keeps_parseBody ms :
  forallb cleanMarkup ms = true -> keeps identified (parseBody ms).
Proof.
  intros Hclean w Hw. unfold parseBody.
  pose proof (buildNode_ids (MElement [] ms) (dom w)) as H.
  destruct (buildNode (MElement [] ms) (dom w)) as [n d]. cbn [snd finalState] in *.
  eapply identified_frame; [| | |exact Hw]; [|done..].
  apply H. cbn [cleanMarkup]. by rewrite Hclean.
Qed.

Lemma keeps_createElement : keeps identified createElement.
Proof.
  intros w Hw. unfold createElement.
  pose proof (create_ids Dom.ELEMENT_NODE [] "" (dom w) eq_refl) as H.
  destruct (Dom.create Dom.ELEMENT_NODE [] "" (dom w)) as [n d].
  cbn [snd finalState] in *.
  eapply identified_frame; [| | |exact Hw]; [exact H|done..].
Qed.

(** *** Discovery and construction *)

Lemma keeps_scanTextNodes this rootElement pathVar textNodes i bindingId :
  keeps identified (scanTextNodes this rootElement pathVar textNodes i bindingId).
Proof.
  intros w Hw.
  pose proof (scanTextNodes_ids this rootElement pathVar textNodes i bindingId w) as H.
  cbn zeta in H. destruct H as [Ht H]. destruct bindingId as [b|].
  - destruct H as [H1 H2].
    eapply identified_frame; [| | |exact Hw]; [by apply idsFrom_attributes|done..].
  - destruct (existsb _ _); destruct H as [H1 H2].
    + by eapply identified_assign.
    + eapply identified_frame; [| | |exact Hw]; [by apply idsFrom_attributes|done..].
Qed.

Section Construction.

Variable construct : string -> nat -> M World nat.
Hypothesis construct_keeps : forall id parent, keeps identified (construct id parent).

Lemma keeps_processElements fuel : forall this rootElement,
  keeps identified (processElements construct fuel this rootElement).
Proof.
  induction fuel as [|fuel IH]; intros this rootElement.
  { apply keeps_timeout. }
  cbn [processElements].
  apply keeps_bind; [apply keeps_gets|]. intros children.
  apply keeps_bind; [apply keeps_gets|]. intros textNodes.
  apply keeps_bind; [apply keeps_newVar|]. intros pathVar.
  apply keeps_bind; [apply keeps_scanTextNodes|]. intros _.
  apply keeps_bind; [apply keeps_gets|]. intros isSub.
  destruct isSub.
  - unfold processSubComponent.
    apply keeps_bind; [apply keeps_gets|]. intros componentId.
    apply keeps_bind; [apply keeps_deref|]. intros componentId'.
    apply keeps_bind; [apply construct_keeps|]. intros instance.
    apply keeps_show.
  - match goal with
    | |- keeps _ (?f fuel 0) =>
        assert (Hloop : forall budget i, keeps identified (f budget i));
          [|apply Hloop]
    end.
    induction budget as [|budget IHb]; intros i; [apply keeps_timeout|].
    apply keeps_bind; [apply keeps_gets|]. intros children'.
    destruct (i <? length children')%nat; [|apply keeps_ret].
    apply keeps_bind; [apply keeps_deref|]. intros child.
    apply keeps_bind; [apply keeps_gets|]. intros isElement.
    apply keeps_bind; [|intros _; apply IHb].
    destruct isElement; [apply IH|apply keeps_ret].
Qed.

Lemma keeps_constructor fuel id parent :
  keeps identified (constructor construct fuel id parent).
Proof.
  intros w Hw. unfold constructor.
  pose proof (keeps_newObject (mk id {["title" := mkObservable "" []]} false parent
                                 None ∅ ∅) w Hw) as H0.
  unfold bind at 1.
  destruct (newObject _ w) as [this w0|e w0|w0] eqn:E0; cbn [finalState] in H0;
    [|done..].
  rewrite bind_gets.
  destruct (templates w0 !! ("template_" ++ id)) as [template|] eqn:Et; [|done].
  pose proof (identified_clean w0 _ _ H0 Et) as Hclean.
  match goal with
  | |- identified (finalState (?m w0)) =>
      assert (Hrest : keeps identified m); [|by apply Hrest]
  end.
  apply keeps_bind; [apply keeps_createElement|]. intros root.
  apply keeps_bind; [apply keeps_update|]. intros _.
  apply keeps_bind; [apply keeps_newVar|]. intros propertyNameVar.
  apply keeps_bind; [apply keeps_processPropertyBindings|]. intros _.
  apply keeps_bind; [by apply keeps_parseBody|]. intros parsedBody.
  apply keeps_bind; [apply keeps_gets|]. intros n.
  apply keeps_bind; [apply keeps_moveChildren|]. intros _.
  apply keeps_bind; [apply keeps_processElements|]. intros _.
  apply keeps_ret.
Qed.

End Construction.

Lemma keeps_constructRegistered registry depth : forall componentId parent,
  keeps identified (constructRegistered registry depth componentId parent).
Proof.
  induction depth as [|depth IH]; intros componentId parent;
    [apply keeps_timeout|].
  cbn [constructRegistered].
  destruct (registry !! componentId) as [id|]; [|apply keeps_throw].
  by apply keeps_constructor.
Qed.

(** X12: in a document whose templates bring no [id] of the form
    [BindingElement<k>] with them, the construction of a component, with the
    subcomponents that its template names, keeps the binding ids in order:
    each is below the counter and belongs to one element, so that the id
    which discovery stores in a record is never given to a second element, of
    this component or of another.  This holds for the runs that return and
    for those that throw or run out of fuel. *)
Theorem constructor_binding_ids (registry : gmap string string)
    (depth fuel : nat) (id : string) (parent : option nat) (w : World) :
  cleanTemplates w = true ->
  bindingIds w ->
  bindingIds
    (finalState
       (constructor (constructRegistered registry depth) fuel id parent w)).
Proof.
  intros Hclean Hids.
  apply (keeps_constructor (constructRegistered registry depth)
           (keeps_constructRegistered registry depth) fuel id parent w).
  by split.
Qed.

Lemma bindingIds_document ts : bindingIds (document ts).
Proof.
  assert (H : forall n, Dom.getAttribute (dom (document ts)) n "id" = None).
  { intros n. unfold Dom.getAttribute, Dom.attrsOf. cbn.
    destruct (decide (n = 0)) as [->|Hn].
    - by rewrite lookup_insert_eq.
    - by rewrite lookup_insert_ne, lookup_empty. }
  split; intros n; intros; by rewrite H in *.
Qed.

Lemma constructor_binding_ids_witness :
  bindingIds
    (finalState
       (constructor (constructRegistered subRegistry 9) 9 "T" None subComponent)).
Proof.
  refine (constructor_binding_ids subRegistry 9 9 "T" None subComponent _ _).
  - vm_compute. reflexivity.
  - apply bindingIds_document.
Defined.

(** * Further properties of the Repeater *)

Import Repeater.

(** ** The state after an item was rendered *)



(** ** The first rendering *)















(** ** Positions past the end *)



(** ** Listeners of the item events *)

Lemma prepareNodes_listeners ns c : forall r,
  exists r',
    prepareNodes ns c r = Ok ns r'
    /\ listeners r' = (listeners r ++ itemListeners (itemEventCallbacks r) c ns)%list.
Proof.
  induction ns as [|n ns IH]; intros r.
  - exists r. split; [done|]. cbn. by rewrite app_nil_r.
  - cbn [prepareNodes]. unfold applyMyDataContext, setParentComponent,
      applyRepeaterEvents.
    rewrite bind_modify, bind_ret. unfold bind at 1.
    set (r1 := withListeners _ _).
    destruct (IH r1) as (r' & Hc & Hl).
    rewrite (bind_run _ _ _ _ _ Hc). exists r'. split; [done|].
    rewrite Hl. unfold r1. cbn [listeners itemEventCallbacks withListeners
      withNodeContext itemListeners flat_map].
    by rewrite <- app_assoc.
Qed.

Lemma keeps_listeners_deref {A} L (x : option A) :
  keeps (fun s => listeners s = L) (deref x).
Proof. destruct x; [apply keeps_ret|apply keeps_throw]. Qed.

Lemma keeps_listeners_domCall L f :
  keeps (fun s => listeners s = L) (domCall f).
Proof. intros s Hs. unfold domCall. by destruct (f (dom s)). Qed.

Lemma keeps_listeners_collectBindings L ns c :
  keeps (fun s => listeners s = L) (collectBindings ns c).
Proof. intros s Hs. by destruct (collectBindings_spec ns c s) as (bs & -> & _). Qed.

(** X18: [itemAdded] gives every root-level node of the clone one listener per
    declared item event, each for the data context that wraps the added
    item, and adds no other listener. *)
Theorem itemAdded_listeners (array : list Item) (r : Repeater.t)
    (arg : ObservableArrayEventArgs) :
  populated array r ->
  exists r' clone,
    itemAdded arg r = Ok tt r'
    /\ itemNodes r' = spliceInsert (position arg) clone (itemNodes r)
    /\ contexts r' !! nextContext r = Some (item arg)
    /\ listeners r'
       = (listeners r
          ++ itemListeners (itemEventCallbacks r) (nextContext r) clone)%list.
Proof.
  intros Hp.
  pose proof Hp as (Ht & [parent Hl] & _).
  pose proof Ht as (tpl & Htpl & Htne & Htlen).
  pose proof Hl as (Hself & Hpar & Hnd & Hkids & _).
  destruct (laidOut_entries parent r Hl) as (Hin & Hsub & Hndc).
  destruct (itemAdded_core r arg tpl parent Htpl Hself Hpar Hkids Hin)
    as (r' & bs & Hrun & _ & _ & Hi & _ & _ & _ & _ & Hc & _).
  { pose proof (templated_nonempty r Ht) as Hne.
    rewrite Forall_forall in Hne, Hsub |- *. intros e He. split; [by apply Hne|].
    by apply Hsub. }
  set (ns := seq (S (Dom.nextNode (dom r))) (length tpl)) in *.
  exists r', ns. split_and!; [done|done|by rewrite Hc, lookup_insert_eq|].
  change r' with (finalState (Ok tt r' : Res t unit)). rewrite <- Hrun.
  unfold itemAdded.
  unfold newObservable at 1. unfold bind at 1.
  set (r1 := withNextContext S _).
  destruct (importNode_spec r1 tpl Htpl) as (d2 & ph2 & Himp & Hk2 & _).
  rewrite (bind_run _ _ _ _ _ Himp).
  set (r2 := withNodePlaceholders _ _).
  rewrite bind_gets. change (dom r2) with d2. rewrite Hk2.
  change (Dom.nextNode (dom r1)) with (Dom.nextNode (dom r)). fold ns.
  destruct (prepareNodes_listeners ns (nextContext r) r2) as (r3 & Hprep & Hl3).
  rewrite (bind_run _ _ _ _ _ Hprep).
  change (listeners r2) with (listeners r) in Hl3.
  change (itemEventCallbacks r2) with (itemEventCallbacks r) in Hl3.
  revert Hl3. generalize r3.
  match goal with
  | |- forall s, listeners s = ?L -> listeners (finalState (?m s)) = ?L =>
      change (keeps (fun s => listeners s = L) m)
  end.
  apply keeps_bind; [apply keeps_gets|intros nodes].
  apply keeps_bind; [apply keeps_gets|intros this].
  apply keeps_bind.
  { destruct (Nat.eqb (length nodes) 0); [apply keeps_gets|].
    destruct (position arg <? length nodes)%nat.
    - apply keeps_bind; [apply keeps_listeners_deref|intros; apply keeps_ret].
    - apply keeps_bind; [apply keeps_listeners_deref|intros].
      apply keeps_bind; [apply keeps_listeners_deref|intros; apply keeps_gets]. }
  intros refNode.
  apply keeps_bind; [by apply keeps_modify|intros _].
  apply keeps_bind; [apply keeps_gets|intros p].
  apply keeps_bind; [apply keeps_listeners_deref|intros p'].
  apply keeps_bind; [apply keeps_listeners_domCall|intros _].
  apply keeps_bind; [apply keeps_listeners_collectBindings|intros bs'].
  apply keeps_bind; [by apply keeps_modify|intros _].
  by intros s Hs.
Qed.

(** ** Concrete runs *)







(** The Repeater that renders [x] (nodes 5 and 6), with its data context set
    to a value that is no [ObservableArray]: a [Map] that holds [a] under
    the key 0 has [a] rendered (nodes 8 and 9) before the [TypeError]; an
    object without [size], and [null], leave nothing rendered. *)
Example dataContextUpdated_by_value :
  let run v := dataContextUpdated (rebound v oneItemRepeater) in
  Dom.kids (dom oneItemRepeater) 0 = [1; 2; 5; 6; 3]
  /\ run (Collection ["a"]) = Throw TypeError (finalState (run (Collection ["a"])))
  /\ Dom.kids (dom (finalState (run (Collection ["a"])))) 0 = [1; 2; 8; 9; 3]
  /\ itemNodes (finalState (run (Collection ["a"]))) = [[8; 9]]
  /\ run OtherValue = Throw TypeError (finalState (run OtherValue))
  /\ Dom.kids (dom (finalState (run OtherValue))) 0 = [1; 2; 3]
  /\ itemNodes (finalState (run OtherValue)) = []
  /\ run Nullish = Throw TypeError (finalState (run Nullish))
  /\ Dom.kids (dom (finalState (run Nullish))) 0 = [1; 2; 3]
  /\ itemNodes (finalState (run Nullish)) = [].
Proof. cbn zeta. split_and!; vm_compute; reflexivity. Qed.


(** Two items, two root-level nodes each: the four nodes follow the host in
    the order of the array. *)
Example attachedCallback_renders_in_order :
  let r' := finalState (attachedCallback createdRepeater) in
  Dom.kids (dom createdRepeater) 0 = [1; 2; 3]
  /\ Dom.kids (dom r') 0 = [1; 2; 5; 6; 8; 9; 3]
  /\ itemNodes r' = [[5; 6]; [8; 9]]
  /\ Dom.nodeValue (dom r') !! 5 = Some "a"
  /\ Dom.nodeValue (dom r') !! 8 = Some "b".
Proof. cbn zeta. split_and!; vm_compute; reflexivity. Qed.


Lemma itemAdded_listeners_witness :
  exists r' clone,
    itemAdded (mkArgs "y" 0) oneItemRepeater = Ok tt r'
    /\ itemNodes r'
       = spliceInsert (position (mkArgs "y" 0)) clone (itemNodes oneItemRepeater)
    /\ contexts r' !! nextContext oneItemRepeater = Some (item (mkArgs "y" 0))
    /\ listeners r'
       = (listeners oneItemRepeater
          ++ itemListeners (itemEventCallbacks oneItemRepeater)
               (nextContext oneItemRepeater) clone)%list.
Proof.
  apply (itemAdded_listeners ["x"] oneItemRepeater (mkArgs "y" 0)
           oneItemRepeater_populated).
Defined.

(** The second item of a Repeater that declares the item event [click]: its
    two nodes get one [click] listener each, for the item's data context. *)
Example second_item_listeners :
  listeners (finalState (itemAdded (mkArgs "y" 0) oneItemRepeater))
  = (listeners oneItemRepeater ++ [(8, "click", 1); (9, "click", 1)])%list.
Proof. vm_compute. reflexivity. Qed.
